(** * web-chat-sdk: chat transport, socket heartbeat, call signalling

  A shallow embedding of the SDK's JavaScript modules
  ([utils.js], [chat.js], [socket.js], [call.js]) together with the
  properties of its specification.

  JavaScript objects become records whose optional properties are
  [option] fields ([None] is [undefined]/[null]); objects with identity
  (sockets, abort controllers, promises, timers) live in finite maps keyed
  by an address; the module-level [currentSession] variables become fields
  of an explicit world that every operation threads through. *)

From Stdlib Require Import ZArith String Ascii List Lia Bool.
From stdpp Require Import base option list gmap strings.

Local Open Scope Z_scope.
Local Open Scope string_scope.

(** ** utils.js *)

Module Utils.

(** ECMAScript [ToInt32] of an integral Number: wrap modulo 2^32 into
    the signed range. *)
Definition ToInt32 (x : Z) : Z :=
  let m := x mod 2 ^ 32 in
  if decide (m < 2 ^ 31) then m else m - 2 ^ 32.

(** [x >> n]: both operands go through the 32-bit conversions, the shift
    count is taken modulo 32, and the shift propagates the sign. *)
Definition js_shr (x n : Z) : Z := Z.shiftr (ToInt32 x) (n mod 32).

(** [x & y] and [x | y] on 32-bit operands. *)
Definition js_and (x y : Z) : Z := Z.land (ToInt32 x) (ToInt32 y).
Definition js_or (x y : Z) : Z := Z.lor (ToInt32 x) (ToInt32 y).

(** A [Uint8Array] element store keeps the low eight bits. *)
Definition u8_store (i : nat) (v : Z) (bytes : list Z) : list Z :=
  <[i := v mod 256]> bytes.

(** [new Uint8Array(16)] filled by [crypto.getRandomValues]; the entropy
    source is the argument [rnd]. *)
Definition getRandomValues (rnd : list Z) : list Z :=
  (λ i, (rnd !!! i) mod 256) <$> seq 0 16.

(** The sixteen bytes [uuidv7] builds before formatting them. *)
Definition uuidv7_bytes (timestamp : Z) (rnd : list Z) : list Z :=
  let bytes := getRandomValues rnd in
  (* Set timestamp (48 bits) *)
  let bytes := u8_store 0 (js_and (js_shr timestamp 40) 0xff) bytes in
  let bytes := u8_store 1 (js_and (js_shr timestamp 32) 0xff) bytes in
  let bytes := u8_store 2 (js_and (js_shr timestamp 24) 0xff) bytes in
  let bytes := u8_store 3 (js_and (js_shr timestamp 16) 0xff) bytes in
  let bytes := u8_store 4 (js_and (js_shr timestamp 8) 0xff) bytes in
  let bytes := u8_store 5 (js_and timestamp 0xff) bytes in
  (* Set version 7 (0111) *)
  let bytes := u8_store 6 (js_or (js_and (bytes !!! 6%nat) 0x0f) 0x70) bytes in
  (* Set variant (10xx) *)
  let bytes := u8_store 8 (js_or (js_and (bytes !!! 8%nat) 0x3f) 0x80) bytes in
  bytes.

Definition hex_digit (d : Z) : ascii :=
  match d with
  | 0 => "0" | 1 => "1" | 2 => "2" | 3 => "3" | 4 => "4" | 5 => "5"
  | 6 => "6" | 7 => "7" | 8 => "8" | 9 => "9" | 10 => "a" | 11 => "b"
  | 12 => "c" | 13 => "d" | 14 => "e" | _ => "f"
  end%char.

(** [b.toString(16).padStart(2, '0')] for a byte [b]. *)
Definition hex2 (b : Z) : string :=
  String (hex_digit (b / 16)) (String (hex_digit (b mod 16)) EmptyString).

(** [s.slice(from, to)] for indices within the string. *)
Definition slice (from to : nat) (s : string) : string :=
  String.substring from (to - from) s.

Definition uuidv7 (timestamp : Z) (rnd : list Z) : string :=
  let hex := String.concat "" (hex2 <$> uuidv7_bytes timestamp rnd) in
  slice 0 8 hex +:+ "-" +:+ slice 8 12 hex +:+ "-" +:+ slice 12 16 hex
    +:+ "-" +:+ slice 16 20 hex +:+ "-" +:+ slice 20 32 hex.

(** The big-endian encoding of the low 48 bits of [t]. *)
Definition be48 (t : Z) : list Z :=
  (λ k, (t / 2 ^ (8 * k)) mod 256) <$> [5; 4; 3; 2; 1; 0].

End Utils.

(** ** JavaScript values, exceptions and effects *)

Module Js.

(** A thrown or rejected value: an [Error] carries a message, a DOM event
    object used as an error has none. *)
Record Error := mkError { message : option string }.

Definition Err (s : string) : Error := mkError (Some s).

(** Truthiness of an optional string, boolean or reference. *)
Definition truthy_str (o : option string) : bool :=
  match o with
  | Some s => negb (String.eqb s "")
  | None => false
  end.

Definition truthy_bool (o : option bool) : bool :=
  match o with
  | Some b => b
  | None => false
  end.

Definition is_some {A} (o : option A) : bool :=
  match o with
  | Some _ => true
  | None => false
  end.

(** [a || d] on strings. *)
Definition or_str (o : option string) (d : string) : string :=
  match o with
  | Some s => if String.eqb s "" then d else s
  | None => d
  end.

(** [a ?? b]. *)
Definition nullish {A} (a b : option A) : option A :=
  match a with
  | Some _ => a
  | None => b
  end.

(** Code that mutates a store of type [S] and either returns or throws;
    what it wrote before throwing stays written. *)
Inductive Outcome (S A : Type) :=
| Return (a : A) (s : S)
| Throw (e : Error) (s : S).
Arguments Return {S A} a s.
Arguments Throw {S A} e s.

Definition JS (S A : Type) : Type := S → Outcome S A.

Definition ret {S A} (a : A) : JS S A := λ s, Return a s.

Definition bind {S A B} (m : JS S A) (k : A → JS S B) : JS S B :=
  λ s, match m s with
       | Return a s' => k a s'
       | Throw e s' => Throw e s'
       end.

Definition throw {S A} (e : Error) : JS S A := λ s, Throw e s.

Definition gets {S A} (f : S → A) : JS S A := λ s, Return (f s) s.

Definition modify {S} (f : S → S) : JS S () := λ s, Return () (f s).

(** [try { body } catch (error) { handler }]. *)
Definition try_catch {S A} (body : JS S A) (handler : Error → JS S A) : JS S A :=
  λ s, match body s with
       | Return a s' => Return a s'
       | Throw e s' => handler e s'
       end.

(** [if (c) { m }]. *)
Definition when {S} (c : bool) (m : JS S ()) : JS S () :=
  if c then m else ret ().

(** The store an outcome leaves. *)
Definition store {S A} (o : Outcome S A) : S :=
  match o with
  | Return _ s => s
  | Throw _ s => s
  end.

Definition thrown {S A} (o : Outcome S A) : option Error :=
  match o with
  | Return _ _ => None
  | Throw e _ => Some e
  end.

End Js.

(** Sequencing reads as in the source: [x ← m; k] runs [m], names its
    result and goes on with [k]; [m;; k] drops the result. *)
Declare Scope js_scope.
Delimit Scope js_scope with js.
Notation "x ← y ; z" := (Js.bind y (λ x, z))
  (at level 20, y at level 100, z at level 200, only parsing) : js_scope.
Notation "x ;; z" := (Js.bind x (λ _, z))
  (at level 100, z at level 200, only parsing, right associativity) : js_scope.
Open Scope js_scope.

(** ** constants.js *)

Module MESSAGE_ROLES.
Definition BOT : string := "assistant".
Definition USER : string := "user".
Definition AGENT : string := "agent".
Definition SYSTEM : string := "system".
End MESSAGE_ROLES.

(** An address of an object that has identity: a promise, an abort
  controller, a socket, a timer, a streaming request. *)
Definition addr := nat.

(** ** chat.js: the session object *)

Module ChatSession.

(** A chat message object. Every property is optional; the epoch
    milliseconds stand for the ISO string [timestamp] holds. *)
Record Message := mkMessage {
  id : option string;
  role : option string;
  text : option string;
  html : option string;
  timestamp : option Z;
  loading : option bool;
  sources : option (list string);
  done : option bool;
  errorText : option string;
  video : option string;
  channel : option string
}.

Definition emptyMessage : Message :=
  mkMessage None None None None None None None None None None None.

(** What [new URL(s)] makes of an endpoint string. *)
Inductive Endpoint :=
| ValidUrl (hostname pathname : string)
| InvalidUrl (s : string).

Record Credentials := mkCredentials {
  endpoint : option Endpoint;
  token : option string;
  externalId : option string
}.

(** The callback slots; a registered function is known by its name. *)
Record ChatCallbacks := mkCallbacks {
  onMessageAdd : option string;
  onMessageUpdate : option string;
  onSessionUpdate : option string;
  onTransportUpdate : option string;
  onTyping : option string
}.

Definition noCallbacks : ChatCallbacks := mkCallbacks None None None None None.

(** The object [setCallbacks] is called with: each key is absent
    ([None]), or present with a function or with [undefined]. *)
Record CallbacksArg := mkCallbacksArg {
  arg_onMessageAdd : option (option string);
  arg_onMessageUpdate : option (option string);
  arg_onSessionUpdate : option (option string);
  arg_onTransportUpdate : option (option string);
  arg_onTyping : option (option string)
}.

Inductive TransportType := sse | socket.

(** The URL [startChat] stores: the endpoint followed by the
    [externalId] query parameter. *)
Record SseUrl := mkSseUrl {
  url_endpoint : option Endpoint;
  url_externalId : string
}.

Record ChatSession := mkSession {
  credentials : option Credentials;
  authenticated : bool;
  configData : option string;
  sessionId : option string;
  requestId : option string;
  sseUrl : option SseUrl;
  abortController : option addr;
  lastStreamId : option string;
  messages : list Message;
  callbacks : ChatCallbacks;
  transport : TransportType
}.

Definition createSession (callbacks : ChatCallbacks) : ChatSession :=
  {| credentials := None;
     authenticated := false;
     configData := None;
     sessionId := None;
     requestId := None;
     sseUrl := None;
     abortController := None;
     lastStreamId := None;
     messages := [];
     callbacks := callbacks;
     transport := sse |}.

Global Instance TransportType_eq_dec : EqDecision TransportType.
Proof. solve_decision. Defined.

(** Assignments to one property of a message ([{...m, p: x}]). *)
Definition set_id (x : option string) (s : Message) : Message :=
  mkMessage x (role s) (text s) (html s) (timestamp s) (loading s) (sources
    s) (done s) (errorText s) (video s) (channel s).
Definition set_role (x : option string) (s : Message) : Message :=
  mkMessage (id s) x (text s) (html s) (timestamp s) (loading s) (sources s)
    (done s) (errorText s) (video s) (channel s).
Definition set_text (x : option string) (s : Message) : Message :=
  mkMessage (id s) (role s) x (html s) (timestamp s) (loading s) (sources s)
    (done s) (errorText s) (video s) (channel s).
Definition set_html (x : option string) (s : Message) : Message :=
  mkMessage (id s) (role s) (text s) x (timestamp s) (loading s) (sources s)
    (done s) (errorText s) (video s) (channel s).
Definition set_timestamp (x : option Z) (s : Message) : Message :=
  mkMessage (id s) (role s) (text s) (html s) x (loading s) (sources s)
    (done s) (errorText s) (video s) (channel s).
Definition set_loading (x : option bool) (s : Message) : Message :=
  mkMessage (id s) (role s) (text s) (html s) (timestamp s) x (sources s)
    (done s) (errorText s) (video s) (channel s).
Definition set_sources (x : option (list string)) (s : Message) : Message :=
  mkMessage (id s) (role s) (text s) (html s) (timestamp s) (loading s) x
    (done s) (errorText s) (video s) (channel s).
Definition set_done (x : option bool) (s : Message) : Message :=
  mkMessage (id s) (role s) (text s) (html s) (timestamp s) (loading s)
    (sources s) x (errorText s) (video s) (channel s).
Definition set_errorText (x : option string) (s : Message) : Message :=
  mkMessage (id s) (role s) (text s) (html s) (timestamp s) (loading s)
    (sources s) (done s) x (video s) (channel s).
Definition set_video (x : option string) (s : Message) : Message :=
  mkMessage (id s) (role s) (text s) (html s) (timestamp s) (loading s)
    (sources s) (done s) (errorText s) x (channel s).
Definition set_channel (x : option string) (s : Message) : Message :=
  mkMessage (id s) (role s) (text s) (html s) (timestamp s) (loading s)
    (sources s) (done s) (errorText s) (video s) x.

(** Assignments to one property of the session. *)
Definition set_credentials (x : option Credentials) (s : ChatSession) : ChatSession :=
  mkSession x (authenticated s) (configData s) (sessionId s) (requestId s)
    (sseUrl s) (abortController s) (lastStreamId s) (messages s) (callbacks
    s) (transport s).
Definition set_authenticated (x : bool) (s : ChatSession) : ChatSession :=
  mkSession (credentials s) x (configData s) (sessionId s) (requestId s)
    (sseUrl s) (abortController s) (lastStreamId s) (messages s) (callbacks
    s) (transport s).
Definition set_configData (x : option string) (s : ChatSession) : ChatSession :=
  mkSession (credentials s) (authenticated s) x (sessionId s) (requestId s)
    (sseUrl s) (abortController s) (lastStreamId s) (messages s) (callbacks
    s) (transport s).
Definition set_sessionId (x : option string) (s : ChatSession) : ChatSession :=
  mkSession (credentials s) (authenticated s) (configData s) x (requestId s)
    (sseUrl s) (abortController s) (lastStreamId s) (messages s) (callbacks
    s) (transport s).
Definition set_requestId (x : option string) (s : ChatSession) : ChatSession :=
  mkSession (credentials s) (authenticated s) (configData s) (sessionId s) x
    (sseUrl s) (abortController s) (lastStreamId s) (messages s) (callbacks
    s) (transport s).
Definition set_sseUrl (x : option SseUrl) (s : ChatSession) : ChatSession :=
  mkSession (credentials s) (authenticated s) (configData s) (sessionId s)
    (requestId s) x (abortController s) (lastStreamId s) (messages s)
    (callbacks s) (transport s).
Definition set_abortController (x : option addr) (s : ChatSession) : ChatSession :=
  mkSession (credentials s) (authenticated s) (configData s) (sessionId s)
    (requestId s) (sseUrl s) x (lastStreamId s) (messages s) (callbacks s)
    (transport s).
Definition set_lastStreamId (x : option string) (s : ChatSession) : ChatSession :=
  mkSession (credentials s) (authenticated s) (configData s) (sessionId s)
    (requestId s) (sseUrl s) (abortController s) x (messages s) (callbacks
    s) (transport s).
Definition set_messages (x : list Message) (s : ChatSession) : ChatSession :=
  mkSession (credentials s) (authenticated s) (configData s) (sessionId s)
    (requestId s) (sseUrl s) (abortController s) (lastStreamId s) x
    (callbacks s) (transport s).
Definition set_callbacks (x : ChatCallbacks) (s : ChatSession) : ChatSession :=
  mkSession (credentials s) (authenticated s) (configData s) (sessionId s)
    (requestId s) (sseUrl s) (abortController s) (lastStreamId s) (messages
    s) x (transport s).
Definition set_transport (x : TransportType) (s : ChatSession) : ChatSession :=
  mkSession (credentials s) (authenticated s) (configData s) (sessionId s)
    (requestId s) (sseUrl s) (abortController s) (lastStreamId s) (messages
    s) (callbacks s) x.

End ChatSession.

(** ** socket.js: the session object *)

Module SocketSession.

Record SocketSession := mkSession {
  socket : option addr;
  previouslyConnected : bool;
  socketDisconnected : bool;
  pingInterval : option addr;
  socketDisconnectedTimeout : option addr;
  socketConnectionTimeout : option addr
}.

Definition createSession : SocketSession :=
  {| socket := None;
     previouslyConnected := false;
     socketDisconnected := false;
     pingInterval := None;
     socketDisconnectedTimeout := None;
     socketConnectionTimeout := None |}.

(** Assignments to one property of the session. *)
Definition set_socket (x : option addr) (s : SocketSession) : SocketSession :=
  mkSession x (previouslyConnected s) (socketDisconnected s) (pingInterval
    s) (socketDisconnectedTimeout s) (socketConnectionTimeout s).
Definition set_previouslyConnected (x : bool) (s : SocketSession) : SocketSession :=
  mkSession (socket s) x (socketDisconnected s) (pingInterval s)
    (socketDisconnectedTimeout s) (socketConnectionTimeout s).
Definition set_socketDisconnected (x : bool) (s : SocketSession) : SocketSession :=
  mkSession (socket s) (previouslyConnected s) x (pingInterval s)
    (socketDisconnectedTimeout s) (socketConnectionTimeout s).
Definition set_pingInterval (x : option addr) (s : SocketSession) : SocketSession :=
  mkSession (socket s) (previouslyConnected s) (socketDisconnected s) x
    (socketDisconnectedTimeout s) (socketConnectionTimeout s).
Definition set_socketDisconnectedTimeout (x : option addr) (s : SocketSession) : SocketSession :=
  mkSession (socket s) (previouslyConnected s) (socketDisconnected s)
    (pingInterval s) x (socketConnectionTimeout s).
Definition set_socketConnectionTimeout (x : option addr) (s : SocketSession) : SocketSession :=
  mkSession (socket s) (previouslyConnected s) (socketDisconnected s)
    (pingInterval s) (socketDisconnectedTimeout s) x.

End SocketSession.

(** ** The browser around the SDK

  Promises, abort controllers, WebSockets, streaming requests, timers,
  the clock, the entropy source and local storage, and the two module
  stores [currentSession] of chat.js and socket.js. *)

Module Runtime.

Export Js.

(** What a promise can be settled with. *)
Inductive Value :=
| VUndefined
| VString (s : string)
| VBool (b : bool)
| VObject (m : ChatSession.Message).

Definition of_opt_string (o : option string) : Value :=
  match o with
  | Some s => VString s
  | None => VUndefined
  end.

Inductive Promise :=
| Pending
| Fulfilled (v : Value)
| Rejected (e : Error).

(** *** WebSocket objects *)

Inductive ReadyState := CONNECTING | OPEN | CLOSING | CLOSED.

Global Instance ReadyState_eq_dec : EqDecision ReadyState.
Proof. solve_decision. Defined.

(** A parsed JSON frame of the chat socket protocol; [error] holds
    [error.message] when the frame has an [error] member. *)
Record Frame := mkFrame {
  type : string;
  eventId : option string;
  data : option ChatSession.Message;
  error : option string
}.

(** The ['message'] listener [sendWithAck] registers: the closure keeps
    the event id it waits for, its timeout and its promise. *)
Record AckListener := mkAckListener {
  ack_eventId : string;
  ack_timeout : addr;
  ack_promise : addr
}.

Global Instance AckListener_eq_dec : EqDecision AckListener.
Proof. solve_decision. Defined.

Record SocketUrl := mkSocketUrl {
  su_hostname : string;
  su_pathname : string;
  su_externalId : string;
  su_sessionId : option string;
  su_requestId : option string;
  su_token : option string
}.

(** A socket created by [connectSocket]: [ws_connect] is the promise
    whose [fulfill] and [reject] its handlers captured. *)
Record WebSocket := mkWebSocket {
  ws_url : SocketUrl;
  ws_connect : addr;
  readyState : ReadyState;
  sent : list Frame;
  listeners : list AckListener;
  closeCalls : list Z
}.

(** *** Timers *)

(** The closures the SDK hands to [setTimeout] and [setInterval]. *)
Inductive TimerAction :=
| SleepDone (p : addr) (text : string) (html : option string)
| PingTick
| SocketDisconnectedTimeout
| SocketConnectionTimeout (p : addr)
| AutoRejectTimeout (p : addr).

Record Timer := mkTimer {
  due : Z;
  period : option Z;
  action : TimerAction;
  active : bool
}.

(** *** Streaming requests opened with fetchEventSource *)

Inductive RequestState := Connecting | Streaming | Finished.

Global Instance RequestState_eq_dec : EqDecision RequestState.
Proof. solve_decision. Defined.

Record Request := mkRequest {
  rq_url : ChatSession.SseUrl;
  rq_sessionId : option string;
  rq_requestId : option string;
  rq_authorization : option string;
  rq_message : string;
  rq_html : option string;
  rq_signal : addr;
  rq_promise : addr;
  rq_state : RequestState
}.

(** *** What the application observes *)

Inductive Notification :=
| MessageAdd (f : string) (m : ChatSession.Message)
| MessageUpdate (f : string) (index : Z) (m : ChatSession.Message)
| SessionUpdate (f : string) (sessionId : string)
| TransportUpdate (f : string) (t : ChatSession.TransportType)
| Typing (f : string) (isTyping : bool)
| Uncaught (e : Error).

(** *** Exceptions the engine raises by itself

    A [TypeError], a [SyntaxError] or a [DOMException] that the engine or
    the browser raises carries a [message] whose text is the engine's own:
    it differs from one engine to the next and may quote the offending
    value. The world holds the wording. *)
Inductive Fault :=
| BadUrl (u : option ChatSession.SseUrl)
| BadState
| BadRead (what : string)
| BadJson
| BadRtc (operation : string).

(** *** The world *)

Record World := mkWorld {
  chat : ChatSession.ChatSession;
  sock : SocketSession.SocketSession;
  promises : list Promise;
  controllers : list bool;
  sockets : list WebSocket;
  requests : list Request;
  timers : list Timer;
  clock : Z;
  entropy : nat → list Z;
  draws : nat;
  chatDeviceId : option string;
  engine : Fault → string;
  log : list Notification
}.

Definition with_chat (x : ChatSession.ChatSession) (w : World) : World :=
  mkWorld x (sock w) (promises w) (controllers w) (sockets w) (requests w)
    (timers w) (clock w) (entropy w) (draws w) (chatDeviceId w) (engine w) (log w).
Definition with_sock (x : SocketSession.SocketSession) (w : World) : World :=
  mkWorld (chat w) x (promises w) (controllers w) (sockets w) (requests w)
    (timers w) (clock w) (entropy w) (draws w) (chatDeviceId w) (engine w) (log w).
Definition with_promises (x : list Promise) (w : World) : World :=
  mkWorld (chat w) (sock w) x (controllers w) (sockets w) (requests w)
    (timers w) (clock w) (entropy w) (draws w) (chatDeviceId w) (engine w) (log w).
Definition with_controllers (x : list bool) (w : World) : World :=
  mkWorld (chat w) (sock w) (promises w) x (sockets w) (requests w)
    (timers w) (clock w) (entropy w) (draws w) (chatDeviceId w) (engine w) (log w).
Definition with_sockets (x : list WebSocket) (w : World) : World :=
  mkWorld (chat w) (sock w) (promises w) (controllers w) x (requests w)
    (timers w) (clock w) (entropy w) (draws w) (chatDeviceId w) (engine w) (log w).
Definition with_requests (x : list Request) (w : World) : World :=
  mkWorld (chat w) (sock w) (promises w) (controllers w) (sockets w) x
    (timers w) (clock w) (entropy w) (draws w) (chatDeviceId w) (engine w) (log w).
Definition with_timers (x : list Timer) (w : World) : World :=
  mkWorld (chat w) (sock w) (promises w) (controllers w) (sockets w) (requests w)
    x (clock w) (entropy w) (draws w) (chatDeviceId w) (engine w) (log w).
Definition with_clock (x : Z) (w : World) : World :=
  mkWorld (chat w) (sock w) (promises w) (controllers w) (sockets w) (requests w)
    (timers w) x (entropy w) (draws w) (chatDeviceId w) (engine w) (log w).
Definition with_draws (x : nat) (w : World) : World :=
  mkWorld (chat w) (sock w) (promises w) (controllers w) (sockets w) (requests w)
    (timers w) (clock w) (entropy w) x (chatDeviceId w) (engine w) (log w).
Definition with_chatDeviceId (x : option string) (w : World) : World :=
  mkWorld (chat w) (sock w) (promises w) (controllers w) (sockets w) (requests w)
    (timers w) (clock w) (entropy w) (draws w) x (engine w) (log w).
Definition with_log (x : list Notification) (w : World) : World :=
  mkWorld (chat w) (sock w) (promises w) (controllers w) (sockets w) (requests w)
    (timers w) (clock w) (entropy w) (draws w) (chatDeviceId w) (engine w) x.

(** The page as it loads: both modules hold the session their
    [createSession] returns, nothing else exists yet. *)
Definition boot (t0 : Z) (rnd : nat → list Z) (stored : option string)
    (wording : Fault → string) : World :=
  {| chat := ChatSession.createSession ChatSession.noCallbacks;
     sock := SocketSession.createSession;
     promises := [];
     controllers := [];
     sockets := [];
     requests := [];
     timers := [];
     clock := t0;
     entropy := rnd;
     draws := 0;
     chatDeviceId := stored;
     engine := wording;
     log := [] |}.

(** The wording of one engine, for the scenarios. *)
Definition wording0 (f : Fault) : string :=
  match f with
  | BadUrl _ => "Invalid URL"
  | BadState => "Still in CONNECTING state"
  | BadRead what => "Cannot read properties of undefined (reading '" +:+ what +:+ "')"
  | BadJson => "Unexpected end of JSON input"
  | BadRtc operation => "Failed to execute '" +:+ operation +:+ "'"
  end.

Abbreviation M := (JS World).

(** [Date.now()] *)
Definition now : M Z := gets clock.

Definition notify (n : Notification) : M () :=
  modify (λ w, with_log (log w ++ [n]) w).

(** The engine raises [f]: an error whose message is in its wording. *)
Definition raise {A} (f : Fault) : M A :=
  text ← gets (λ w, engine w f);
  throw (Err text).

(** *** Promises *)

Definition newPromise : M addr :=
  λ w, Return (length (promises w)) (with_promises (promises w ++ [Pending]) w).

(** Settling a promise that is already settled does nothing. *)
Definition settle (p : addr) (r : Promise) : M () :=
  modify (λ w,
    match promises w !! p with
    | Some Pending => with_promises (<[p := r]> (promises w)) w
    | _ => w
    end).

Definition resolve (p : addr) (v : Value) : M () := settle p (Fulfilled v).
Definition reject (p : addr) (e : Error) : M () := settle p (Rejected e).

(** *** Abort controllers *)

Definition newAbortController : M addr :=
  λ w, Return (length (controllers w))
         (with_controllers (controllers w ++ [false]) w).

Definition abort (c : addr) : M () :=
  modify (λ w, with_controllers (<[c := true]> (controllers w)) w).

Definition aborted (w : World) (c : addr) : bool :=
  default false (controllers w !! c).

(** *** Timers *)

Definition addTimer (t : Timer) : M addr :=
  λ w, Return (length (timers w)) (with_timers (timers w ++ [t]) w).

Definition setTimeout (a : TimerAction) (ms : Z) : M addr :=
  t ← now; addTimer (mkTimer (t + ms) None a true).

Definition setInterval (a : TimerAction) (ms : Z) : M addr :=
  t ← now; addTimer (mkTimer (t + ms) (Some ms) a true).

Definition cancel (t : Timer) : Timer :=
  mkTimer (due t) (period t) (action t) false.

(** [clearTimeout(id)] and [clearInterval(id)]; an id that is
    [undefined] or [null] or that names no pending timer is ignored. *)
Definition clearTimer (id : option addr) : M () :=
  modify (λ w,
    match id with
    | Some i =>
        match timers w !! i with
        | Some t => with_timers (<[i := cancel t]> (timers w)) w
        | None => w
        end
    | None => w
    end).

(** *** Entropy and local storage *)

Definition uuidv7 : M string :=
  λ w, Return (Utils.uuidv7 (clock w) (entropy w (draws w)))
         (with_draws (S (draws w)) w).

(** *** Sockets *)

Definition newWebSocket (u : SocketUrl) (p : addr) : M addr :=
  λ w, Return (length (sockets w))
         (with_sockets (sockets w ++ [mkWebSocket u p CONNECTING [] [] []]) w).

Definition updSocket (s : addr) (f : WebSocket → WebSocket) : M () :=
  modify (λ w,
    match sockets w !! s with
    | Some x => with_sockets (<[s := f x]> (sockets w)) w
    | None => w
    end).

Definition readyStateOf (w : World) (s : addr) : option ReadyState :=
  readyState <$> sockets w !! s.

Definition with_readyState (r : ReadyState) (x : WebSocket) : WebSocket :=
  mkWebSocket (ws_url x) (ws_connect x) r (sent x) (listeners x) (closeCalls x).

(** [socket.send(frame)]: throws while the socket is still connecting,
    queues the frame when it is open, drops it once it is closing or
    closed. *)
Definition ws_send (s : addr) (f : Frame) : M () :=
  r ← gets (λ w, readyStateOf w s);
  match r with
  | Some CONNECTING => raise BadState
  | Some OPEN =>
      updSocket s (λ x, mkWebSocket (ws_url x) (ws_connect x) (readyState x)
                          (sent x ++ [f]) (listeners x) (closeCalls x))
  | _ => ret ()
  end.

(** [socket.close(code)]: a socket not yet closed starts closing. *)
Definition ws_close (s : addr) (code : Z) : M () :=
  updSocket s (λ x,
    mkWebSocket (ws_url x) (ws_connect x)
      (match readyState x with CLOSED => CLOSED | _ => CLOSING end)
      (sent x) (listeners x) (closeCalls x ++ [code])).

Definition ws_addEventListener (s : addr) (l : AckListener) : M () :=
  updSocket s (λ x,
    mkWebSocket (ws_url x) (ws_connect x) (readyState x) (sent x)
      (if decide (l ∈ listeners x) then listeners x else listeners x ++ [l])
      (closeCalls x)).

Definition ws_removeEventListener (s : addr) (l : AckListener) : M () :=
  updSocket s (λ x,
    mkWebSocket (ws_url x) (ws_connect x) (readyState x) (sent x)
      (filter (λ l', l' ≠ l) (listeners x)) (closeCalls x)).

End Runtime.

(** ** chat.js, first half: the exports socket.js and call.js import

    chat.js and socket.js import each other; the functions of chat.js that
    call into socket.js ([cleanup], [disconnect], [startChat],
    [sendMessage]) follow in [ChatStream] below. *)

Module Chat.

Import Runtime ChatSession.

(** [currentSession.p = ...] *)
Definition assign (f : ChatSession → ChatSession) : M () :=
  modify (λ w, with_chat (f (chat w)) w).

(** [currentSession.callbacks.slot?.(...)] *)
Definition callback (slot : ChatCallbacks → option string)
    (n : string → Notification) : M () :=
  cb ← gets (λ w, slot (callbacks (chat w)));
  match cb with
  | Some f => notify (n f)
  | None => ret ()
  end.

(** [{ ...old, ...new }] on callback objects: a key of [new] wins
    whatever its value, also when that is [undefined]. *)
Definition mergeCallbacks (old : ChatCallbacks) (new : CallbacksArg)
    : ChatCallbacks :=
  {| onMessageAdd := default (onMessageAdd old) (arg_onMessageAdd new);
     onMessageUpdate := default (onMessageUpdate old) (arg_onMessageUpdate new);
     onSessionUpdate := default (onSessionUpdate old) (arg_onSessionUpdate new);
     onTransportUpdate :=
       default (onTransportUpdate old) (arg_onTransportUpdate new);
     onTyping := default (onTyping old) (arg_onTyping new) |}.

Definition setCallbacks (cbs : CallbacksArg) : M () :=
  assign (λ s, set_callbacks (mergeCallbacks (callbacks s) cbs) s).

Definition initialize (creds : Credentials) : M () :=
  assign (set_credentials (Some creds));;
  when (truthy_str (token creds)) (assign (set_authenticated true)).

Definition getCredentials : M (option Credentials) :=
  gets (λ w, credentials (chat w)).

Definition updateSessionId (sid : option string) : M () :=
  cur ← gets (λ w, sessionId (chat w));
  match sid with
  | Some s =>
      when (truthy_str sid && negb (bool_decide (sid = cur)))
        (assign (set_sessionId sid);;
         callback onSessionUpdate (λ f, SessionUpdate f s))
  | None => ret ()
  end.

(** utils.js [getDeviceId], over local storage. *)
Definition getDeviceId : M string :=
  stored ← gets chatDeviceId;
  match stored with
  | Some d =>
      if truthy_str stored then ret d
      else
        deviceId ← uuidv7;
        modify (with_chatDeviceId (Some deviceId));;
        ret deviceId
  | None =>
      deviceId ← uuidv7;
      modify (with_chatDeviceId (Some deviceId));;
      ret deviceId
  end.

Definition getExternalId : M string :=
  creds ← gets (λ w, credentials (chat w));
  match creds ≫= externalId with
  | Some e => if truthy_str (Some e) then ret e else getDeviceId
  | None => getDeviceId
  end.

Definition addMessage (message : Message) : M () :=
  assign (λ s, set_messages (messages s ++ [message]) s);;
  callback onMessageAdd (λ f, MessageAdd f message).

Definition toggleTypingStatus (isTyping : bool) : M () :=
  callback onTyping (λ f, Typing f isTyping).

Definition setTransport (t : TransportType) : M () :=
  assign (set_transport t);;
  callback onTransportUpdate (λ f, TransportUpdate f t).

Definition getTransport : M TransportType :=
  gets (λ w, transport (chat w)).

End Chat.

(** ** socket.js *)

Module Socket.

Import Runtime SocketSession.

Definition PING_INTERVAL : Z := 10000.
Definition SOCKET_TIMEOUT : Z := 5000.

Module SocketEvents.
Definition MESSAGE : string := "message".
Definition TYPING : string := "typing".
Definition TYPING_STOP : string := "typingOff".
Definition END : string := "end".
End SocketEvents.

(** [currentSession.p = ...] *)
Definition assign (f : SocketSession → SocketSession) : M () :=
  modify (λ w, with_sock (f (sock w)) w).

Definition field {A} (f : SocketSession → A) : M A :=
  gets (λ w, f (sock w)).

(** [currentSession.socket.readyState === WebSocket.OPEN] for a socket
    that is not [null]. *)
Definition isOpen (w : World) (s : addr) : bool :=
  bool_decide (readyStateOf w s = Some OPEN).

Definition stopPingInterval : M () :=
  i ← field pingInterval;
  when (is_some i)
    (clearTimer i;;
     assign (set_pingInterval None)).

(** Send data through socket. *)
Definition send (frame : Frame) : M () :=
  disconnected ← field socketDisconnected;
  s ← field socket;
  match s with
  | Some a =>
      if disconnected then ret ()
      else
        eid ← (if truthy_str (eventId frame)
               then ret (default "" (eventId frame))
               else uuidv7);
        ws_send a (mkFrame (type frame) (Some eid) (data frame) (error frame))
  | None => ret ()
  end.

Definition ping : Frame := mkFrame "ping" None None None.

(** The callback [startPingInterval] hands to [setInterval]. *)
Definition pingTick : M () :=
  s ← field socket;
  opened ← gets (λ w, match s with Some a => isOpen w a | None => false end);
  if opened then send ping else stopPingInterval.

Definition startPingInterval : M () :=
  stopPingInterval;;
  i ← setInterval PingTick PING_INTERVAL;
  assign (set_pingInterval (Some i)).

Definition clearAllTimeouts : M () :=
  stopPingInterval;;
  d ← field socketDisconnectedTimeout;
  when (is_some d)
    (clearTimer d;;
     assign (set_socketDisconnectedTimeout None));;
  c ← field socketConnectionTimeout;
  when (is_some c)
    (clearTimer c;;
     assign (set_socketConnectionTimeout None)).

Definition handleSocketConnected : M () :=
  assign (set_socketDisconnected false);;
  Chat.setTransport ChatSession.socket.

Definition handleSocketDisconnected : M () :=
  assign (set_socketDisconnected true);;
  Chat.setTransport ChatSession.sse.

(** The message both the closure handler and the connection timeout add. *)
Definition connectionError (t : Z) : ChatSession.Message :=
  ChatSession.set_errorText (Some "Unable to establish connection")
    (ChatSession.set_done (Some true)
       (ChatSession.set_timestamp (Some t) ChatSession.emptyMessage)).

(** [!credentials || !credentials.endpoint] *)
Definition endpointMissing (c : option ChatSession.Credentials) : bool :=
  match c ≫= ChatSession.endpoint with
  | Some (ChatSession.ValidUrl _ _) => false
  | Some (ChatSession.InvalidUrl s) => String.eqb s ""
  | None => true
  end.

(** utils.js [getSocketEndpoint]: the host and path of the [wss] URL, or
    [undefined] when the endpoint does not parse. *)
Definition getSocketEndpoint (c : option ChatSession.Credentials)
    : option (string * string) :=
  match c ≫= ChatSession.endpoint with
  | Some (ChatSession.ValidUrl h p) => Some (h, p +:+ "/wss")
  | _ => None
  end.

(** [new Promise(executor)]: an executor that throws rejects the promise. *)
Definition newPromiseWith (executor : addr → M ()) : M addr :=
  p ← newPromise;
  try_catch (executor p) (λ e, reject p e);;
  ret p.

(** Connect to socket. *)
Definition connectSocket (sessionId requestId : option string) : M addr :=
  newPromiseWith (λ p,
    s ← field socket;
    st ← gets (λ w, s ≫= readyStateOf w);
    if bool_decide (st = Some CONNECTING) || bool_decide (st = Some OPEN)
    then resolve p (VBool (bool_decide (st = Some OPEN)))
    else
      credentials ← Chat.getCredentials;
      if endpointMissing credentials
      then reject p (Err "SDK not initialized. Please initialize SDK first.")
      else
        match getSocketEndpoint credentials with
        | None =>
            reject p (Err ("Invalid endpoint while initializing SDK. "
                           +:+ "Please check the endpoint and try again."))
        | Some (h, path) =>
            externalId ← Chat.getExternalId;
            let url :=
              mkSocketUrl h path externalId
                (if truthy_str sessionId then sessionId else None)
                (if truthy_str requestId then requestId else None)
                (let t := credentials ≫= ChatSession.token in
                 if truthy_str t then t else None) in
            a ← newWebSocket url p;
            assign (set_socket (Some a));;
            connected ← field previouslyConnected;
            when (negb connected)
              (t ← setTimeout (SocketConnectionTimeout p) SOCKET_TIMEOUT;
               assign (set_socketConnectionTimeout (Some t)))
        end).

(** The callback of the connection timeout armed by [connectSocket]. *)
Definition connectionTimedOut (p : addr) : M () :=
  t ← now;
  Chat.addMessage (connectionError t);;
  reject p (Err "Socket connection timed out").

(** Disconnect socket. *)
Definition disconnect : M () :=
  s ← field socket;
  match s with
  | Some a => ws_close a 1000
  | None => ret ()
  end;;
  assign (set_previouslyConnected false);;
  clearAllTimeouts;;
  assign (set_socket None);;
  Chat.setTransport ChatSession.sse.

(** The callback of the timeout armed by each pong. *)
Definition pingTimedOut : M () := handleSocketDisconnected.

(** Handle socket event. *)
Definition handleSocketEvent (event : Frame) : M () :=
  if String.eqb (type event) "pong" then
    disconnected ← field socketDisconnected;
    when disconnected handleSocketConnected;;
    d ← field socketDisconnectedTimeout;
    when (is_some d) (clearTimer d);;
    t ← setTimeout SocketDisconnectedTimeout (PING_INTERVAL + 1000);
    assign (set_socketDisconnectedTimeout (Some t))
  else if String.eqb (type event) SocketEvents.TYPING then
    Chat.toggleTypingStatus true
  else if String.eqb (type event) SocketEvents.TYPING_STOP then
    Chat.toggleTypingStatus false
  else if String.eqb (type event) SocketEvents.MESSAGE then
    when (negb (truthy_str (eventId event)))
      (t ← now;
       Chat.addMessage
         (ChatSession.set_done (Some true)
            (ChatSession.set_timestamp (Some t)
               (default ChatSession.emptyMessage (data event)))))
  else if String.eqb (type event) SocketEvents.END then
    disconnect
  else ret ().

(** [socket.onopen] of the socket whose connect promise is [p]. *)
Definition onopen (p : addr) : M () :=
  assign (set_previouslyConnected true);;
  handleSocketConnected;;
  send ping;;
  c ← field socketConnectionTimeout;
  clearTimer c;;
  startPingInterval;;
  resolve p (VBool true).

(** [socket.onmessage] *)
Definition onmessage (frame : Frame) : M () := handleSocketEvent frame.

(** [socket.onerror] *)
Definition onerror (p : addr) (error : Error) : M () :=
  Chat.setTransport ChatSession.sse;;
  reject p error.

(** [socket.onclose] with the event's [target] and [code]. *)
Definition onclose (target : addr) (code : Z) : M () :=
  s ← field socket;
  when (bool_decide (s = Some target))
    (when (bool_decide (code = 1006))
       (connected ← field previouslyConnected;
        (if connected then handleSocketDisconnected
         else (t ← now; Chat.addMessage (connectionError t)));;
        c ← field socketConnectionTimeout;
        clearTimer c);;
     assign (set_socket None);;
     clearAllTimeouts).

(** Send data through socket and wait for acknowledgment. *)
Definition sendWithAck (frame : Frame) : M addr :=
  newPromiseWith (λ p,
    s ← field socket;
    match s with
    | None => reject p (Err "Socket instance not found or not connected")
    | Some a =>
        autoRejectTimeout ← setTimeout (AutoRejectTimeout p) 5000;
        eid ← (if truthy_str (eventId frame)
               then ret (default "" (eventId frame))
               else uuidv7);
        ws_addEventListener a (mkAckListener eid autoRejectTimeout p);;
        ws_send a (mkFrame (type frame) (Some eid) (data frame) (error frame))
    end).

(** The callback of [sendWithAck]'s timeout. *)
Definition autoReject (p : addr) : M () := reject p (Err "Timeout").

(** The ['message'] listener [sendWithAck] registered, run on a frame. *)
Definition onMessage (l : AckListener) (eventData : Frame) : M () :=
  when (bool_decide (eventId eventData = Some (ack_eventId l)))
    (clearTimer (Some (ack_timeout l));;
     s ← field socket;
     match s with
     | Some a => ws_removeEventListener a l
     | None => raise (BadRead "removeEventListener")
     end;;
     match data eventData with
     | Some d => resolve (ack_promise l) (VObject d)
     | None => reject (ack_promise l) (Err (default "Unknown error" (error eventData)))
     end).

(** Reconnect to socket. *)
Definition reconnect : M () :=
  s ← field socket;
  when (is_some s) (send ping).

(** Check if socket is connected. *)
Definition isConnected (w : World) : bool :=
  match socket (sock w) with
  | Some a => isOpen w a && negb (socketDisconnected (sock w))
  | None => false
  end.

(** Check if socket is disconnected. *)
Definition isDisconnected (w : World) : bool := socketDisconnected (sock w).

End Socket.

(** ** chat.js, second half: session lifecycle and the streaming exchange *)

Module ChatStream.

Import Runtime ChatSession.

(** The parsed [data] of a server-sent event; a member that is absent is
    [None], a member that is present has the type the protocol gives it. *)
Record Data := mkData {
  d_sessionId : option string;
  d_requestId : option string;
  d_message : option string;
  d_streamId : option string;
  d_done : option bool;
  d_sources : option (list string);
  d_error : option string;
  d_session_id : option string
}.

Definition noData : Data := mkData None None None None None None None None.

(** A message of the history endpoint. *)
Record HistoryMessage := mkHistoryMessage {
  h_id : option string;
  h_text : option string;
  h_role : option string;
  h_youtubeVideo : option string;
  h_timestamp : option Z;
  h_channel : option string
}.

(** What an awaited request of [startChat] comes back with. *)
Inductive Fetched (A : Type) :=
| Responded (a : A)
| Failed (e : Error).
Arguments Responded {A} a.
Arguments Failed {A} e.

(** Clean up the current session. *)
Definition cleanup : M () :=
  c ← gets (λ w, abortController (chat w));
  match c with
  | Some a => abort a
  | None => ret ()
  end;;
  Socket.disconnect;;
  modify (λ w,
    let callbacks := callbacks (chat w) in
    let credentials := credentials (chat w) in
    with_chat (set_credentials credentials (createSession callbacks)) w).

(** Disconnect from the current chat session. *)
Definition disconnect : M () := cleanup.

Definition fromHistory (msg : HistoryMessage) : Message :=
  {| id := h_id msg;
     text := h_text msg;
     role := if truthy_str (h_youtubeVideo msg)
             then Some MESSAGE_ROLES.BOT
             else h_role msg;
     timestamp := h_timestamp msg;
     video := h_youtubeVideo msg;
     channel := h_channel msg;
     done := Some true;
     html := None; loading := None; sources := None; errorText := None |}.

(** Initiate a new chat session or resume an existing one. The two
    requests it awaits come back with [auth] and [history]. *)
Definition startChat (payloadSessionId : option string)
    (auth : Fetched (option string))
    (history : Fetched (option (list HistoryMessage)))
    : M (option string * list Message * option string) :=
  try_catch
    (isAuthenticated ← gets (λ w, authenticated (chat w));
     configData ←
       (if negb isAuthenticated then
          creds ← Chat.getCredentials;
          match creds, auth with
          | None, _ => raise (BadRead "endpoint")
          | Some _, Failed e => throw e
          | Some _, Responded d =>
              Chat.assign (set_authenticated true);;
              Chat.assign (set_configData d);;
              ret d
          end
        else gets (λ w, configData (chat w)));
     msgs ←
       (if truthy_str payloadSessionId then
          creds ← Chat.getCredentials;
          if Socket.endpointMissing creds
          then throw (Err "Chat SDK not initialized")
          else
            match history with
            | Failed e => throw e
            | Responded h => ret (fromHistory <$> default [] h)
            end
        else ret []);
     externalId ← Chat.getExternalId;
     creds ← Chat.getCredentials;
     match creds with
     | None => raise (BadRead "endpoint")
     | Some c =>
         Chat.assign (set_sseUrl (Some (mkSseUrl (endpoint c) externalId)));;
         Chat.assign (set_sessionId payloadSessionId);;
         Chat.assign (set_messages msgs);;
         ret (payloadSessionId, msgs, configData)
     end)
    (λ error, cleanup;; throw error).

Definition userMessage (text : string) (html : option string) (t : Z) : Message :=
  set_role (Some MESSAGE_ROLES.USER)
    (set_text (Some text) (set_html html (set_timestamp (Some t) emptyMessage))).

Definition loadingMessage : Message :=
  set_role (Some MESSAGE_ROLES.BOT)
    (set_text (Some "") (set_loading (Some true) emptyMessage)).

Definition errorMessage : string := "Failed to connect to the system".

(** [currentSession.messages.map((msg, index) =>
      index === lastIndex ? updatedMsg : msg)] with
    [lastIndex = messages.length - 1]. *)
Definition replaceLast (updatedMsg : Message) (msgs : list Message) : list Message :=
  <[pred (length msgs) := updatedMsg]> msgs.

Definition lastIndexOf (msgs : list Message) : Z := Z.of_nat (length msgs) - 1.

(** The [catch] block of [sendMessage]; [p] is the promise whose [reject]
    the block calls. *)
Definition catchBlock (p : addr) (error : Error) : M () :=
  msgs ← gets (λ w, messages (chat w));
  match last msgs with
  | None => raise (BadRead "done")
  | Some lastMsg =>
      let updatedMsg :=
        set_loading (Some false)
          (set_errorText
             (if truthy_bool (done lastMsg) then None
              else Some (or_str (message error) errorMessage))
             (set_done (Some true) lastMsg)) in
      Chat.assign (set_messages (replaceLast updatedMsg msgs));;
      Chat.callback onMessageUpdate
        (λ f, MessageUpdate f (lastIndexOf msgs) updatedMsg);;
      reject p error
  end.

(** [onopen] of the streaming request. *)
Definition onopen (ok : bool) : M () :=
  if ok then ret () else throw (Err "Failed to send message").

(** [onerror] of the streaming request: rethrow to stop retries. *)
Definition onerror (error : Error) : M () := throw error.

(** [onmessage] of the streaming request of the call whose promise is [p],
    on the event named [event] with parsed data [data]. *)
Definition onmessage (p : addr) (event : string) (data : Data) : M () :=
  if String.eqb event "connected" then
    Chat.assign (set_sessionId (d_sessionId data));;
    Chat.assign (set_requestId (d_requestId data))
  else if String.eqb event "upgrade_to_websocket" then
    sid ← gets (λ w, sessionId (chat w));
    _ ← Socket.connectSocket sid (d_requestId data);
    ret ()
  else
    match d_message data with
    | Some fragment =>
        (* If streamId changes, start a new assistant message *)
        match d_streamId data with
        | Some streamId =>
            lastId ← gets (λ w, lastStreamId (chat w));
            match lastId with
            | None => Chat.assign (set_lastStreamId (Some streamId))
            | Some l =>
                when (negb (String.eqb streamId l))
                  (Chat.assign (set_lastStreamId (Some streamId));;
                   Chat.addMessage loadingMessage)
            end
        | None => ret ()
        end;;
        (* Update the last message with new content *)
        msgs ← gets (λ w, messages (chat w));
        match last msgs with
        | None => raise (BadRead "text")
        | Some lastMsg =>
            let updatedMsg :=
              set_loading (Some false)
                (set_text (Some (or_str (text lastMsg) "" +:+ fragment))
                   (set_sources (d_sources data)
                      (set_done (nullish (d_done data) (done lastMsg)) lastMsg))) in
            Chat.assign (set_messages (replaceLast updatedMsg msgs));;
            Chat.callback onMessageUpdate
              (λ f, MessageUpdate f (lastIndexOf msgs) updatedMsg);;
            when (truthy_bool (d_done data))
              (sid ← gets (λ w, sessionId (chat w));
               resolve p (of_opt_string sid));;
            (* Store session info for reuse *)
            Chat.assign (λ s, set_sessionId (nullish (d_session_id data) (sessionId s)) s);;
            Chat.assign (λ s, set_requestId (nullish (d_requestId data) (requestId s)) s)
        end
    | None =>
        when (truthy_str (d_error data))
          (msgs ← gets (λ w, messages (chat w));
           let lastMsg := default emptyMessage (last msgs) in
           let updatedMsg :=
             set_loading (Some false) (set_errorText (Some errorMessage) lastMsg) in
           Chat.assign (set_messages (replaceLast updatedMsg msgs));;
           Chat.callback onMessageUpdate
             (λ f, MessageUpdate f (lastIndexOf msgs) updatedMsg);;
           reject p (Err errorMessage))
    end.

(** [new URL(currentSession.sseUrl)] parses exactly when the endpoint the
    URL was built from does. *)
Definition parses (u : option SseUrl) : bool :=
  match u ≫= url_endpoint with
  | Some (ValidUrl _ _) => true
  | _ => false
  end.

(** The [try] block of [sendMessage] from the end of [sleep(200)] up to the
    call of [fetchEventSource], which registers the request and suspends. *)
Definition afterSleep (p : addr) (text : string) (html : option string) : M () :=
  tr ← Chat.getTransport;
  connected ← gets Socket.isConnected;
  (* If transport is socket and socket is connected, use socket *)
  if bool_decide (tr = socket) && connected then
    Socket.send (mkFrame "message" None
                   (Some (set_text (Some text) (set_html html emptyMessage))) None);;
    sid ← gets (λ w, sessionId (chat w));
    resolve p (of_opt_string sid)
  else
    Chat.addMessage loadingMessage;;
    url ← gets (λ w, sseUrl (chat w));
    match url with
    | Some u =>
        if parses url then
          sid ← gets (λ w, sessionId (chat w));
          rid ← gets (λ w, requestId (chat w));
          Chat.assign (set_lastStreamId None);;
          (* Create a new abort controller for this request *)
          c ← newAbortController;
          Chat.assign (set_abortController (Some c));;
          tok ← gets (λ w, credentials (chat w) ≫= token);
          modify (λ w,
            with_requests
              (requests w ++
                 [mkRequest u
                    (if truthy_str sid then sid else None)
                    (if truthy_str rid then rid else None)
                    (if truthy_str tok then tok else None)
                    text html c p Connecting]) w)
        else raise (BadUrl url)
    | None => raise (BadUrl url)
    end.

(** Send a message in the current chat session: the promise is created,
    the user message is added, and the rest waits for [sleep(200)]. *)
Definition sendMessage (text : string) (html : option string) : M addr :=
  p ← newPromise;
  try_catch
    (t ← now;
     Chat.addMessage (userMessage text html t);;
     _ ← setTimeout (SleepDone p text html) 200;
     ret ())
    (catchBlock p);;
  ret p.

(** [sendMessage] resumed when its sleep is over. *)
Definition resume (p : addr) (text : string) (html : option string) : M () :=
  try_catch (afterSleep p text html) (catchBlock p).

End ChatStream.

(** ** The event loop

    Everything the SDK does happens in a handler the browser runs to
    completion: an exported function the application calls, a timer that
    fires, an event of a streaming request or of a socket. An event is
    enabled or not in a world ([step] returns [None] when it is not); a run
    is a list of events. *)

Module EventLoop.

Import Runtime.

(** The SDK's exports, as the application calls them. *)
Inductive ApiCall :=
| Initialize (credentials : ChatSession.Credentials)
| SetCallbacks (callbacks : ChatSession.CallbacksArg)
| StartChat (sessionId : option string)
    (auth : ChatStream.Fetched (option string))
    (history : ChatStream.Fetched (option (list ChatStream.HistoryMessage)))
| SendMessage (text : string) (html : option string)
| Disconnect
| SendWithAck (frame : Frame)
| Reconnect.

Inductive Event :=
| Call (c : ApiCall)
| Elapse (ms : Z)
| Fire (t : addr)
| SseOpen (r : addr) (ok : bool)
| SseMessage (r : addr) (event : string) (data : ChatStream.Data)
| SseError (r : addr) (e : Error)
| SseClose (r : addr)
| WsOpen (s : addr)
| WsMessage (s : addr) (frame : Frame)
| WsError (s : addr) (e : Error)
| WsClose (s : addr) (code : Z).

(** A handler run to completion; what it throws is reported and dropped. *)
Definition handle {A} (m : M A) (w : World) : World :=
  match m w with
  | Return _ w' => w'
  | Throw e w' => with_log (log w' ++ [Uncaught e]) w'
  end.

Definition api (c : ApiCall) : World → World :=
  match c with
  | Initialize credentials => handle (Chat.initialize credentials)
  | SetCallbacks callbacks => handle (Chat.setCallbacks callbacks)
  | StartChat sid auth history => handle (ChatStream.startChat sid auth history)
  | SendMessage text html => handle (ChatStream.sendMessage text html)
  | Disconnect => handle ChatStream.disconnect
  | SendWithAck frame => handle (Socket.sendWithAck frame)
  | Reconnect => handle Socket.reconnect
  end.

(** *** Timers *)

(** No pending timer is due before [t]. *)
Definition noneDueBefore (t : Z) (w : World) : bool :=
  forallb (λ x, negb (active x) || bool_decide (t ≤ due x)%Z) (timers w).

Definition timerCallback (a : TimerAction) : M () :=
  match a with
  | SleepDone p text html => ChatStream.resume p text html
  | PingTick => Socket.pingTick
  | SocketDisconnectedTimeout => Socket.pingTimedOut
  | SocketConnectionTimeout p => Socket.connectionTimedOut p
  | AutoRejectTimeout p => Socket.autoReject p
  end.

(** A timeout is spent once it fires, an interval is due again one period
    later. *)
Definition rearm (x : Timer) : Timer :=
  match period x with
  | Some ms => mkTimer (due x + ms) (period x) (action x) true
  | None => mkTimer (due x) None (action x) false
  end.

Definition fire (t : addr) (w : World) : option World :=
  match timers w !! t with
  | Some x =>
      if active x && bool_decide (due x ≤ clock w)%Z
      then Some (handle (timerCallback (action x))
                   (with_timers (<[t := rearm x]> (timers w)) w))
      else None
  | None => None
  end.

(** *** Streaming requests (fetchEventSource) *)

Definition with_state (s : RequestState) (r : Request) : Request :=
  mkRequest (rq_url r) (rq_sessionId r) (rq_requestId r) (rq_authorization r)
    (rq_message r) (rq_html r) (rq_signal r) (rq_promise r) s.

Definition setRequestState (r : addr) (s : RequestState) : M () :=
  modify (λ w,
    match requests w !! r with
    | Some x => with_requests (<[r := with_state s x]> (requests w)) w
    | None => w
    end).

(** A request the transport still serves: not finished, not aborted. *)
Definition outstanding (w : World) (x : Request) : bool :=
  negb (bool_decide (rq_state x = Finished)) && negb (aborted w (rq_signal x)).

(** fetchEventSource runs a callback of request [r]; what the callback
    throws goes to [onerror], and what [onerror] throws ends the request
    and rejects the awaited call, which enters the [catch] block of the
    [sendMessage] that issued it. *)
Definition deliver (r : addr) (x : Request) (cb : M ()) : M () :=
  try_catch cb (λ e,
    try_catch (ChatStream.onerror e) (λ e',
      setRequestState r Finished;;
      ChatStream.catchBlock (rq_promise x) e')).

Definition sse (r : addr) (states : list RequestState)
    (k : Request → M ()) (w : World) : option World :=
  match requests w !! r with
  | Some x =>
      if outstanding w x && bool_decide (rq_state x ∈ states)
      then Some (handle (k x) w)
      else None
  | None => None
  end.

(** *** Sockets *)

Definition ws (s : addr) (enabled : ReadyState → bool)
    (k : WebSocket → World → World) (w : World) : option World :=
  match sockets w !! s with
  | Some x => if enabled (readyState x) then Some (k x w) else None
  | None => None
  end.

(** The ['message'] event of socket [s]: the [onmessage] handler, then the
    listeners registered at that moment, each unless removed meanwhile. *)
Definition dispatchMessage (s : addr) (frame : Frame) (x : WebSocket)
    (w : World) : World :=
  foldl
    (λ w' l,
       if bool_decide (l ∈ default [] (listeners <$> sockets w' !! s))
       then handle (Socket.onMessage l frame) w'
       else w')
    (handle (Socket.onmessage frame) w)
    (listeners x).

Definition step (e : Event) (w : World) : option World :=
  match e with
  | Call c => Some (api c w)
  | Elapse ms =>
      if bool_decide (0 ≤ ms)%Z && noneDueBefore (clock w + ms) w
      then Some (with_clock (clock w + ms) w)
      else None
  | Fire t => fire t w
  | SseOpen r ok =>
      sse r [Connecting]
        (λ x, deliver r x (ChatStream.onopen ok);;
              when ok (setRequestState r Streaming)) w
  | SseMessage r event data =>
      sse r [Streaming]
        (λ x, deliver r x (ChatStream.onmessage (rq_promise x) event data)) w
  | SseError r e =>
      sse r [Connecting; Streaming] (λ x, deliver r x (throw e)) w
  | SseClose r =>
      sse r [Streaming] (λ _, setRequestState r Finished) w
  | WsOpen s =>
      ws s (λ st, bool_decide (st = CONNECTING))
        (λ x, handle (updSocket s (with_readyState OPEN);;
                      Socket.onopen (ws_connect x))) w
  | WsMessage s frame =>
      ws s (λ st, bool_decide (st = OPEN)) (dispatchMessage s frame) w
  | WsError s e =>
      ws s (λ st, negb (bool_decide (st = CLOSED)))
        (λ x, handle (Socket.onerror (ws_connect x) e)) w
  | WsClose s code =>
      ws s (λ st, negb (bool_decide (st = CLOSED)))
        (λ _, handle (updSocket s (with_readyState CLOSED);;
                      Socket.onclose s code)) w
  end.

Fixpoint run (es : list Event) (w : World) : option World :=
  match es with
  | [] => Some w
  | e :: es' =>
      match step e w with
      | Some w' => run es' w'
      | None => None
      end
  end.

End EventLoop.

(** ** call.js: the session object *)

Module CallSession.

Record CallCallbacks := mkCallbacks {
  onCallStatus : option string;
  onCallError : option string
}.

Definition noCallbacks : CallCallbacks := mkCallbacks None None.

(** The object [setCallCallbacks] is called with: each key is absent
    ([None]), or present with a function or with [undefined]. *)
Record CallbacksArg := mkCallbacksArg {
  arg_onCallStatus : option (option string);
  arg_onCallError : option (option string)
}.

Record CallSession := mkSession {
  sessionId : option string;
  socket : option addr;
  peerConnection : option addr;
  localStream : option addr;
  remoteStream : option addr;
  remoteAudio : option addr;
  isMuted : bool;
  callStatus : string;
  pingInterval : option addr;
  pingCount : Z;
  lastPongTime : option Z;
  callbacks : CallCallbacks
}.

Definition createSession (callbacks : CallCallbacks) : CallSession :=
  {| sessionId := None;
     socket := None;
     peerConnection := None;
     localStream := None;
     remoteStream := None;
     remoteAudio := None;
     isMuted := false;
     callStatus := "disconnected";
     pingInterval := None;
     pingCount := 0;
     lastPongTime := None;
     callbacks := callbacks |}.

(** Assignments to one property of the session. *)
Definition set_sessionId (x : option string) (s : CallSession) : CallSession :=
  mkSession x (socket s) (peerConnection s) (localStream s) (remoteStream s)
    (remoteAudio s) (isMuted s) (callStatus s) (pingInterval s) (pingCount
    s) (lastPongTime s) (callbacks s).
Definition set_socket (x : option addr) (s : CallSession) : CallSession :=
  mkSession (sessionId s) x (peerConnection s) (localStream s) (remoteStream
    s) (remoteAudio s) (isMuted s) (callStatus s) (pingInterval s)
    (pingCount s) (lastPongTime s) (callbacks s).
Definition set_peerConnection (x : option addr) (s : CallSession) : CallSession :=
  mkSession (sessionId s) (socket s) x (localStream s) (remoteStream s)
    (remoteAudio s) (isMuted s) (callStatus s) (pingInterval s) (pingCount
    s) (lastPongTime s) (callbacks s).
Definition set_localStream (x : option addr) (s : CallSession) : CallSession :=
  mkSession (sessionId s) (socket s) (peerConnection s) x (remoteStream s)
    (remoteAudio s) (isMuted s) (callStatus s) (pingInterval s) (pingCount
    s) (lastPongTime s) (callbacks s).
Definition set_remoteStream (x : option addr) (s : CallSession) : CallSession :=
  mkSession (sessionId s) (socket s) (peerConnection s) (localStream s) x
    (remoteAudio s) (isMuted s) (callStatus s) (pingInterval s) (pingCount
    s) (lastPongTime s) (callbacks s).
Definition set_remoteAudio (x : option addr) (s : CallSession) : CallSession :=
  mkSession (sessionId s) (socket s) (peerConnection s) (localStream s)
    (remoteStream s) x (isMuted s) (callStatus s) (pingInterval s)
    (pingCount s) (lastPongTime s) (callbacks s).
Definition set_isMuted (x : bool) (s : CallSession) : CallSession :=
  mkSession (sessionId s) (socket s) (peerConnection s) (localStream s)
    (remoteStream s) (remoteAudio s) x (callStatus s) (pingInterval s)
    (pingCount s) (lastPongTime s) (callbacks s).
Definition set_callStatus (x : string) (s : CallSession) : CallSession :=
  mkSession (sessionId s) (socket s) (peerConnection s) (localStream s)
    (remoteStream s) (remoteAudio s) (isMuted s) x (pingInterval s)
    (pingCount s) (lastPongTime s) (callbacks s).
Definition set_pingInterval (x : option addr) (s : CallSession) : CallSession :=
  mkSession (sessionId s) (socket s) (peerConnection s) (localStream s)
    (remoteStream s) (remoteAudio s) (isMuted s) (callStatus s) x (pingCount
    s) (lastPongTime s) (callbacks s).
Definition set_pingCount (x : Z) (s : CallSession) : CallSession :=
  mkSession (sessionId s) (socket s) (peerConnection s) (localStream s)
    (remoteStream s) (remoteAudio s) (isMuted s) (callStatus s)
    (pingInterval s) x (lastPongTime s) (callbacks s).
Definition set_lastPongTime (x : option Z) (s : CallSession) : CallSession :=
  mkSession (sessionId s) (socket s) (peerConnection s) (localStream s)
    (remoteStream s) (remoteAudio s) (isMuted s) (callStatus s)
    (pingInterval s) (pingCount s) x (callbacks s).
Definition set_callbacks (x : CallCallbacks) (s : CallSession) : CallSession :=
  mkSession (sessionId s) (socket s) (peerConnection s) (localStream s)
    (remoteStream s) (remoteAudio s) (isMuted s) (callStatus s)
    (pingInterval s) (pingCount s) (lastPongTime s) x.

End CallSession.

(** ** call.js *)

Module Call.

Import Js CallSession.

(** *** The browser objects a call holds *)

(** A media track: [stopped] once [track.stop()] ran. *)
Record Track := mkTrack {
  kind : string;
  enabled : bool;
  stopped : bool
}.

Record PeerConnection := mkPeer {
  closed : bool;
  connectionState : string;
  senders : list (addr * nat);
  localDescription : option (string * string);
  remoteDescription : option (string * string);
  candidates : list string
}.

Record AudioElement := mkAudio {
  srcObject : option addr;
  attached : bool
}.

(** The frames call.js sends. *)
Inductive Sent :=
| PingFrame (timestamp count : Z)
| OfferFrame (sdp : string)
| IceFrame (candidate : string)
| RenegotiationAnswerFrame (sdp : string)
| EndFrame.

(** The [data] member of a frame of the signalling protocol. *)
Record ActionData := mkActionData {
  ad_sdp : option string;
  ad_sessionId : option string;
  ad_candidate : option string
}.

(** A parsed frame of the signalling protocol; a frame may come without
    [data]. *)
Record Action := mkAction {
  a_type : string;
  a_data : option ActionData;
  a_error : option string
}.

(** The signalling socket: [connect] is the promise whose [fulfill] and
    [reject] its handlers captured. *)
Record Socket := mkSocket {
  url : Runtime.SocketUrl;
  connect : addr;
  readyState : Runtime.ReadyState;
  sent : list Sent;
  closeCalls : nat
}.

(** The keep-alive interval. *)
Record Interval := mkInterval { active : bool }.

(** Where a [startCall] in progress is suspended. *)
Inductive Await :=
| AwaitMedia (epoch : nat) (sessionId : option string)
| AwaitSocket (p : addr)
| AwaitOffer
| AwaitLocalDescription (pc : addr) (sdp : string)
| Completed.

(** What the application and the browser observe, in order. *)
Inductive Effect :=
| CallStatus (f : string) (status : string)
| CallError (f : string) (error : option string)
| TrackStopped (stream : addr) (index : nat)
| PeerConnectionClosed (pc : addr)
| SocketCloseCalled (s : addr)
| Uncaught (e : Error).

(** How the browser answers the WebRTC requests a signalling frame
    triggers. *)
Record Rtc := mkRtc {
  remoteOk : bool;
  answer : option string;
  localOk : bool;
  candidateOk : bool
}.

(** The store of call.js on top of the chat modules' world; [epoch] counts
    the session objects [createSession] has made, so that a reference to
    the session taken before an [await] can be told from the current
    one. *)
Record World := mkWorld {
  base : Runtime.World;
  call : CallSession;
  epoch : nat;
  sockets : list Socket;
  peers : list PeerConnection;
  streams : list (list Track);
  audios : list AudioElement;
  intervals : list Interval;
  pending : list Await;
  trace : list Effect
}.

Definition with_base (x : Runtime.World) (w : World) : World :=
  mkWorld x (call w) (epoch w) (sockets w) (peers w) (streams w) (audios w)
    (intervals w) (pending w) (trace w).
Definition with_call (x : CallSession) (w : World) : World :=
  mkWorld (base w) x (epoch w) (sockets w) (peers w) (streams w) (audios w)
    (intervals w) (pending w) (trace w).
Definition with_epoch (x : nat) (w : World) : World :=
  mkWorld (base w) (call w) x (sockets w) (peers w) (streams w) (audios w)
    (intervals w) (pending w) (trace w).
Definition with_sockets (x : list Socket) (w : World) : World :=
  mkWorld (base w) (call w) (epoch w) x (peers w) (streams w) (audios w)
    (intervals w) (pending w) (trace w).
Definition with_peers (x : list PeerConnection) (w : World) : World :=
  mkWorld (base w) (call w) (epoch w) (sockets w) x (streams w) (audios w)
    (intervals w) (pending w) (trace w).
Definition with_streams (x : list (list Track)) (w : World) : World :=
  mkWorld (base w) (call w) (epoch w) (sockets w) (peers w) x (audios w)
    (intervals w) (pending w) (trace w).
Definition with_audios (x : list AudioElement) (w : World) : World :=
  mkWorld (base w) (call w) (epoch w) (sockets w) (peers w) (streams w) x
    (intervals w) (pending w) (trace w).
Definition with_intervals (x : list Interval) (w : World) : World :=
  mkWorld (base w) (call w) (epoch w) (sockets w) (peers w) (streams w) (audios w)
    x (pending w) (trace w).
Definition with_pending (x : list Await) (w : World) : World :=
  mkWorld (base w) (call w) (epoch w) (sockets w) (peers w) (streams w) (audios w)
    (intervals w) x (trace w).
Definition with_trace (x : list Effect) (w : World) : World :=
  mkWorld (base w) (call w) (epoch w) (sockets w) (peers w) (streams w) (audios w)
    (intervals w) (pending w) x.

(** The module as it loads, over a world of the chat modules. *)
Definition boot (b : Runtime.World) : World :=
  {| base := b;
     call := createSession noCallbacks;
     epoch := 0;
     sockets := [];
     peers := [];
     streams := [];
     audios := [];
     intervals := [];
     pending := [];
     trace := [] |}.

Abbreviation M := (JS World).

(** A function of chat.js run from call.js. *)
Definition chatjs {A} (m : Runtime.M A) : M A :=
  λ w, match m (base w) with
       | Return a b => Return a (with_base b w)
       | Throw e b => Throw e (with_base b w)
       end.

Definition assign (f : CallSession → CallSession) : M () :=
  modify (λ w, with_call (f (call w)) w).

Definition field {A} (f : CallSession → A) : M A :=
  gets (λ w, f (call w)).

Definition effect (e : Effect) : M () :=
  modify (λ w, with_trace (trace w ++ [e]) w).

(** The engine raises [f]: an error whose message is in its wording. *)
Definition raise {A} (f : Runtime.Fault) : M A :=
  text ← gets (λ w, Runtime.engine (base w) f);
  throw (Err text).

(** *** Operations of the browser objects *)

Definition stopTrack (t : Track) : Track := mkTrack (kind t) (enabled t) true.

(** [stream.getTracks().forEach((track) => track.stop())] *)
Definition stopTracks (s : addr) : M () :=
  modify (λ w,
    match streams w !! s with
    | Some ts =>
        with_trace (trace w ++ imap (λ i _, TrackStopped s i) ts)
          (with_streams (<[s := stopTrack <$> ts]> (streams w)) w)
    | None => w
    end).

(** [peerConnection.close()] *)
Definition closePeer (a : addr) : M () :=
  modify (λ w,
    match peers w !! a with
    | Some x =>
        with_peers
          (<[a := mkPeer true "closed" (senders x) (localDescription x)
                    (remoteDescription x) (candidates x)]> (peers w)) w
    | None => w
    end);;
  effect (PeerConnectionClosed a).

Definition updSocket (s : addr) (f : Socket → Socket) : M () :=
  modify (λ w,
    match sockets w !! s with
    | Some x => with_sockets (<[s := f x]> (sockets w)) w
    | None => w
    end).

Definition with_readyState (r : Runtime.ReadyState) (x : Socket) : Socket :=
  mkSocket (url x) (connect x) r (sent x) (closeCalls x).

(** [socket.close()] *)
Definition closeSocket (s : addr) : M () :=
  updSocket s (λ x,
    mkSocket (url x) (connect x)
      (match readyState x with
       | Runtime.CLOSED => Runtime.CLOSED
       | _ => Runtime.CLOSING
       end)
      (sent x) (S (closeCalls x)));;
  effect (SocketCloseCalled s).

Definition readyStateOf (w : World) (s : addr) : option Runtime.ReadyState :=
  readyState <$> sockets w !! s.

Definition isOpen (w : World) (s : option addr) : bool :=
  bool_decide (s ≫= readyStateOf w = Some Runtime.OPEN).

(** *** call.js *)

(** [{ ...old, ...new }] on callback objects: a key of [new] wins
    whatever its value, also when that is [undefined]. *)
Definition mergeCallbacks (old : CallCallbacks) (new : CallbacksArg)
    : CallCallbacks :=
  {| onCallStatus := default (onCallStatus old) (arg_onCallStatus new);
     onCallError := default (onCallError old) (arg_onCallError new) |}.

Definition setCallCallbacks (cbs : CallbacksArg) : M () :=
  assign (λ s, set_callbacks (mergeCallbacks (callbacks s) cbs) s).

(** Stop ping interval. *)
Definition stopPingInterval : M () :=
  i ← field pingInterval;
  match i with
  | Some t =>
      modify (λ w, with_intervals (<[t := mkInterval false]> (intervals w)) w);;
      assign (set_pingInterval None)
  | None => ret ()
  end.

(** Clean up the current session. *)
Definition cleanup : M () :=
  pc ← field peerConnection;
  match pc with
  | Some a => closePeer a;; assign (set_peerConnection None)
  | None => ret ()
  end;;
  ls ← field localStream;
  match ls with
  | Some s => stopTracks s;; assign (set_localStream None)
  | None => ret ()
  end;;
  rs ← field remoteStream;
  when (is_some rs) (assign (set_remoteStream None));;
  ra ← field remoteAudio;
  match ra with
  | Some a =>
      modify (λ w, with_audios (<[a := mkAudio None false]> (audios w)) w);;
      assign (set_remoteAudio None)
  | None => ret ()
  end;;
  s ← field socket;
  match s with
  | Some a => closeSocket a;; assign (set_socket None)
  | None => ret ()
  end;;
  stopPingInterval;;
  modify (λ w,
    let callbacks := callbacks (call w) in
    with_epoch (S (epoch w)) (with_call (createSession callbacks) w)).

(** Update call status and notify callback. *)
Definition setCallStatus (status : string) : M () :=
  assign (set_callStatus status);;
  cb ← field (λ s, onCallStatus (callbacks s));
  match cb with
  | Some f => effect (CallStatus f status)
  | None => ret ()
  end.

(** Update call error and notify callback. *)
Definition setCallError (error : option string) : M () :=
  cb ← field (λ s, onCallError (callbacks s));
  match cb with
  | Some f => effect (CallError f error)
  | None => ret ()
  end.

(** Send event through socket. *)
Definition sendEvent (payload : Sent) : M () :=
  s ← field socket;
  match s with
  | None => ret ()
  | Some a =>
      opened ← gets (λ w, isOpen w s);
      if opened
      then updSocket a (λ x, mkSocket (url x) (connect x) (readyState x)
                               (sent x ++ [payload]) (closeCalls x))
      else ret ()
  end.

(** The callback [startPingInterval] hands to [setInterval]. *)
Definition pingTick : M () :=
  s ← field socket;
  opened ← gets (λ w, isOpen w s);
  if opened then
    assign (λ c, set_pingCount (pingCount c + 1)%Z c);;
    t ← gets (λ w, Runtime.clock (base w));
    n ← field pingCount;
    sendEvent (PingFrame t n)
  else stopPingInterval.

(** Start ping interval. *)
Definition startPingInterval : M () :=
  stopPingInterval;;
  i ← gets (λ w, length (intervals w));
  modify (λ w, with_intervals (intervals w ++ [mkInterval true]) w);;
  assign (set_pingInterval (Some i)).

(** Handle pong response. *)
Definition handlePong : M () :=
  t ← gets (λ w, Runtime.clock (base w));
  assign (set_lastPongTime (Some t)).

(** Create peer connection. *)
Definition createPeerConnection : M () :=
  a ← gets (λ w, length (peers w));
  modify (λ w, with_peers (peers w ++ [mkPeer false "new" [] None None []]) w);;
  assign (set_peerConnection (Some a)).

(** utils.js [getCallServerEndpoint]. *)
Definition getCallServerEndpoint (c : option ChatSession.Credentials)
    : option (string * string) :=
  match c ≫= ChatSession.endpoint with
  | Some (ChatSession.ValidUrl h p) => Some (h, p +:+ "/audio")
  | _ => None
  end.

(** Connect socket. *)
Definition connectSocket (sid : option string) : M addr :=
  p ← chatjs Runtime.newPromise;
  try_catch
    (s ← field socket;
     st ← gets (λ w, s ≫= readyStateOf w);
     if bool_decide (st = Some Runtime.CONNECTING) || bool_decide (st = Some Runtime.OPEN)
     then chatjs (Runtime.resolve p
                    (Runtime.VBool (bool_decide (st = Some Runtime.OPEN))))
     else
       credentials ← chatjs Chat.getCredentials;
       if Socket.endpointMissing credentials
       then chatjs (Runtime.reject p
                      (Err "SDK not initialized. Please initialize SDK first."))
       else
         match getCallServerEndpoint credentials with
         | None =>
             chatjs (Runtime.reject p
                       (Err ("Invalid endpoint while initializing SDK. "
                             +:+ "Please check the endpoint and try again.")))
         | Some (h, path) =>
             externalId ← chatjs Chat.getExternalId;
             let u :=
               Runtime.mkSocketUrl h path externalId
                 (if truthy_str sid then sid else None)
                 None
                 (let t := credentials ≫= ChatSession.token in
                  if truthy_str t then t else None) in
             a ← gets (λ w, length (sockets w));
             modify (λ w,
               with_sockets
                 (sockets w ++ [mkSocket u p Runtime.CONNECTING [] 0]) w);;
             assign (set_socket (Some a))
         end)
    (λ e, chatjs (Runtime.reject p e));;
  ret p.

(** [socket.onopen] of the socket whose connect promise is [p]. *)
Definition onopen (p : addr) : M () :=
  startPingInterval;;
  chatjs (Runtime.resolve p (Runtime.VBool true)).

(** [socket.onerror] *)
Definition onerror (p : addr) (error : Error) : M () :=
  setCallStatus "error";;
  setCallError (Some (or_str (message error) "Unable to connect voice"));;
  chatjs (Runtime.reject p error).

(** [socket.onclose] *)
Definition onclose : M () := stopPingInterval.

Definition updPeer (a : addr) (f : PeerConnection → PeerConnection) : M () :=
  modify (λ w,
    match peers w !! a with
    | Some x => with_peers (<[a := f x]> (peers w)) w
    | None => w
    end).

(** Handle answer. *)
Definition handleAnswer (data : option ActionData) (rtc : Rtc) : M () :=
  try_catch
    (match data with
     | None => raise (Runtime.BadRead "sessionId")
     | Some d =>
         assign (set_sessionId (ad_sessionId d));;
         chatjs (Chat.updateSessionId (ad_sessionId d));;
         pc ← field peerConnection;
         match pc with
         | Some a =>
             if remoteOk rtc then
               updPeer a (λ x,
                 mkPeer (closed x) (connectionState x) (senders x)
                   (localDescription x)
                   (Some ("answer", default "" (ad_sdp d))) (candidates x))
             else raise (Runtime.BadRtc "setRemoteDescription")
         | None => ret ()
         end
     end)
    (λ _, ret ()).

(** Handle ICE candidate. *)
Definition handleIceCandidate (data : option ActionData) (rtc : Rtc) : M () :=
  try_catch
    (pc ← field peerConnection;
     match pc with
     | Some a =>
         match data with
         | None => raise (Runtime.BadRead "candidate")
         | Some d =>
             match ad_candidate d with
             | Some c =>
                 if candidateOk rtc then
                   updPeer a (λ x,
                     mkPeer (closed x) (connectionState x) (senders x)
                       (localDescription x) (remoteDescription x)
                       (candidates x ++ [c]))
                 else raise (Runtime.BadRtc "addIceCandidate")
             | None => raise Runtime.BadJson
             end
         end
     | None => ret ()
     end)
    (λ _, ret ()).

(** Handle renegotiation offer. *)
Definition handleRenegotiationOffer (data : option ActionData) (rtc : Rtc)
    : M () :=
  try_catch
    (pc ← field peerConnection;
     match pc with
     | Some a =>
         match data with
         | None => raise (Runtime.BadRead "sdp")
         | Some d =>
             (if remoteOk rtc then
                updPeer a (λ x,
                  mkPeer (closed x) (connectionState x) (senders x)
                    (localDescription x)
                    (Some ("offer", default "" (ad_sdp d))) (candidates x))
              else raise (Runtime.BadRtc "setRemoteDescription"));;
             match answer rtc with
             | Some sdp =>
                 (if localOk rtc then
                    updPeer a (λ x,
                      mkPeer (closed x) (connectionState x) (senders x)
                        (Some ("answer", sdp)) (remoteDescription x)
                        (candidates x))
                  else raise (Runtime.BadRtc "setLocalDescription"));;
                 sendEvent (RenegotiationAnswerFrame sdp)
             | None => raise (Runtime.BadRtc "createAnswer")
             end
         end
     | None => ret ()
     end)
    (λ _, ret ()).

(** Disconnect call. *)
Definition disconnectCall : M () :=
  sendEvent EndFrame;;
  s ← field socket;
  match s with
  | Some a => closeSocket a;; assign (set_socket None)
  | None => ret ()
  end;;
  setCallStatus "disconnected";;
  pc ← field peerConnection;
  match pc with
  | Some a => closePeer a;; assign (set_peerConnection None)
  | None => ret ()
  end;;
  ls ← field localStream;
  match ls with
  | Some s => stopTracks s;; assign (set_localStream None)
  | None => ret ()
  end;;
  cleanup.

(** Handle call server event. *)
Definition handleCallServerEvent (action : Action) (rtc : Rtc) : M () :=
  if String.eqb (a_type action) "pong" then handlePong
  else if String.eqb (a_type action) "answer"
  then handleAnswer (a_data action) rtc
  else if String.eqb (a_type action) "ice"
  then handleIceCandidate (a_data action) rtc
  else if String.eqb (a_type action) "renegotiationOffer"
  then handleRenegotiationOffer (a_data action) rtc
  else if String.eqb (a_type action) "end" then disconnectCall
  else if String.eqb (a_type action) "error" then
    setCallStatus "error";;
    setCallError (Some (or_str (a_error action) "Unable to connect voice"))
  else ret ().

(** [peerConnection.onicecandidate] *)
Definition onicecandidate (candidate : option string) : M () :=
  match candidate with
  | Some c => sendEvent (IceFrame c)
  | None => ret ()
  end.

(** [peerConnection.ontrack] with the event's first stream. *)
Definition ontrack (stream : addr) : M () :=
  assign (set_remoteStream (Some stream));;
  ra ← field remoteAudio;
  a ← match ra with
      | Some a => ret a
      | None =>
          a ← gets (λ w, length (audios w));
          modify (λ w, with_audios (audios w ++ [mkAudio None true]) w);;
          assign (set_remoteAudio (Some a));;
          ret a
      end;
  modify (λ w, with_audios (<[a := mkAudio (Some stream) true]> (audios w)) w).

(** [peerConnection.onconnectionstatechange] *)
Definition onconnectionstatechange : M () :=
  pc ← field peerConnection;
  st ← gets (λ w, pc ≫= (λ a, connectionState <$> peers w !! a));
  match st with
  | None => raise (Runtime.BadRead "connectionState")
  | Some newState =>
      if String.eqb newState "connected" then setCallStatus "connected"
      else if String.eqb newState "disconnected" || String.eqb newState "closed"
      then setCallStatus "disconnected";; disconnectCall
      else ret ()
  end.

(** The [catch] block of [startCall]. *)
Definition catchBlock (error : Error) : M () :=
  setCallStatus "error";;
  setCallError (Some (or_str (message error) "Unable to connect voice"));;
  cleanup.

Definition suspend (k : addr) (a : Await) : M () :=
  modify (λ w, with_pending (<[k := a]> (pending w)) w).

(** Start a call: up to the first [await], of [getUserMedia]. *)
Definition startCall (sid : option string) : M () :=
  try_catch
    (status ← field callStatus;
     if String.eqb status "connecting" || String.eqb status "connected"
     then ret ()
     else
       setCallStatus "connecting";;
       setCallError None;;
       assign (set_sessionId sid);;
       e ← gets epoch;
       modify (λ w, with_pending (pending w ++ [AwaitMedia e sid]) w))
    catchBlock.

(** [startCall] resumed with what [getUserMedia] came back with, up to
    [await connectSocket(payload)]. The stream goes to the session object
    that was current when the request was made. *)
Definition afterMedia (k : addr) (e : nat) (sid : option string)
    (r : ChatStream.Fetched (list Track)) : M () :=
  suspend k Completed;;
  try_catch
    (match r with
     | ChatStream.Failed err => throw err
     | ChatStream.Responded tracks =>
         s ← gets (λ w, length (streams w));
         modify (λ w, with_streams (streams w ++ [tracks]) w);;
         cur ← gets epoch;
         when (bool_decide (cur = e)) (assign (set_localStream (Some s)))
     end;;
     createPeerConnection;;
     ls ← field localStream;
     pc ← field peerConnection;
     match ls, pc with
     | Some s, Some a =>
         ts ← gets (λ w, default [] (streams w !! s));
         updPeer a (λ x,
           mkPeer (closed x) (connectionState x)
             (senders x ++ imap (λ i _, (s, i)) ts)
             (localDescription x) (remoteDescription x) (candidates x))
     | _, _ => raise (Runtime.BadRead "getTracks")
     end;;
     p ← connectSocket sid;
     suspend k (AwaitSocket p))
    catchBlock.

(** [startCall] resumed when the promise of [connectSocket] is settled, up
    to [await createOffer()]. *)
Definition afterConnect (k : addr) (r : Runtime.Promise) : M () :=
  suspend k Completed;;
  try_catch
    (match r with
     | Runtime.Rejected err => throw err
     | _ =>
         pc ← field peerConnection;
         match pc with
         | Some _ => suspend k AwaitOffer
         | None => raise (Runtime.BadRead "createOffer")
         end
     end)
    catchBlock.

(** [startCall] resumed with the offer, up to
    [await setLocalDescription(offer)]. *)
Definition afterOffer (k : addr) (r : ChatStream.Fetched string) : M () :=
  suspend k Completed;;
  try_catch
    (match r with
     | ChatStream.Failed err => throw err
     | ChatStream.Responded sdp =>
         pc ← field peerConnection;
         match pc with
         | Some a => suspend k (AwaitLocalDescription a sdp)
         | None =>
             raise (Runtime.BadRead "setLocalDescription")
         end
     end)
    catchBlock.

(** [startCall] resumed when the local description is set: the offer is
    sent. *)
Definition afterLocalDescription (k : addr) (pc : addr) (sdp : string)
    (r : ChatStream.Fetched ()) : M () :=
  suspend k Completed;;
  try_catch
    (match r with
     | ChatStream.Failed err => throw err
     | ChatStream.Responded _ =>
         updPeer pc (λ x,
           mkPeer (closed x) (connectionState x) (senders x)
             (Some ("offer", sdp)) (remoteDescription x) (candidates x));;
         sendEvent (OfferFrame sdp)
     end)
    catchBlock.

(** Toggle mute. *)
Definition toggleMute : M bool :=
  ls ← field localStream;
  ts ← gets (λ w, ls ≫= (λ s, streams w !! s));
  match ls, ts ≫= list_find (λ t, kind t = "audio") with
  | Some s, Some (i, audioTrack) =>
      modify (λ w,
        with_streams
          (<[s := <[i := mkTrack (kind audioTrack) (negb (enabled audioTrack))
                           (stopped audioTrack)]> (default [] ts)]> (streams w)) w);;
      assign (set_isMuted (negb (negb (enabled audioTrack))));;
      field isMuted
  | _, _ => ret false
  end.

End Call.

(** ** The event loop of a call *)

Module CallLoop.

Import Js Call.

Inductive Event :=
| StartCall (sessionId : option string)
| DisconnectCall
| ToggleMute
| SetCallCallbacks (callbacks : CallSession.CallbacksArg)
| ChatEvent (e : EventLoop.Event)
| MediaResult (k : addr) (r : ChatStream.Fetched (list Track))
| OfferResult (k : addr) (r : ChatStream.Fetched string)
| LocalDescriptionResult (k : addr) (r : ChatStream.Fetched ())
| WsOpen (s : addr)
| WsMessage (s : addr) (action : Action) (rtc : Rtc)
| WsError (s : addr) (e : Error)
| WsClose (s : addr)
| IceCandidate (pc : addr) (candidate : option string)
| TrackEvent (pc : addr) (stream : addr)
| ConnectionStateChange (pc : addr) (state : string)
| Tick (t : addr).

(** A handler run to completion; what it throws is reported and dropped. *)
Definition handle {A} (m : M A) (w : World) : World :=
  match m w with
  | Return _ w' => w'
  | Throw e w' => with_trace (trace w' ++ [Uncaught e]) w'
  end.

(** Once a handler is over, each [startCall] that awaits a connect promise
    that is settled by now goes on. *)
Definition resumeSettled (w : World) : World :=
  foldl
    (λ w' k,
       match pending w' !! k with
       | Some (AwaitSocket p) =>
           match Runtime.promises (base w') !! p with
           | Some Runtime.Pending | None => w'
           | Some r => handle (afterConnect k r) w'
           end
       | _ => w'
       end)
    w (seq 0 (length (pending w))).

Definition task {A} (m : M A) (w : World) : option World :=
  Some (resumeSettled (handle m w)).

Definition onSocket (s : addr) (enabled : Runtime.ReadyState → bool)
    (k : Socket → M ()) (w : World) : option World :=
  match sockets w !! s with
  | Some x => if enabled (readyState x) then task (k x) w else None
  | None => None
  end.

Definition onPeer (pc : addr) (k : M ()) (w : World) : option World :=
  match peers w !! pc with
  | Some x => if closed x then None else task k w
  | None => None
  end.

Definition step (e : Event) (w : World) : option World :=
  match e with
  | StartCall sid => task (startCall sid) w
  | DisconnectCall => task disconnectCall w
  | ToggleMute => task toggleMute w
  | SetCallCallbacks cbs => task (setCallCallbacks cbs) w
  | ChatEvent e =>
      match EventLoop.step e (base w) with
      | Some b => Some (resumeSettled (with_base b w))
      | None => None
      end
  | MediaResult k r =>
      match pending w !! k with
      | Some (AwaitMedia e sid) => task (afterMedia k e sid r) w
      | _ => None
      end
  | OfferResult k r =>
      match pending w !! k with
      | Some AwaitOffer => task (afterOffer k r) w
      | _ => None
      end
  | LocalDescriptionResult k r =>
      match pending w !! k with
      | Some (AwaitLocalDescription pc sdp) =>
          task (afterLocalDescription k pc sdp r) w
      | _ => None
      end
  | WsOpen s =>
      onSocket s (λ st, bool_decide (st = Runtime.CONNECTING))
        (λ x, updSocket s (with_readyState Runtime.OPEN);; onopen (connect x)) w
  | WsMessage s action rtc =>
      onSocket s (λ st, bool_decide (st = Runtime.OPEN))
        (λ _, handleCallServerEvent action rtc) w
  | WsError s e =>
      onSocket s (λ st, negb (bool_decide (st = Runtime.CLOSED)))
        (λ x, onerror (connect x) e) w
  | WsClose s =>
      onSocket s (λ st, negb (bool_decide (st = Runtime.CLOSED)))
        (λ _, updSocket s (with_readyState Runtime.CLOSED);; onclose) w
  | IceCandidate pc candidate => onPeer pc (onicecandidate candidate) w
  | TrackEvent pc stream => onPeer pc (ontrack stream) w
  | ConnectionStateChange pc state =>
      onPeer pc
        (updPeer pc (λ x,
           mkPeer (closed x) state (senders x) (localDescription x)
             (remoteDescription x) (candidates x));;
         onconnectionstatechange) w
  | Tick t =>
      match intervals w !! t with
      | Some (mkInterval true) => task pingTick w
      | _ => None
      end
  end.

Fixpoint run (es : list Event) (w : World) : option World :=
  match es with
  | [] => Some w
  | e :: es' =>
      match step e w with
      | Some w' => run es' w'
      | None => None
      end
  end.

End CallLoop.

(** ** Reasoning about handlers *)

Module Logic.

Import Js.

Section Triples.

Context {S : Type}.

(** Run in a store that satisfies [P], [m] returns [a] in a store that
    satisfies [Q a], or throws [e] in a store that satisfies [E e]. *)
Definition triple {A} (P : S → Prop) (m : JS S A)
    (Q : A → S → Prop) (E : Error → S → Prop) : Prop :=
  ∀ s, P s →
    match m s with
    | Return a s' => Q a s'
    | Throw e s' => E e s'
    end.

(** [m] keeps the invariant [I], whether it returns or throws. *)
Definition keeps (I : S → Prop) {A} (m : JS S A) : Prop :=
  ∀ s, I s → I (store (m s)).

(** [m] never throws. *)
Definition total {A} (m : JS S A) : Prop :=
  ∀ s, thrown (m s) = None.

(** What [m] does in the one store [s]: it returns [a] in a store that
    satisfies [Q a], or throws [e] in a store that satisfies [E e]. *)
Definition wp {A} (m : JS S A) (Q : A → S → Prop) (E : Error → S → Prop)
    (s : S) : Prop :=
  match m s with
  | Return a s' => Q a s'
  | Throw e s' => E e s'
  end.

End Triples.

End Logic.

(** * Properties *)

(** ** utils.js: the bytes of [uuidv7] *)

Module UtilsFacts.

Import Utils.

Local Open Scope Z_scope.

Lemma ToInt32_congr (x : Z) : ∃ q, ToInt32 x = x + 2 ^ 32 * q.
Proof.
  unfold ToInt32.
  pose proof (Z.div_mod x (2 ^ 32) ltac:(lia)) as H.
  destruct (decide (x mod 2 ^ 32 < 2 ^ 31)).
  - exists (- (x / 2 ^ 32)). lia.
  - exists (- (x / 2 ^ 32) - 1). lia.
Qed.

Lemma ToInt32_small (x : Z) : - 2 ^ 31 ≤ x < 2 ^ 31 → ToInt32 x = x.
Proof.
  intros Hx. unfold ToInt32.
  destruct (decide (0 ≤ x)).
  - rewrite Z.mod_small by lia. destruct (decide _); lia.
  - replace (x mod 2 ^ 32) with (x + 2 ^ 32).
    + destruct (decide _); lia.
    + apply Z.mod_unique with (q := -1); lia.
Qed.

(** The byte a shift by [8 * k] positions and a mask select from a 32-bit
    operand is the byte of the same position of the number itself. *)
Lemma byte_of_ToInt32 (x k : Z) :
  0 ≤ k ≤ 3 → (ToInt32 x / 2 ^ (8 * k)) mod 256 = (x / 2 ^ (8 * k)) mod 256.
Proof.
  intros Hk. destruct (ToInt32_congr x) as [q ->].
  assert (Hpow : 2 ^ 32 = 2 ^ (8 * k) * (256 * 2 ^ (24 - 8 * k))).
  { change 256 with (2 ^ 8). rewrite <- !Z.pow_add_r by lia. f_equal. lia. }
  rewrite Hpow.
  set (a := 2 ^ (8 * k)). set (b := 2 ^ (24 - 8 * k)).
  assert (0 < a) by (apply Z.pow_pos_nonneg; lia).
  replace (x + a * (256 * b) * q) with (x + 256 * b * q * a) by ring.
  rewrite Z.div_add by lia.
  replace (256 * b * q) with (b * q * 256) by ring.
  apply Z.mod_add. lia.
Qed.

(** [(x >> n) & 0xff] for a shift count [n], which the engine takes modulo
    32. *)
Lemma shr_and_byte (x n : Z) :
  (n mod 32) mod 8 = 0 → n mod 32 ≤ 24 →
  js_and (js_shr x n) 0xff = (x / 2 ^ (n mod 32)) mod 256.
Proof.
  intros Hdiv Hle. unfold js_and, js_shr.
  pose proof (Z.mod_pos_bound n 32 ltac:(lia)) as Hn.
  rewrite (ToInt32_small 255) by lia.
  change 255 with (Z.ones 8). rewrite Z.land_ones by lia.
  change (2 ^ 8) with 256.
  destruct (ToInt32_congr (Z.shiftr (ToInt32 x) (n mod 32))) as [q ->].
  rewrite Z.mul_comm.
  replace (2 ^ 32) with (2 ^ 24 * 256) by reflexivity.
  rewrite Z.mul_assoc, Z.mod_add by lia.
  rewrite Z.shiftr_div_pow2 by lia.
  pose proof (Z.div_mod (n mod 32) 8 ltac:(lia)) as Hk.
  rewrite Hdiv, Z.add_0_r in Hk. rewrite Hk.
  apply byte_of_ToInt32. lia.
Qed.

(** [x & 0xff] *)
Lemma and_byte (x : Z) : js_and x 0xff = x mod 256.
Proof.
  pose proof (shr_and_byte x 0 eq_refl ltac:(discriminate)) as H.
  unfold js_shr in H. change (0 mod 32) with 0 in H.
  rewrite Z.shiftr_0_r, Z.pow_0_r, Z.div_1_r in H.
  unfold js_and in *. rewrite <- H. f_equal. symmetry. apply ToInt32_small.
  unfold ToInt32. pose proof (Z.mod_pos_bound x (2 ^ 32) ltac:(lia)).
  destruct (decide _); lia.
Qed.

(** A property checked on every byte value holds of every byte. *)
Lemma bytes_checked (P : Z → bool) :
  forallb P (Z.of_nat <$> seq 0 256) = true →
  ∀ b, 0 ≤ b < 256 → P b = true.
Proof.
  intros Hall b Hb. rewrite forallb_forall in Hall. apply Hall.
  apply list_elem_of_In, list_elem_of_fmap. exists (Z.to_nat b). split; [lia|].
  apply elem_of_seq. lia.
Qed.

(** The version nibble: whatever the random byte, byte 6 is [0x7_]. *)
Lemma version_nibble (b : Z) :
  0 ≤ b < 256 → (js_or (js_and b 0x0f) 0x70) mod 256 / 16 = 7.
Proof.
  intros Hb.
  apply (bytes_checked
           (λ b, (js_or (js_and b 0x0f) 0x70) mod 256 / 16 =? 7)) in Hb.
  - lia.
  - vm_compute. reflexivity.
Qed.

(** The variant bits: whatever the random byte, byte 8 is [10xxxxxx]. *)
Lemma variant_bits (b : Z) :
  0 ≤ b < 256 → (js_or (js_and b 0x3f) 0x80) mod 256 / 64 = 2.
Proof.
  intros Hb.
  apply (bytes_checked
           (λ b, (js_or (js_and b 0x3f) 0x80) mod 256 / 64 =? 2)) in Hb.
  - lia.
  - vm_compute. reflexivity.
Qed.

Lemma getRandomValues_lookup (rnd : list Z) (i : nat) :
  (i < 16)%nat → getRandomValues rnd !! i = Some ((rnd !!! i) mod 256).
Proof.
  intros Hi. unfold getRandomValues.
  rewrite list_lookup_fmap, lookup_seq_lt by lia. reflexivity.
Qed.

(** What the six timestamp stores leave in the first six bytes: the
    shift counts 40 and 32 act as 8 and 0. *)
Lemma uuidv7_bytes_prefix (t : Z) (rnd : list Z) :
  take 6 (uuidv7_bytes t rnd)
  = [(t / 2 ^ 8) mod 256; t mod 256; (t / 2 ^ 24) mod 256;
     (t / 2 ^ 16) mod 256; (t / 2 ^ 8) mod 256; t mod 256].
Proof.
  unfold uuidv7_bytes, u8_store, getRandomValues. cbn [fmap list_fmap seq].
  cbn [list_insert insert take].
  rewrite !shr_and_byte by (vm_compute; first [reflexivity | discriminate]).
  rewrite and_byte, !Z.mod_mod by lia.
  change (40 mod 32) with 8. change (32 mod 32) with 0.
  change (24 mod 32) with 24. change (16 mod 32) with 16.
  change (8 mod 32) with 8.
  rewrite Z.pow_0_r, Z.div_1_r. reflexivity.
Qed.

(** Bytes 6 and 8 carry the version and the variant. *)
Lemma uuidv7_version_variant (t : Z) (rnd : list Z) :
  ∃ b6 b8,
    uuidv7_bytes t rnd !! 6%nat = Some b6 ∧ b6 / 16 = 7 ∧
    uuidv7_bytes t rnd !! 8%nat = Some b8 ∧ b8 / 64 = 2.
Proof.
  unfold uuidv7_bytes, u8_store, getRandomValues. cbn [fmap list_fmap seq].
  cbn [list_insert insert lookup list_lookup lookup_total list_lookup_total].
  eexists _, _. split; [reflexivity|]. split.
  - apply version_nibble. apply Z.mod_pos_bound. lia.
  - split; [reflexivity|]. apply variant_bits. apply Z.mod_pos_bound. lia.
Qed.

(** The first six bytes are the big-endian timestamp exactly when bits
    40-47 of the time happen to equal bits 8-15 and bits 32-39 happen to
    equal bits 0-7. *)
Lemma uuidv7_prefix_be48_iff (t : Z) (rnd : list Z) :
  take 6 (uuidv7_bytes t rnd) = be48 t ↔
  (t / 2 ^ 40) mod 256 = (t / 2 ^ 8) mod 256 ∧ (t / 2 ^ 32) mod 256 = t mod 256.
Proof.
  rewrite uuidv7_bytes_prefix. unfold be48. cbn [fmap list_fmap].
  change (8 * 5) with 40. change (8 * 4) with 32. change (8 * 3) with 24.
  change (8 * 2) with 16. change (8 * 1) with 8. change (8 * 0) with 0.
  rewrite Z.pow_0_r, Z.div_1_r.
  split.
  - intros H. injection H as H0 H1. auto.
  - intros [H0 H1]. rewrite H0, H1. reflexivity.
Qed.

(** C9 (the code departs from the claim). At the epoch millisecond
    1700000000000, which is above 2^32, and for every output of the random
    source, the first six bytes [uuidv7] produces are 68 00 cf e5 68 00,
    while the big-endian 48-bit encoding of that time is 01 8b cf e5 68 00:
    the two highest bytes repeat the two lowest ones, because [>>] works on
    32-bit operands with the shift count taken modulo 32. The version
    nibble and the variant bits are as the claim says. *)
Theorem uuidv7_timestamp_bytes_diverge (rnd : list Z) :
  take 6 (uuidv7_bytes 1700000000000 rnd) = [0x68; 0x00; 0xcf; 0xe5; 0x68; 0x00] ∧
  be48 1700000000000 = [0x01; 0x8b; 0xcf; 0xe5; 0x68; 0x00] ∧
  take 6 (uuidv7_bytes 1700000000000 rnd) ≠ be48 1700000000000 ∧
  2 ^ 32 ≤ 1700000000000.
Proof.
  assert (Hcode : take 6 (uuidv7_bytes 1700000000000 rnd)
                  = [0x68; 0x00; 0xcf; 0xe5; 0x68; 0x00]).
  { rewrite uuidv7_bytes_prefix. vm_compute. reflexivity. }
  split; [exact Hcode|]. split; [vm_compute; reflexivity|]. split.
  - rewrite Hcode. vm_compute. discriminate.
  - vm_compute. discriminate.
Qed.

End UtilsFacts.

(** ** Rules for handlers *)

Module LogicFacts.

Import Js Logic.

Section Rules.

Context {S : Type}.
Implicit Types I : S → Prop.

Lemma keeps_ret I {A} (a : A) : keeps I (ret a).
Proof. intros s Hs. exact Hs. Qed.

Lemma keeps_gets I {A} (f : S → A) : keeps I (gets f).
Proof. intros s Hs. exact Hs. Qed.

Lemma keeps_throw I {A} (e : Error) : keeps I (throw (A := A) e).
Proof. intros s Hs. exact Hs. Qed.

Lemma keeps_modify I (f : S → S) : (∀ s, I s → I (f s)) → keeps I (modify f).
Proof. intros Hf s Hs. apply Hf, Hs. Qed.

Lemma keeps_bind I {A B} (m : JS S A) (k : A → JS S B) :
  keeps I m → (∀ a, keeps I (k a)) → keeps I (bind m k).
Proof.
  intros Hm Hk s Hs. specialize (Hm s Hs). unfold bind.
  destruct (m s) as [a s'|e s']; cbn in *.
  - apply Hk, Hm.
  - exact Hm.
Qed.

Lemma keeps_try_catch I {A} (body : JS S A) (handler : Error → JS S A) :
  keeps I body → (∀ e, keeps I (handler e)) → keeps I (try_catch body handler).
Proof.
  intros Hm Hk s Hs. specialize (Hm s Hs). unfold try_catch.
  destruct (body s) as [a s'|e s']; cbn in *.
  - exact Hm.
  - apply Hk, Hm.
Qed.

Lemma keeps_when I (c : bool) (m : JS S ()) : keeps I m → keeps I (when c m).
Proof. intros Hm. destruct c; [exact Hm | apply keeps_ret]. Qed.

Lemma total_ret {A} (a : A) : total (ret (S := S) a).
Proof. intros s. reflexivity. Qed.

Lemma total_gets {A} (f : S → A) : total (gets f).
Proof. intros s. reflexivity. Qed.

Lemma total_modify (f : S → S) : total (modify f).
Proof. intros s. reflexivity. Qed.

Lemma total_bind {A B} (m : JS S A) (k : A → JS S B) :
  total m → (∀ a, total (k a)) → total (bind m k).
Proof.
  intros Hm Hk s. specialize (Hm s). unfold bind.
  destruct (m s) as [a s'|e s']; cbn in *.
  - apply Hk.
  - discriminate.
Qed.

Lemma total_when (c : bool) (m : JS S ()) : total m → total (when c m).
Proof. intros Hm. destruct c; [exact Hm | apply total_ret]. Qed.

Lemma total_try_catch {A} (body : JS S A) (handler : Error → JS S A) :
  (∀ e, total (handler e)) → total (try_catch body handler).
Proof.
  intros Hk s. unfold try_catch.
  destruct (body s) as [a s'|e s']; [reflexivity | apply Hk].
Qed.

(** A computation that never throws returns. *)
Lemma total_returns {A} (m : JS S A) (s : S) :
  total m → ∃ a, m s = Return a (store (m s)).
Proof.
  intros Hm. specialize (Hm s). destruct (m s) as [a s'|e s']; cbn in *.
  - exists a. reflexivity.
  - discriminate.
Qed.

(** The store a sequence leaves when its first part never throws. *)
Lemma store_bind_total {A B} (m : JS S A) (k : A → JS S B) (s : S) :
  total m → ∃ a, store (bind m k s) = store (k a (store (m s))).
Proof.
  intros Hm. destruct (total_returns m s Hm) as [a Ha].
  exists a. unfold bind. rewrite Ha. reflexivity.
Qed.

Lemma triple_bind {A B} (P : S → Prop) (R : A → S → Prop) (m : JS S A)
    (k : A → JS S B) (Q : B → S → Prop) (E : Error → S → Prop) :
  triple P m R E → (∀ a, triple (R a) (k a) Q E) → triple P (bind m k) Q E.
Proof.
  intros Hm Hk s Hs. specialize (Hm s Hs). unfold bind.
  destruct (m s) as [a s'|e s'].
  - apply Hk, Hm.
  - exact Hm.
Qed.

Lemma triple_modify (P : S → Prop) (f : S → S) (Q : () → S → Prop)
    (E : Error → S → Prop) :
  (∀ s, P s → Q () (f s)) → triple P (modify f) Q E.
Proof. intros Hf s Hs. apply Hf, Hs. Qed.

Lemma triple_gets {A} (P : S → Prop) (f : S → A) (Q : A → S → Prop)
    (E : Error → S → Prop) :
  (∀ s, P s → Q (f s) s) → triple P (gets f) Q E.
Proof. intros Hf s Hs. apply Hf, Hs. Qed.

Lemma triple_ret {A} (P : S → Prop) (a : A) (Q : A → S → Prop)
    (E : Error → S → Prop) :
  (∀ s, P s → Q a s) → triple P (ret a) Q E.
Proof. intros Hf s Hs. apply Hf, Hs. Qed.

Lemma triple_throw {A} (P : S → Prop) (e : Error) (Q : A → S → Prop)
    (E : Error → S → Prop) :
  (∀ s, P s → E e s) → triple P (throw e) Q E.
Proof. intros Hf s Hs. apply Hf, Hs. Qed.

Lemma triple_try_catch {A} (P : S → Prop) (body : JS S A)
    (handler : Error → JS S A) (Q : A → S → Prop) (E' E : Error → S → Prop) :
  triple P body Q E' → (∀ e, triple (E' e) (handler e) Q E) →
  triple P (try_catch body handler) Q E.
Proof.
  intros Hb Hh s Hs. specialize (Hb s Hs). unfold try_catch.
  destruct (body s) as [a s'|e s'].
  - exact Hb.
  - apply Hh, Hb.
Qed.

Lemma triple_weaken {A} (P P' : S → Prop) (m : JS S A) (Q Q' : A → S → Prop)
    (E E' : Error → S → Prop) :
  triple P' m Q' E' → (∀ s, P s → P' s) → (∀ a s, Q' a s → Q a s) →
  (∀ e s, E' e s → E e s) → triple P m Q E.
Proof.
  intros Hm HP HQ HE s Hs. specialize (Hm s (HP s Hs)).
  destruct (m s) as [a s'|e s']; auto.
Qed.

(** A fact that does not depend on the store moves out of the
    precondition. *)
Lemma triple_pure {A} (φ : Prop) (P : S → Prop) (m : JS S A)
    (Q : A → S → Prop) (E : Error → S → Prop) :
  (φ → triple P m Q E) → triple (λ s, P s ∧ φ) m Q E.
Proof. intros Hm s [Hs Hφ]. apply Hm; assumption. Qed.

(** A computation that keeps an invariant and never throws returns in a
    store where the invariant holds. *)
Lemma triple_invariant {A} I (m : JS S A) (E : Error → S → Prop) :
  keeps I m → total m → triple I m (λ _, I) E.
Proof.
  intros Hk Ht s Hs. specialize (Hk s Hs). specialize (Ht s).
  destruct (m s) as [a s'|e s']; cbn in *; [exact Hk | discriminate].
Qed.

(** The rules that run a handler from one store, a statement at a time. *)

Lemma wp_ret {A} (a : A) Q E (s : S) : Q a s → wp (ret a) Q E s.
Proof. exact id. Qed.

Lemma wp_close {A} (m : JS S A) Q E (s : S) :
  wp (bind m ret) Q E s → wp m Q E s.
Proof. unfold wp, bind. destruct (m s); exact id. Qed.

Lemma wp_assoc {A B C} (m : JS S A) (k1 : A → JS S B) (k2 : B → JS S C)
    Q E (s : S) :
  wp (bind m (λ a, bind (k1 a) k2)) Q E s → wp (bind (bind m k1) k2) Q E s.
Proof. unfold wp, bind. destruct (m s); exact id. Qed.

Lemma wp_modify {B} (f : S → S) (k : () → JS S B) Q E (s s' : S) :
  f s = s' → wp (k ()) Q E s' → wp (bind (modify f) k) Q E s.
Proof. intros <-. exact id. Qed.

Lemma wp_gets {A B} (f : S → A) (k : A → JS S B) Q E (s : S) (a : A) :
  f s = a → wp (k a) Q E s → wp (bind (gets f) k) Q E s.
Proof. intros <-. exact id. Qed.

Lemma wp_ret_bind {A B} (a : A) (k : A → JS S B) Q E (s : S) :
  wp (k a) Q E s → wp (bind (ret a) k) Q E s.
Proof. exact id. Qed.

Lemma wp_return {A B} (m : JS S A) (k : A → JS S B) Q E (s s' : S) (a : A) :
  m s = Return a s' → wp (k a) Q E s' → wp (bind m k) Q E s.
Proof. unfold wp, bind. intros ->. exact id. Qed.

Lemma wp_throw {A B} (e : Error) (k : A → JS S B) Q E (s : S) :
  E e s → wp (bind (throw e) k) Q E s.
Proof. exact id. Qed.

Lemma wp_try_catch {A B} (body : JS S A) (h : Error → JS S A)
    (k : A → JS S B) Q E (s : S) :
  wp (bind body ret) (λ a, wp (k a) Q E) (λ e, wp (bind (h e) k) Q E) s →
  wp (bind (try_catch body h) k) Q E s.
Proof. unfold wp, bind, try_catch, ret. destruct (body s); exact id. Qed.

Lemma wp_returns {A} (m : JS S A) (Q : A → S → Prop) (s : S) :
  wp m Q (λ _ _, False) s → ∃ a s', m s = Return a s' ∧ Q a s'.
Proof.
  unfold wp. destruct (m s) as [a s'|e s']; [|intros []].
  intros H. exists a, s'. split; [reflexivity | exact H].
Qed.

Lemma wp_of_keeps {A} I (m : JS S A) (s : S) :
  keeps I m → I s → wp m (λ _, I) (λ _, I) s.
Proof.
  intros Hk Hs. specialize (Hk s Hs). unfold wp.
  destruct (m s); exact Hk.
Qed.

Lemma wp_triple {A} (P : S → Prop) (m : JS S A) Q E :
  (∀ s, P s → wp m Q E s) ↔ triple P m Q E.
Proof. reflexivity. Qed.

End Rules.

(** An exception of the engine is thrown in the store as it is. *)
Lemma triple_raise {A} (P : Runtime.World → Prop) (f : Runtime.Fault)
    (Q : A → Runtime.World → Prop) (E : Error → Runtime.World → Prop) :
  (∀ s, P s → E (Err (Runtime.engine s f)) s) → triple P (Runtime.raise f) Q E.
Proof. intros H s Hs. exact (H s Hs). Qed.

(** The head constant of a computation, to unfold it. *)
Ltac head_of t :=
  lazymatch t with
  | ?f _ => head_of f
  | _ => t
  end.

(** Walk through a handler with the rules for [keeps]; [upd] proves that
    each store update keeps the invariant. *)
Ltac keeps_step upd :=
  lazymatch goal with
  | |- keeps _ (bind _ _) => apply keeps_bind; [|intros ?]
  | |- keeps _ (ret _) => apply keeps_ret
  | |- keeps _ (gets _) => apply keeps_gets
  | |- keeps _ (throw _) => apply keeps_throw
  | |- keeps _ (when _ _) => apply keeps_when
  | |- keeps _ (try_catch _ _) => apply keeps_try_catch; [|intros ?]
  | |- keeps _ (modify _) => apply keeps_modify; upd
  | |- keeps _ (match ?x with _ => _ end) => destruct x
  | |- keeps _ (λ _, _) => let s := fresh "s" in intros s; revert s; upd
  | |- keeps _ ?m => let h := head_of m in unfold h
  end.

Ltac keeps_walk upd := repeat keeps_step upd.

(** The same walk for [total]. *)
Ltac total_walk :=
  repeat
    lazymatch goal with
    | |- total (bind _ _) => apply total_bind; [|intros ?]
    | |- total (ret _) => apply total_ret
    | |- total (gets _) => apply total_gets
    | |- total (when _ _) => apply total_when
    | |- total (try_catch _ _) => apply total_try_catch; intros ?
    | |- total (modify _) => apply total_modify
    | |- total (match ?x with _ => _ end) => destruct x
    | |- total (λ _, Return _ _) => intros ?; reflexivity
    | |- total ?m => let h := head_of m in unfold h
    end.

(** One statement of a handler run from the store at hand; [norm] brings
    what the statement reads or writes to a value. *)
Ltac wp_step norm :=
  lazymatch goal with
  | |- wp (bind (bind _ _) _) _ _ _ => apply wp_assoc
  | |- wp (bind (modify _) _) _ _ _ =>
      eapply wp_modify; [norm; reflexivity | cbn beta iota]
  | |- wp (bind (gets _) _) _ _ _ =>
      eapply wp_gets; [norm; reflexivity | cbn beta iota]
  | |- wp (bind (ret _) _) _ _ _ => apply wp_ret_bind; cbn beta iota
  | |- wp (bind (throw _) _) _ _ _ => apply wp_throw
  | |- wp (bind (try_catch _ _) _) _ _ _ => apply wp_try_catch
  | |- wp (bind (when ?c _) _) _ _ _ =>
      let c' := eval cbn in c in change c with c'; cbn [when]
  | |- wp (bind (if ?c then _ else _) _) _ _ _ =>
      let c' := eval cbn in c in change c with c'; cbn beta iota
  | |- wp (bind (match _ with _ => _ end) _) _ _ _ => fail "stuck"
  | |- wp (bind (λ _, _) _) _ _ _ =>
      eapply wp_return; [norm; reflexivity | cbn beta iota]
  | |- wp (bind ?m _) _ _ _ =>
      let h := head_of m in unfold h at 1; cbn beta iota
  | |- wp (ret _) _ _ _ => apply wp_ret
  end.

Ltac wp_run norm := apply wp_close; repeat wp_step norm.

End LogicFacts.

(** ** Session cleanup (chat.js, call.js) *)

Module CleanupFacts.

Import Runtime Logic LogicFacts.

(** The part of the chat session [cleanup] carries over. *)
Definition carried (cbs : ChatSession.ChatCallbacks)
    (creds : option ChatSession.Credentials) (w : World) : Prop :=
  ChatSession.callbacks (chat w) = cbs ∧ ChatSession.credentials (chat w) = creds.

Ltac carried_upd :=
  unfold carried; intros; cbn in *; repeat case_match; cbn in *; intuition.

Lemma abort_keeps_carried cbs creds c : keeps (carried cbs creds) (abort c).
Proof. keeps_walk carried_upd. Qed.

Lemma disconnect_keeps_carried cbs creds :
  keeps (carried cbs creds) Socket.disconnect.
Proof. keeps_walk carried_upd. Qed.

Lemma disconnect_total : total Socket.disconnect.
Proof. total_walk. Qed.

Lemma abort_total c : total (abort c).
Proof. total_walk. Qed.

(** What [cleanup] of chat.js returns in. *)
Lemma chat_cleanup_triple cbs creds :
  triple (carried cbs creds) ChatStream.cleanup
    (λ _ w', chat w' = ChatSession.set_credentials creds
                         (ChatSession.createSession cbs))
    (λ _ _, False).
Proof.
  unfold ChatStream.cleanup.
  apply triple_bind with (R := λ _, carried cbs creds).
  { apply triple_invariant; [keeps_walk carried_upd | total_walk]. }
  intros c. apply triple_bind with (R := λ _, carried cbs creds).
  { apply triple_invariant.
    - destruct c; [apply abort_keeps_carried | apply keeps_ret].
    - destruct c; [apply abort_total | apply total_ret]. }
  intros _. apply triple_bind with (R := λ _, carried cbs creds).
  { apply triple_invariant; [apply disconnect_keeps_carried | apply disconnect_total]. }
  intros _. apply triple_modify. intros s [Hc Hd]. cbn. rewrite Hc, Hd. reflexivity.
Qed.

(** The part of the call session [cleanup] carries over. *)
Definition carriedCall (cbs : CallSession.CallCallbacks) (w : Call.World) : Prop :=
  CallSession.callbacks (Call.call w) = cbs.

Ltac carriedCall_upd :=
  unfold carriedCall; intros; cbn in *; repeat case_match; cbn in *; intuition.

(** What [cleanup] of call.js returns in. *)
Lemma call_cleanup_triple cbs :
  triple (carriedCall cbs) Call.cleanup
    (λ _ w', Call.call w' = CallSession.createSession cbs)
    (λ _ _, False).
Proof.
  unfold Call.cleanup.
  repeat
    (apply triple_bind with (R := λ _, carriedCall cbs);
     [apply triple_invariant; [keeps_walk carriedCall_upd | total_walk] | intros ?]).
  apply triple_modify. intros s Hc. cbn. rewrite Hc. reflexivity.
Qed.

(** C10. [disconnect()] of chat.js, which is [cleanup()], returns with
    every field of the chat session at its initial value (messages empty;
    sessionId, requestId, sseUrl, abortController, lastStreamId and
    configData undefined; transport 'sse'; authenticated false) except the
    callbacks object and the credentials, which are those of the session it
    replaced. [cleanup()] of call.js returns with the callbacks of the call
    session it replaced and every other field of the call session at its
    initial value: sessionId undefined; socket, peerConnection,
    localStream, remoteStream, remoteAudio, pingInterval and lastPongTime
    null; isMuted false; callStatus 'disconnected'; pingCount 0. *)
Theorem cleanup_keeps_callbacks_and_credentials (w : World) (cw : Call.World) :
  let w' := store (ChatStream.disconnect w) in
  let cw' := store (Call.cleanup cw) in
  thrown (ChatStream.disconnect w) = None ∧
  ChatSession.messages (chat w') = [] ∧
  ChatSession.sessionId (chat w') = None ∧
  ChatSession.requestId (chat w') = None ∧
  ChatSession.sseUrl (chat w') = None ∧
  ChatSession.abortController (chat w') = None ∧
  ChatSession.lastStreamId (chat w') = None ∧
  ChatSession.configData (chat w') = None ∧
  ChatSession.transport (chat w') = ChatSession.sse ∧
  ChatSession.authenticated (chat w') = false ∧
  ChatSession.callbacks (chat w') = ChatSession.callbacks (chat w) ∧
  ChatSession.credentials (chat w') = ChatSession.credentials (chat w) ∧
  thrown (Call.cleanup cw) = None ∧
  CallSession.callbacks (Call.call cw') = CallSession.callbacks (Call.call cw) ∧
  CallSession.sessionId (Call.call cw') = None ∧
  CallSession.socket (Call.call cw') = None ∧
  CallSession.peerConnection (Call.call cw') = None ∧
  CallSession.localStream (Call.call cw') = None ∧
  CallSession.remoteStream (Call.call cw') = None ∧
  CallSession.remoteAudio (Call.call cw') = None ∧
  CallSession.isMuted (Call.call cw') = false ∧
  CallSession.callStatus (Call.call cw') = "disconnected" ∧
  CallSession.pingInterval (Call.call cw') = None ∧
  CallSession.pingCount (Call.call cw') = 0 ∧
  CallSession.lastPongTime (Call.call cw') = None.
Proof.
  intros w' cw'.
  pose proof (chat_cleanup_triple (ChatSession.callbacks (chat w))
                (ChatSession.credentials (chat w)) w (conj eq_refl eq_refl)) as Hchat.
  pose proof (call_cleanup_triple (CallSession.callbacks (Call.call cw)) cw eq_refl)
    as Hcall.
  subst w' cw'. unfold ChatStream.disconnect.
  destruct (ChatStream.cleanup w) as [[] w1|e w1]; [|contradiction].
  destruct (Call.cleanup cw) as [[] cw1|e cw1]; [|contradiction].
  cbn [store thrown]. rewrite Hchat, Hcall. cbn. repeat split; reflexivity.
Qed.

End CleanupFacts.

(** ** Running the event loop *)

Module EventLoopFacts.

Import Js Runtime EventLoop Logic LogicFacts.

Local Open Scope Z_scope.

(** Time passes when no pending timer is due earlier. *)
Lemma step_elapse (ms : Z) (w : World) :
  0 ≤ ms → noneDueBefore (clock w + ms) w = true →
  step (Elapse ms) w = Some (with_clock (clock w + ms) w).
Proof.
  intros H0 Hn. cbn [step]. rewrite bool_decide_true by exact H0.
  rewrite Hn. reflexivity.
Qed.

(** A pending timer that is due fires: it is spent or armed again, and
    its callback runs. *)
Lemma step_fire (t : addr) (w : World) (x : Timer) :
  timers w !! t = Some x → active x = true → due x ≤ clock w →
  step (Fire t) w
  = Some (handle (timerCallback (action x))
            (with_timers (<[t := rearm x]> (timers w)) w)).
Proof.
  intros Ht Ha Hd. cbn [step]. unfold fire. rewrite Ht, Ha.
  rewrite bool_decide_true by exact Hd. reflexivity.
Qed.

Lemma run_cons (e : Event) (es : list Event) (w : World) :
  run (e :: es) w
  = match step e w with
    | Some w' => run es w'
    | None => None
    end.
Proof. reflexivity. Qed.

Lemma run_app (es es' : list Event) (w : World) :
  run (es ++ es') w
  = match run es w with
    | Some w' => run es' w'
    | None => None
    end.
Proof.
  revert w. induction es as [|e es IH]; intros w; [reflexivity|].
  cbn [app]. rewrite !run_cons. destruct (step e w); [apply IH | reflexivity].
Qed.

(** An invariant of the handlers allowed in a run is an invariant of the
    run. *)
Lemma run_keeps (I : World → Prop) (allowed : Event → bool) (es : list Event) :
  (∀ e w w', allowed e = true → step e w = Some w' → I w → I w') →
  ∀ w w', forallb allowed es = true → run es w = Some w' → I w → I w'.
Proof.
  intros Hstep. induction es as [|e es IH]; intros w w' Hq Hrun Hw.
  - injection Hrun as <-. exact Hw.
  - cbn in Hq. apply andb_true_iff in Hq as (Hq & Hqs). cbn in Hrun.
    destruct (step e w) as [w1|] eqn:He; [|discriminate].
    exact (IH _ _ Hqs Hrun (Hstep _ _ _ Hq He Hw)).
Qed.

(** A handler run as a task keeps what it keeps, if the report of what
    it throws does. *)
Lemma handle_keeps (I : World → Prop) {A} (m : M A) (w : World) :
  keeps I m → (∀ w l, I w → I (with_log l w)) → I w → I (handle m w).
Proof.
  intros Hk Hl Hw. specialize (Hk w Hw). unfold handle.
  destruct (m w) as [a w'|e w']; [exact Hk | apply Hl, Hk].
Qed.

Lemma handle_logs {A} (I : World → Prop) (m : M A) (w : World) :
  (∀ w l, I w → I (with_log l w)) → wp m (λ _, I) (λ _, I) w → I (handle m w).
Proof.
  intros Hl. unfold wp, handle. destruct (m w); [exact (λ H, H) | apply Hl].
Qed.

Lemma handle_returns {A} (m : M A) (Q : World → Prop) (w : World) :
  wp m (λ _, Q) (λ _ _, False) w → Q (handle m w).
Proof. unfold wp, handle. destruct (m w); [exact (λ H, H) | intros []]. Qed.

(** Run the first event of the run in the goal: the passing of time and
    the firing of a timer by the two lemmas above, whose side conditions
    compare instants; every other event by evaluation. *)
Ltac run_step :=
  lazymatch goal with
  | |- context [run (@cons Event ?e ?es) ?w] =>
      rewrite (run_cons e es w);
      lazymatch e with
      | Elapse _ =>
          rewrite step_elapse;
          [ | lia
            | unfold noneDueBefore; cbn;
              rewrite ?bool_decide_true by (first [apply Z.le_refl | lia]);
              reflexivity ]
      | Fire _ =>
          erewrite step_fire;
          [ | cbn; reflexivity | reflexivity
            | cbn; first [apply Z.le_refl | lia] ]
      | _ =>
          let H := fresh "Hstep" in
          eassert (H : step e w = Some _) by (vm_compute; reflexivity);
          rewrite H; clear H
      end
  end.

End EventLoopFacts.

(** ** The streaming exchange (chat.js [sendMessage]) *)

Module StreamFacts.

Import Runtime EventLoop ChatSession ChatStream EventLoopFacts.

Local Open Scope Z_scope.
Local Open Scope list_scope.

(** A page that has just loaded and whose chat session is [s]. *)
Definition page (s : ChatSession) (t0 : Z) (rnd : nat → list Z)
    (stored : option string) (wording : Fault → string) : World :=
  with_chat s (boot t0 rnd stored wording).

(** Scenario A: the call, the end of its sleep, the response, and the
    three events. On a fresh page the timer of the sleep, the request and
    the promise of the call each have address 0. *)
Definition scenarioA (html : option string) : list Event :=
  [ Call (SendMessage "hi" html);
    Elapse 200;
    Fire 0%nat;
    SseOpen 0%nat true;
    SseMessage 0%nat "connected"
      (mkData (Some "s1") None None None None None None None);
    SseMessage 0%nat "message"
      (mkData None None (Some "Hel") None None None None None);
    SseMessage 0%nat "message"
      (mkData None None (Some "lo") None (Some true) None None None) ].

(** C1. On a page that has just loaded, with a session that has no
    message yet, whose streaming URL parses and whose transport is 'sse'
    (whatever its credentials, callbacks and ids, the time, the random
    source and the engine), [sendMessage({text: "hi"})] followed by the
    end of its sleep, an ok response and the events
    connected{sessionId: "s1"}, {message: "Hel"}, {message: "lo", done: true}
    is a run of the event loop. It leaves exactly two messages: the first
    has role 'user', text "hi", the html and the time of the call and
    nothing else; the second has role 'assistant', text "Hello", loading
    false, done true and nothing else. The promise [sendMessage] returned
    is fulfilled with "s1", which is also the session id. *)
Theorem scenario_A_streams_hello (s : ChatSession) (t0 : Z) (rnd : nat → list Z)
    (stored html : option string) (wording : Fault → string) :
  messages s = [] → parses (sseUrl s) = true → transport s = sse →
  ∃ w',
    run (scenarioA html) (page s t0 rnd stored wording) = Some w' ∧
    messages (chat w')
    = [ {| id := None; role := Some "user"; text := Some "hi"; html := html;
           timestamp := Some t0; loading := None; sources := None;
           done := None; errorText := None; video := None; channel := None |};
        {| id := None; role := Some "assistant"; text := Some "Hello";
           html := None; timestamp := None; loading := Some false;
           sources := None; done := Some true; errorText := None;
           video := None; channel := None |} ] ∧
    promises w' = [Fulfilled (VString "s1")] ∧
    sessionId (chat w') = Some "s1".
Proof.
  intros Hm Hp Ht.
  destruct s as [cr au cf sid rid url ac ls ms cb tr]. cbn in Hm, Hp, Ht. subst.
  destruct url as [[[[h p|]|] ext]|]; try discriminate. clear Hp.
  destruct cb as [[f1|] [f2|] ? ? ?].
  all: unfold scenarioA, page.
  all: do 7 run_step.
  all: eexists; split; [reflexivity|].
  all: repeat split; vm_compute; reflexivity.
Qed.

(** A session for the witness: started against a valid endpoint. *)
Definition startedSession : ChatSession :=
  set_sseUrl (Some (mkSseUrl (Some (ValidUrl "chat.example" "/api")) "device-1"))
    (createSession noCallbacks).

Lemma scenario_A_streams_hello_witness :
  ∃ w',
    run (scenarioA None)
      (page startedSession 1700000000000 (λ _, []) None wording0)
    = Some w' ∧
    messages (chat w')
    = [ mkMessage None (Some "user") (Some "hi") None (Some 1700000000000)
          None None None None None None;
        mkMessage None (Some "assistant") (Some "Hello") None None
          (Some false) None (Some true) None None None ] ∧
    promises w' = [Fulfilled (VString "s1")] ∧
    sessionId (chat w') = Some "s1".
Proof.
  apply (scenario_A_streams_hello startedSession 1700000000000 (λ _, []) None None
           wording0);
    reflexivity.
Defined.

End StreamFacts.

(** ** Reassembly of streamed fragments (chat.js [onmessage]) *)

Module ReassemblyFacts.

Import Js Runtime EventLoop ChatSession ChatStream Logic LogicFacts.
Import EventLoopFacts StreamFacts.

Local Open Scope Z_scope.
Local Open Scope list_scope.

(** The message a fragment makes of the tail message [m]: its text
    appended, loading over, [sources] and [done] taken from the event. *)
Definition grow (data : Data) (fragment : string) (m : Message) : Message :=
  set_loading (Some false)
    (set_text (Some (or_str (text m) "" +:+ fragment))
       (set_sources (d_sources data)
          (set_done (nullish (d_done data) (done m)) m))).

(** The boundary id and the messages after the boundary check of a
    fragment. *)
Definition afterBoundary (streamId : option string) (ls : option string)
    (ms : list Message) : option string * list Message :=
  match streamId, ls with
  | None, _ => (ls, ms)
  | Some sid, None => (Some sid, ms)
  | Some sid, Some l =>
      if String.eqb sid l then (ls, ms) else (Some sid, ms ++ [loadingMessage])
  end.

(** The two fields of the session reassembly works on. *)
Definition reassembling (ls : option string) (ms : list Message) (w : World) : Prop :=
  lastStreamId (chat w) = ls ∧ messages (chat w) = ms.

Ltac reassembling_upd :=
  unfold reassembling; intros; cbn in *; repeat case_match; cbn in *; intuition.

Lemma replaceLast_snoc (init : list Message) (m m' : Message) :
  replaceLast m' (init ++ [m]) = init ++ [m'].
Proof.
  unfold replaceLast. rewrite length_app. cbn [length].
  replace (pred (length init + 1)) with (length init + 0)%nat by lia.
  rewrite insert_app_r. reflexivity.
Qed.

(** The boundary check when a boundary id was seen before. *)
Lemma boundary_triple (sid l : string) (ms : list Message) :
  triple (reassembling (Some l) ms)
    (bind (gets (λ w, lastStreamId (chat w)))
       (λ lastId,
          match lastId with
          | None => Chat.assign (set_lastStreamId (Some sid))
          | Some l =>
              when (negb (String.eqb sid l))
                (bind (Chat.assign (set_lastStreamId (Some sid)))
                   (λ _, Chat.addMessage loadingMessage))
          end))
    (λ _, reassembling (Some sid)
            (if String.eqb sid l then ms else ms ++ [loadingMessage]))
    (λ _ _, False).
Proof.
  apply triple_bind
    with (R := λ lastId w, reassembling (Some l) ms w ∧ lastId = Some l).
  { apply triple_gets. intros s [H1 H2]. repeat split; assumption. }
  intros lastId. apply triple_pure. intros ->.
  destruct (String.eqb sid l) eqn:Heq; cbn [negb when].
  - apply triple_ret. apply String.eqb_eq in Heq. subst. auto.
  - apply triple_bind with (R := λ _, reassembling (Some sid) ms).
    { apply triple_modify. reassembling_upd. }
    intros _. unfold Chat.addMessage.
    apply triple_bind
      with (R := λ _, reassembling (Some sid) (ms ++ [loadingMessage])).
    { apply triple_modify. unfold reassembling. intros s [H1 H2]. cbn.
      rewrite H2. auto. }
    intros _. apply triple_invariant; [keeps_walk reassembling_upd | total_walk].
Qed.

(** What [onmessage] does with a content event, on the boundary id and the
    message list: the boundary check, then the tail message grown by the
    fragment. It does not throw when there is a tail message. *)
Lemma onmessage_fragment_triple (p : addr) (ev : string) (data : Data)
    (fragment : string) (ls : option string) (ms init : list Message)
    (m : Message) :
  String.eqb ev "connected" = false →
  String.eqb ev "upgrade_to_websocket" = false →
  d_message data = Some fragment →
  (afterBoundary (d_streamId data) ls ms).2 = init ++ [m] →
  triple (reassembling ls ms) (onmessage p ev data)
    (λ _, reassembling (afterBoundary (d_streamId data) ls ms).1
            (init ++ [grow data fragment m]))
    (λ _ _, False).
Proof.
  intros He1 He2 Hm Hms. unfold onmessage. rewrite He1, He2, Hm.
  apply triple_bind
    with (R := λ _, reassembling (afterBoundary (d_streamId data) ls ms).1
                      (init ++ [m])).
  { rewrite <- Hms. destruct (d_streamId data) as [sid|]; cbn [afterBoundary].
    - destruct ls as [l|].
      + eapply triple_weaken; [apply (boundary_triple sid l ms) | auto ..].
        intros [] s. destruct (String.eqb sid l) eqn:Heq; cbn; [|auto].
        apply String.eqb_eq in Heq. subst. auto.
      + apply triple_bind with (R := λ lastId w, reassembling None ms w ∧ lastId = None).
        { apply triple_gets. intros s [H1 H2]. repeat split; assumption. }
        intros lastId. apply triple_pure. intros ->.
        apply triple_modify. reassembling_upd.
    - apply triple_ret. auto. }
  intros _.
  set (ls1 := (afterBoundary (d_streamId data) ls ms).1).
  apply triple_bind
    with (R := λ msgs w, reassembling ls1 (init ++ [m]) w ∧ msgs = init ++ [m]).
  { apply triple_gets. intros s [H1 H2]. repeat split; assumption. }
  intros msgs. apply triple_pure. intros ->. rewrite last_snoc. cbv zeta.
  apply triple_bind with (R := λ _, reassembling ls1 (init ++ [grow data fragment m])).
  { apply triple_modify. intros s [H1 H2]. split; cbn; [exact H1|].
    apply replaceLast_snoc. }
  intros _. apply triple_invariant; [keeps_walk reassembling_upd | total_walk].
Qed.

(** Scenario C: the call, the end of its sleep, the response, and
    fragments "X", "Y", "Z" with the boundary ids a, a, b. *)
Definition fragmentOf (streamId text : string) : Data :=
  mkData None None (Some text) (Some streamId) None None None None.

Definition scenarioC : list Event :=
  [ Call (SendMessage "q" None);
    Elapse 200;
    Fire 0%nat;
    SseOpen 0%nat true;
    SseMessage 0%nat "message" (fragmentOf "a" "X");
    SseMessage 0%nat "message" (fragmentOf "a" "Y");
    SseMessage 0%nat "message" (fragmentOf "b" "Z") ].

Definition assistant (t : string) : Message :=
  set_loading (Some false) (set_text (Some t) loadingMessage).

Lemma scenario_C_two_messages (t0 : Z) :
  ∃ w', run scenarioC (page startedSession t0 (λ _, []) None wording0) = Some w' ∧
        messages (chat w')
        = [userMessage "q" None t0; assistant "XY"; assistant "Z"].
Proof.
  unfold scenarioC, page. do 7 run_step.
  eexists. split; [reflexivity|]. vm_compute. reflexivity.
Qed.

(** C2. In any world where a boundary id [l] was seen before and the
    message list ends with a tail message, [onmessage] on a content event
    (one with a [message]) that carries the boundary id [sid] returns
    without throwing; afterwards [sid] is the boundary id seen last; if
    [sid] is [l] the tail message has the fragment appended to its text and
    every earlier message is as before; if [sid] differs from [l] the list
    is as before, tail included, followed by one new assistant message whose
    text is the fragment. This holds at each event of any sequence, since
    it holds in every world. In particular the sequence of boundary ids
    a, a, b with the texts "X", "Y", "Z" leaves, after the user message,
    exactly the two assistant messages "XY" and "Z". *)
Theorem fragments_grouped_by_streamId (w : World) (p : addr) (ev : string)
    (data : Data) (fragment sid l : string) (init : list Message) (tail : Message) :
  ev ≠ "connected" → ev ≠ "upgrade_to_websocket" →
  d_message data = Some fragment → d_streamId data = Some sid →
  lastStreamId (chat w) = Some l →
  messages (chat w) = init ++ [tail] →
  let o := onmessage p ev data w in
  thrown o = None ∧
  lastStreamId (chat (store o)) = Some sid ∧
  messages (chat (store o))
  = (if String.eqb sid l
     then init ++ [grow data fragment tail]
     else init ++ [tail; grow data fragment loadingMessage]) ∧
  text (grow data fragment tail) = Some (or_str (text tail) "" +:+ fragment) ∧
  role (grow data fragment tail) = role tail ∧
  text (grow data fragment loadingMessage) = Some fragment ∧
  role (grow data fragment loadingMessage) = Some MESSAGE_ROLES.BOT ∧
  ∃ w', run scenarioC (page startedSession 0 (λ _, []) None wording0) = Some w' ∧
        messages (chat w') = [userMessage "q" None 0; assistant "XY"; assistant "Z"].
Proof.
  intros He1 He2 Hm Hs Hl Hms o.
  apply String.eqb_neq in He1, He2.
  assert (Hb : (afterBoundary (d_streamId data) (Some l) (init ++ [tail])).2
               = (if String.eqb sid l then init else init ++ [tail])
                 ++ [if String.eqb sid l then tail else loadingMessage]).
  { rewrite Hs. cbn [afterBoundary]. destruct (String.eqb sid l); reflexivity. }
  pose proof (onmessage_fragment_triple p ev data fragment (Some l) (init ++ [tail])
                _ _ He1 He2 Hm Hb w (conj Hl Hms)) as H.
  subst o. destruct (onmessage p ev data w) as [[] w1|e w1]; [|contradiction].
  destruct H as [H1 H2]. cbn [thrown store]. rewrite H1, H2, Hs. cbn [afterBoundary].
  split; [reflexivity|]. split.
  { destruct (String.eqb sid l) eqn:Heq; [|reflexivity].
    apply String.eqb_eq in Heq. subst. reflexivity. }
  split.
  { destruct (String.eqb sid l); [reflexivity|]. rewrite <- app_assoc. reflexivity. }
  repeat split. apply scenario_C_two_messages.
Qed.

(** The theorem at the third event of scenario C: boundary id "a" seen,
    tail message "XY", fragment "Z" of boundary "b". *)
Lemma fragments_grouped_by_streamId_witness :
  let w := page (set_lastStreamId (Some "a")
                   (set_messages [userMessage "q" None 0; assistant "XY"]
                      startedSession)) 200 (λ _, []) None wording0 in
  let o := onmessage 0%nat "message" (fragmentOf "b" "Z") w in
  thrown o = None ∧
  lastStreamId (chat (store o)) = Some "b" ∧
  messages (chat (store o))
  = [userMessage "q" None 0; assistant "XY";
     grow (fragmentOf "b" "Z") "Z" loadingMessage].
Proof.
  pose proof (fragments_grouped_by_streamId
                (page (set_lastStreamId (Some "a")
                         (set_messages [userMessage "q" None 0; assistant "XY"]
                            startedSession)) 200 (λ _, []) None wording0)
                0%nat "message" (fragmentOf "b" "Z") "Z" "b" "a"
                [userMessage "q" None 0] (assistant "XY")
                ltac:(discriminate) ltac:(discriminate) eq_refl eq_refl eq_refl eq_refl)
    as (H1 & H2 & H3 & _).
  exact (conj H1 (conj H2 H3)).
Defined.

End ReassemblyFacts.

(** ** Cancellation of streaming requests (chat.js) *)

Module AbortFacts.

Import Js Runtime EventLoop ChatSession ChatStream Logic LogicFacts.
Import EventLoopFacts StreamFacts.

Local Open Scope Z_scope.
Local Open Scope list_scope.

(** The flag of an abort controller that exists. *)
Definition signal (c : addr) (b : bool) (w : World) : Prop :=
  controllers w !! c = Some b.

Ltac signal_upd :=
  unfold signal; intros; cbn in *; repeat case_match; cbn in *;
  rewrite ?lookup_app_l by (eapply lookup_lt_Some; eassumption);
  intuition.

(** [sendMessage], from its call to the opening of its request, leaves
    every abort controller that exists as it is: it only creates one. *)
Lemma sendMessage_keeps_signal (c : addr) (b : bool) (text : string)
    (html : option string) :
  keeps (signal c b) (sendMessage text html).
Proof. keeps_walk signal_upd. Qed.

Lemma resume_keeps_signal (c : addr) (b : bool) (p : addr) (text : string)
    (html : option string) :
  keeps (signal c b) (resume p text html).
Proof. keeps_walk signal_upd. Qed.

(** Two calls of [sendMessage], the second while the request of the first
    is streaming. *)
Definition twoCalls : list Event :=
  [ Call (SendMessage "first" None);
    Elapse 200;
    Fire 0%nat;
    SseOpen 0%nat true;
    Call (SendMessage "second" None);
    Elapse 200;
    Fire 1%nat ].

(** C3 (the code departs from the claim). After a second [sendMessage]
    has opened its request while the request of the first is streaming,
    both requests are outstanding: the abort controller of the first was
    never triggered, the session only holds the controller of the second.
    [disconnect()] then aborts the second request alone, and the first one
    stays outstanding. *)
Theorem second_request_does_not_abort_first :
  ∃ w' w'',
    run twoCalls (page startedSession 0 (λ _, []) None wording0) = Some w' ∧
    rq_message <$> requests w' = ["first"; "second"] ∧
    rq_signal <$> requests w' = [0; 1]%nat ∧
    controllers w' = [false; false] ∧
    outstanding w' <$> requests w' = [true; true] ∧
    abortController (chat w') = Some 1%nat ∧
    run [Call Disconnect] w' = Some w'' ∧
    controllers w'' = [false; true] ∧
    outstanding w'' <$> requests w'' = [true; false].
Proof.
  eexists _, _. split; [vm_compute; reflexivity|].
  repeat split; vm_compute; reflexivity.
Qed.

End AbortFacts.

(** ** The chat socket (socket.js) *)

Module SocketFacts.

Import Js Runtime EventLoop ChatSession ChatStream SocketSession.
Import Logic LogicFacts EventLoopFacts StreamFacts.

Local Open Scope Z_scope.
Local Open Scope list_scope.

Definition credentials0 : Credentials :=
  mkCredentials (Some (ValidUrl "chat.example" "/api")) None None.

(** A page on which the SDK was initialised, a chat started, a message
    sent over the streaming transport, and the backend asked for the
    upgrade: the socket (address 0) has opened at time 200. The timers
    are the sleep of [sendMessage] (0), the connection timeout (1) and the
    ping interval (2). *)
Definition upgraded : list Event :=
  [ Call (Initialize credentials0);
    Call (StartChat None (Responded None) (Responded None));
    Call (SendMessage "hi" None);
    Elapse 200;
    Fire 0%nat;
    SseOpen 0%nat true;
    SseMessage 0%nat "connected"
      (mkData (Some "s1") None None None None None None None);
    SseMessage 0%nat "upgrade_to_websocket"
      (mkData None (Some "r1") None None None None None None);
    WsOpen 0%nat ].

Definition page0 : World := boot 0 (λ _, []) (Some "device-1") wording0.

Lemma upgraded_connects :
  ∃ w, run upgraded page0 = Some w ∧
       clock w = 200 ∧
       socket (sock w) = Some 0%nat ∧
       readyStateOf w 0%nat = Some OPEN ∧
       transport (chat w) = ChatSession.socket ∧
       Socket.isConnected w = true.
Proof. eexists. split; [vm_compute; reflexivity|]. repeat split. Qed.

(** *** Acknowledged sends *)

Definition ackFrame : Frame := mkFrame "message" (Some "e1") None None.

Definition lateResponse : Frame :=
  mkFrame "message" (Some "e1") (Some emptyMessage) None.

(** C7 (the code departs from the claim). [sendWithAck] with event id
    "e1" on the open socket, then 5000 ms without any frame: the timeout
    (timer 3) fires and the promise (address 2) is rejected with the error
    'Timeout', but the listener registered for "e1" is still on the socket.
    A response frame with that event id arriving afterwards is handled by
    that listener, which only then removes itself; the promise stays
    rejected with 'Timeout'. *)
Theorem ack_timeout_leaves_listener :
  ∃ w1 w2,
    run (upgraded ++ [Call (SendWithAck ackFrame); Elapse 5000; Fire 3%nat]) page0
    = Some w1 ∧
    promises w1 !! 2%nat = Some (Rejected (Err "Timeout")) ∧
    listeners <$> sockets w1 !! 0%nat = Some [mkAckListener "e1" 3%nat 2%nat] ∧
    step (WsMessage 0%nat lateResponse) w1 = Some w2 ∧
    listeners <$> sockets w2 !! 0%nat = Some [] ∧
    promises w2 !! 2%nat = Some (Rejected (Err "Timeout")).
Proof.
  eexists _, _. split; [vm_compute; reflexivity|].
  repeat split; vm_compute; reflexivity.
Qed.

(** *** Heartbeat *)

(** Thirty seconds after the socket opened, with a ping sent every ten
    seconds and no pong at all. *)
Definition silence : list Event :=
  [ Elapse 10000; Fire 2%nat; Elapse 10000; Fire 2%nat; Elapse 10000; Fire 2%nat ].

Definition isPingDeadline (x : Timer) : bool :=
  match action x with
  | SocketDisconnectedTimeout => true
  | _ => false
  end.

(** C5 (the code departs from the claim). In a run in which no pong
    ever arrives after the connection opens, more than 10000 + 1000 ms
    later the channel is not declared degraded and the transport mode is
    still 'socket': no deadline timer was ever armed, so this stays so.
    Three pings were sent besides the one sent on opening. A message sent
    then still goes to the socket: it is the fifth frame, and no second
    streaming request is opened. *)
Lemma no_pong_no_fallback :
  ∃ w w',
    run (upgraded ++ silence) page0 = Some w ∧
    clock w = 200 + 30000 ∧
    transport (chat w) = ChatSession.socket ∧
    socketDisconnected (sock w) = false ∧
    Socket.isConnected w = true ∧
    socketDisconnectedTimeout (sock w) = None ∧
    filter isPingDeadline (timers w) = [] ∧
    (type <$> default [] (sent <$> sockets w !! 0%nat))
    = ["ping"; "ping"; "ping"; "ping"] ∧
    run [Call (SendMessage "still there?" None); Elapse 200; Fire 3%nat] w
    = Some w' ∧
    (type <$> default [] (sent <$> sockets w' !! 0%nat))
    = ["ping"; "ping"; "ping"; "ping"; "message"] ∧
    length (requests w') = length (requests w) ∧
    transport (chat w') = ChatSession.socket.
Proof.
  eexists _, _. split; [vm_compute; reflexivity|].
  do 7 (split; [vm_compute; reflexivity|]).
  split; [vm_compute; reflexivity|].
  split; [vm_compute; reflexivity|].
  split; vm_compute; reflexivity.
Qed.

(** *** Abnormal closure *)


(** What it ends in. *)
Definition closed (tr : TransportType) (ms : list Message) (sd : bool)
    (w : World) : Prop :=
  transport (chat w) = tr ∧ messages (chat w) = ms ∧
  socketDisconnected (sock w) = sd.




(** The worlds of the witness: the socket open, and the socket created
    but not open yet. *)
Definition openedWorld : World :=
  default page0 (run upgraded page0).

Definition connectingWorld : World :=
  default page0 (run (take 8 upgraded) page0).

End SocketFacts.

(** ** The heartbeat of the socket (socket.js) *)

Module HeartbeatFacts.

Import Js Runtime EventLoop ChatSession SocketSession.
Import Logic LogicFacts EventLoopFacts SocketFacts.

Local Open Scope Z_scope.
Local Open Scope list_scope.





Definition pong : Frame := mkFrame "pong" None None None.

(** Eleven seconds and a millisecond without pong, the ping interval and
    the deadline firing when due. *)
Definition lapse : list Event :=
  [ Elapse 10000; Fire 2%nat; Elapse 1000; Fire 3%nat; Elapse 1 ].

(** The socket of [upgraded] has heard a pong. *)
Definition heard : World :=
  default page0 (step (WsMessage 0%nat pong) openedWorld).

End HeartbeatFacts.

(** ** Abnormal closure of the socket, over runs (socket.js) *)

Module ClosureFacts.

Import Js Runtime EventLoop ChatSession ChatStream SocketSession.
Import Logic LogicFacts EventLoopFacts SocketFacts HeartbeatFacts.

Local Open Scope Z_scope.
Local Open Scope list_scope.





(** The listeners of a frame, after its handler. *)
Lemma dispatchMessage_keeps (I : World → Prop) (s : addr) (f : Frame)
    (x : WebSocket) (w : World) :
  keeps I (Socket.onmessage f) → (∀ l, keeps I (Socket.onMessage l f)) →
  (∀ w l, I w → I (with_log l w)) → I w → I (dispatchMessage s f x w).
Proof.
  intros Hm Hl Hlog Hw. unfold dispatchMessage.
  assert (H0 : I (handle (Socket.onmessage f) w)) by (apply handle_keeps; auto).
  revert H0. generalize (handle (Socket.onmessage f) w).
  induction (listeners x) as [|l ls IH]; intros v Hv; [exact Hv|].
  cbn [foldl]. apply IH. destruct (bool_decide _); [|exact Hv].
  apply handle_keeps; auto.
Qed.

















End ClosureFacts.

(** ** Failed exchanges (chat.js) *)

Module FailureFacts.

Import Js Runtime EventLoop ChatSession ChatStream.
Import Logic LogicFacts EventLoopFacts StreamFacts ReassemblyFacts.

Local Open Scope Z_scope.
Local Open Scope list_scope.

(** What the [catch] block makes of the tail message. *)
Definition failed (e : Error) (tail : Message) : Message :=
  set_loading (Some false)
    (set_errorText
       (if truthy_bool (done tail) then None
        else Some (or_str (message e) errorMessage))
       (set_done (Some true) tail)).

(** What the error event branch of [onmessage] makes of it. *)
Definition flagged (tail : Message) : Message :=
  set_loading (Some false) (set_errorText (Some errorMessage) tail).

Definition listed (ms : list Message) (w : World) : Prop :=
  messages (chat w) = ms.

Ltac listed_upd :=
  unfold listed; intros; cbn in *; repeat case_match; cbn in *; intuition.

Lemma catchBlock_triple (p : addr) (e : Error) (init : list Message)
    (tail : Message) :
  triple (listed (init ++ [tail])) (catchBlock p e)
    (λ _, listed (init ++ [failed e tail])) (λ _ _, False).
Proof.
  unfold catchBlock.
  apply triple_bind
    with (R := λ msgs w, listed (init ++ [tail]) w ∧ msgs = init ++ [tail]).
  { apply triple_gets. intros w H. split; [exact H | apply H]. }
  intros msgs. apply triple_pure. intros ->. rewrite last_snoc. cbv zeta.
  apply triple_bind with (R := λ _, listed (init ++ [failed e tail])).
  { apply triple_modify. intros w H. unfold listed. cbn. apply replaceLast_snoc. }
  intros _. apply triple_invariant; [keeps_walk listed_upd | total_walk].
Qed.

Lemma error_event_triple (p : addr) (ev : string) (data : Data)
    (init : list Message) (tail : Message) :
  String.eqb ev "connected" = false →
  String.eqb ev "upgrade_to_websocket" = false →
  d_message data = None → truthy_str (d_error data) = true →
  triple (listed (init ++ [tail])) (onmessage p ev data)
    (λ _, listed (init ++ [flagged tail])) (λ _ _, False).
Proof.
  intros He1 He2 Hm Herr. unfold onmessage. rewrite He1, He2, Hm, Herr.
  cbn [when].
  apply triple_bind
    with (R := λ msgs w, listed (init ++ [tail]) w ∧ msgs = init ++ [tail]).
  { apply triple_gets. intros w H. split; [exact H | apply H]. }
  intros msgs. apply triple_pure. intros ->. rewrite last_snoc.
  cbn [default]. cbv zeta.
  apply triple_bind with (R := λ _, listed (init ++ [flagged tail])).
  { apply triple_modify. intros w H. unfold listed. cbn. apply replaceLast_snoc. }
  intros _. apply triple_invariant; [keeps_walk listed_upd | total_walk].
Qed.

(** A callback of the request that throws ends the request in the [catch]
    block. *)
Lemma deliver_throw_triple (r : addr) (x : Request) (e : Error)
    (init : list Message) (tail : Message) :
  triple (listed (init ++ [tail])) (deliver r x (throw e))
    (λ _, listed (init ++ [failed e tail])) (λ _ _, False).
Proof.
  unfold deliver.
  apply triple_try_catch with (E' := λ e0 w, listed (init ++ [tail]) w ∧ e0 = e).
  { apply triple_throw. auto. }
  intros e0. apply triple_pure. intros ->. unfold onerror.
  apply triple_try_catch with (E' := λ e0 w, listed (init ++ [tail]) w ∧ e0 = e).
  { apply triple_throw. auto. }
  intros e0. apply triple_pure. intros ->.
  apply triple_bind with (R := λ _, listed (init ++ [tail])).
  { apply triple_invariant; [keeps_walk listed_upd | total_walk]. }
  intros _. apply catchBlock_triple.
Qed.

(** A handler that cannot throw, run by the event loop. *)
Lemma handle_triple {A} (P : World → Prop) (m : M A) (Q : World → Prop)
    (w : World) :
  triple P m (λ _, Q) (λ _ _, False) → P w → Q (handle m w).
Proof.
  intros Hm Hw. specialize (Hm w Hw). unfold handle.
  destruct (m w) as [a w'|e w']; [exact Hm | contradiction].
Qed.

Lemma or_str_nonempty (o : option string) (d : string) :
  d ≠ "" → or_str o d ≠ "".
Proof.
  intros Hd. unfold or_str. destruct o as [s|]; [|exact Hd].
  destruct (String.eqb s "") eqn:Hs; [exact Hd|]. apply String.eqb_neq, Hs.
Qed.

(** The exchange of scenario A up to the open stream. *)
Definition streaming : list Event :=
  [ Call (SendMessage "hi" None); Elapse 200; Fire 0%nat; SseOpen 0%nat true ].

Definition errorEvent : Data :=
  mkData None None None None None None (Some "backend failure") None.

Definition lastFragment : Data :=
  mkData None None (Some "ok") None (Some true) None None None.

Definition entry := page startedSession 0 (λ _, []) None wording0.

(** C4 as claimed fails, in two ways. (1) After an explicit backend error
    event the tail message has the errorText 'Failed to connect to the
    system' and the promise is rejected, but its done is not true: the
    branch does not set it. (2) When the tail message is already done (here
    by a last fragment) and the stream then fails with a transport error,
    the [catch] block sets its errorText to undefined: the tail message
    ends with done true and no errorText. *)
Lemma failed_exchange_without_done_or_errorText :
  (∃ w, run (streaming ++ [SseMessage 0%nat "message" errorEvent]) entry = Some w ∧
        errorText <$> last (messages (chat w))
        = Some (Some "Failed to connect to the system") ∧
        done <$> last (messages (chat w)) = Some None ∧
        promises w = [Rejected (Err "Failed to connect to the system")]) ∧
  (∃ w, run (streaming ++ [SseMessage 0%nat "message" lastFragment;
                           SseError 0%nat (Err "network error")]) entry = Some w ∧
        errorText <$> last (messages (chat w)) = Some None ∧
        done <$> last (messages (chat w)) = Some (Some true)).
Proof.
  split; eexists; (split; [vm_compute; reflexivity|]); repeat split.
Qed.

(** C4, amended. A request that is outstanding in a world whose message
    list ends with a tail message. A transport error is handled and leaves
    the list as it was but for the tail message, which is done and carries
    as errorText the message of the error, or 'Failed to connect to the
    system' when that is empty -- a non-empty text -- unless the tail
    message was already done, in which case its errorText is cleared. A
    response that is not ok does the same with the error 'Failed to send
    message'. An explicit backend error event leaves the list as it was
    but for the tail message, which carries the errorText 'Failed to
    connect to the system'. No message is removed in any of the three. *)
Theorem failed_exchange_marks_tail (w : World) (r : addr) (x : Request)
    (init : list Message) (tail : Message) (e : Error) (ev : string) (data : Data) :
  requests w !! r = Some x → outstanding w x = true →
  messages (chat w) = init ++ [tail] →
  ev ≠ "connected" → ev ≠ "upgrade_to_websocket" →
  d_message data = None → truthy_str (d_error data) = true →
  (∃ w', step (SseError r e) w = Some w' ∧
         messages (chat w') = init ++ [failed e tail]) ∧
  (rq_state x = Connecting →
   ∃ w', step (SseOpen r false) w = Some w' ∧
         messages (chat w') = init ++ [failed (Err "Failed to send message") tail]) ∧
  (rq_state x = Streaming →
   ∃ w', step (SseMessage r ev data) w = Some w' ∧
         messages (chat w') = init ++ [flagged tail]) ∧
  done (failed e tail) = Some true ∧
  errorText (failed e tail)
  = (if truthy_bool (done tail) then None
     else Some (or_str (message e) errorMessage)) ∧
  or_str (message e) errorMessage ≠ "" ∧
  errorText (flagged tail) = Some errorMessage ∧
  errorMessage ≠ "".
Proof.
  intros Hx Hout Hms He1 He2 Hm Herr.
  apply String.eqb_neq in He1, He2.
  assert (Hstate : rq_state x ≠ Finished).
  { unfold outstanding in Hout. apply andb_true_iff in Hout as [Hf _].
    apply negb_true_iff, bool_decide_eq_false in Hf. exact Hf. }
  split; [|split; [|split]].
  - cbn [step]. unfold EventLoop.sse. rewrite Hx, Hout.
    rewrite bool_decide_true by (destruct (rq_state x); [set_solver .. | done]).
    eexists. split; [reflexivity|].
    apply (handle_triple (listed (init ++ [tail]))); [|exact Hms].
    apply deliver_throw_triple.
  - intros Hc. cbn [step]. unfold EventLoop.sse. rewrite Hx, Hout, Hc.
    rewrite bool_decide_true by set_solver.
    eexists. split; [reflexivity|].
    apply (handle_triple (listed (init ++ [tail]))); [|exact Hms].
    apply triple_bind
      with (R := λ _, listed (init ++ [failed (Err "Failed to send message") tail])).
    { apply deliver_throw_triple. }
    intros _. apply triple_ret. auto.
  - intros Hc. cbn [step]. unfold EventLoop.sse. rewrite Hx, Hout, Hc.
    rewrite bool_decide_true by set_solver.
    eexists. split; [reflexivity|].
    apply (handle_triple (listed (init ++ [tail]))); [|exact Hms].
    unfold deliver.
    apply triple_try_catch with (E' := λ _ _, False).
    { apply error_event_triple; assumption. }
    intros e0 w0 [].
  - split; [reflexivity|]. split; [reflexivity|].
    split; [apply or_str_nonempty; discriminate|].
    split; [reflexivity | discriminate].
Qed.

(** The world of the witness: the stream of scenario A is open. *)
Definition streamingWorld : World := default entry (run streaming entry).

Lemma failed_exchange_marks_tail_witness :
  (∃ w', step (SseError 0%nat (Err "network error")) streamingWorld = Some w' ∧
         messages (chat w')
         = [userMessage "hi" None 0; failed (Err "network error") loadingMessage]) ∧
  (∃ w', step (SseMessage 0%nat "message" errorEvent) streamingWorld = Some w' ∧
         messages (chat w') = [userMessage "hi" None 0; flagged loadingMessage]).
Proof.
  destruct (failed_exchange_marks_tail streamingWorld 0%nat
              (mkRequest
                 (mkSseUrl (Some (ValidUrl "chat.example" "/api")) "device-1")
                 None None None "hi" None 0%nat 0%nat Streaming)
              [userMessage "hi" None 0] loadingMessage (Err "network error")
              "message" errorEvent
              eq_refl eq_refl eq_refl ltac:(discriminate) ltac:(discriminate)
              eq_refl eq_refl)
    as (H1 & _ & H3 & _).
  split; [exact H1 | exact (H3 eq_refl)].
Defined.

End FailureFacts.

(** ** A call whose signalling fails (call.js) *)

Module CallFacts.

Import Js CallSession Call CallLoop Logic LogicFacts.
Local Open Scope list_scope.

Ltac facts :=
  repeat match goal with
  | H : _ !! _ = _ |- _ => rewrite H
  | H : _ (call _) = _ |- _ => rewrite H
  end.

Ltac norm := repeat (progress (cbn; facts)).

(** An awaited step of [startCall] that fails runs the [catch] block. *)
Lemma startCall_failure_runs_catchBlock (k : addr) (err : Error) (w : World) :
  let w' := with_pending (<[k := Completed]> (pending w)) w in
  (∀ e sid, afterMedia k e sid (ChatStream.Failed err) w = catchBlock err w') ∧
  afterConnect k (Runtime.Rejected err) w = catchBlock err w' ∧
  afterOffer k (ChatStream.Failed err) w = catchBlock err w' ∧
  (∀ pc sdp,
     afterLocalDescription k pc sdp (ChatStream.Failed err) w = catchBlock err w').
Proof. repeat split. Qed.

(** The page of the scenarios: the SDK initialised, the module loaded. *)
Definition callPage : World :=
  boot
    (EventLoop.api
       (EventLoop.Initialize
          (ChatSession.mkCredentials
             (Some (ChatSession.ValidUrl "h.example" "/api/chat")) None None))
       (Runtime.boot 0 (λ _, []) (Some "device-1") Runtime.wording0)).

(** [startCall] up to the connection request. *)
Definition connecting : list Event :=
  [ SetCallCallbacks
      (mkCallbacksArg (Some (Some "onCallStatus")) (Some (Some "onCallError")));
    StartCall None;
    MediaResult 0%nat (ChatStream.Responded [mkTrack "audio" true false]) ].

(** Scenario D up to the offer: [startCall] ran to its end. *)
Definition scenarioD : list Event :=
  connecting ++
  [ WsOpen 0%nat;
    OfferResult 0%nat (ChatStream.Responded "v=0");
    LocalDescriptionResult 0%nat (ChatStream.Responded ()) ].

(** What a run leaves to observe: the status, for each track whether it
    is stopped, for each peer connection whether it is closed, for each
    socket the calls of [close()], and what the callbacks and the browser
    saw. *)
Definition observe (o : option World)
    : option (string * list (list bool) * list bool * list nat * list Effect) :=
  match o with
  | Some w =>
      Some (callStatus (call w), map (map stopped) (streams w),
            map closed (peers w), map closeCalls (sockets w), trace w)
  | None => None
  end.

(** C8 (the code departs from the claim). With the offer out and no
    answer, the socket closes: the status is still connecting, the track
    runs, the peer connection is open, [close()] was not called on the
    socket and no callback ran; a [startCall] after that is refused, the
    status being connecting still. The socket fails and then closes: the
    status is error and the error callback was told, without teardown and
    without a disconnected status. The socket fails while [startCall]
    awaits the connection: the [catch] block of [startCall] does tear
    down -- after both callbacks ran. *)
Lemma socket_closes_after_offer_without_teardown :
  observe (run (scenarioD ++ [WsClose 0%nat]) callPage)
  = Some ("connecting", [[false]], [false], [0%nat],
          [CallStatus "onCallStatus" "connecting";
           CallError "onCallError" None]) ∧
  observe (run (scenarioD ++ [WsClose 0%nat; StartCall None]) callPage)
  = observe (run (scenarioD ++ [WsClose 0%nat]) callPage) ∧
  observe (run (scenarioD ++ [WsError 0%nat (mkError None); WsClose 0%nat])
             callPage)
  = Some ("error", [[false]], [false], [0%nat],
          [CallStatus "onCallStatus" "connecting";
           CallError "onCallError" None;
           CallStatus "onCallStatus" "error";
           CallError "onCallError" (Some "Unable to connect voice")]) ∧
  observe (run (connecting ++ [WsError 0%nat (mkError None)]) callPage)
  = Some ("disconnected", [[true]], [true], [1%nat],
          [CallStatus "onCallStatus" "connecting";
           CallError "onCallError" None;
           CallStatus "onCallStatus" "error";
           CallError "onCallError" (Some "Unable to connect voice");
           CallStatus "onCallStatus" "error";
           CallError "onCallError" (Some "Unable to connect voice");
           PeerConnectionClosed 0%nat;
           TrackStopped 0%nat 0%nat;
           SocketCloseCalled 0%nat]).
Proof.
  split; [vm_compute; reflexivity|].
  split; [vm_compute; reflexivity|].
  split; vm_compute; reflexivity.
Qed.

(** The worlds of the scenarios: scenario D with the offer out, and the
    same call while [startCall] awaits the offer. *)
Definition offered : World := default callPage (run scenarioD callPage).

Definition offering : World :=
  default callPage (run (connecting ++ [WsOpen 0%nat]) callPage).

End CallFacts.

(** ** utils.js: the text of a [uuidv7] *)

Module UuidFacts.

Import Utils UtilsFacts.

Local Open Scope Z_scope.
Local Open Scope list_scope.

(** A lower-case hexadecimal digit. *)
Definition lowerHex (c : ascii) : bool :=
  bool_decide (c ∈ list_ascii_of_string "0123456789abcdef").

Lemma hex_digit_lowerHex (d : Z) : lowerHex (hex_digit d) = true.
Proof. unfold hex_digit. repeat case_match; reflexivity. Qed.

(** The sixteen bytes, one by one. *)
Lemma uuidv7_bytes_shape (t : Z) (rnd : list Z) :
  ∃ b0 b1 b2 b3 b4 b5 b6 b7 b8 b9 b10 b11 b12 b13 b14 b15,
    uuidv7_bytes t rnd
    = [b0; b1; b2; b3; b4; b5; b6; b7; b8; b9; b10; b11; b12; b13; b14; b15] ∧
    b6 / 16 = 7 ∧ b8 / 64 = 2 ∧ 0 ≤ b8 < 256.
Proof.
  unfold uuidv7_bytes, u8_store, getRandomValues. cbn [fmap list_fmap seq].
  cbn [list_insert insert lookup list_lookup lookup_total list_lookup_total].
  do 16 eexists. split; [reflexivity|]. split; [|split].
  - apply version_nibble. apply Z.mod_pos_bound. lia.
  - apply variant_bits. apply Z.mod_pos_bound. lia.
  - apply Z.mod_pos_bound. lia.
Qed.

Lemma variant_digit (b : Z) :
  0 ≤ b < 256 → b / 64 = 2 →
  hex_digit (b / 16) ∈ list_ascii_of_string "89ab".
Proof.
  intros Hb H2.
  assert (H : b / 16 = 8 ∨ b / 16 = 9 ∨ b / 16 = 10 ∨ b / 16 = 11).
  { Z.to_euclidean_division_equations. lia. }
  destruct H as [H | [H | [H | H] ] ]; rewrite H; cbn; repeat constructor.
Qed.

(** Bring the text of [uuidv7] to its thirty-six characters, the digits
    named and known to be hexadecimal. *)
Ltac uuid_text t rnd :=
  let Hbytes := fresh "Hbytes" in
  let H6 := fresh "H6" in
  let H8 := fresh "H8" in
  let Hb8 := fresh "Hb8" in
  let H19 := fresh "H19" in
  let Hhex := fresh "Hhex" in
  destruct (uuidv7_bytes_shape t rnd)
    as (b0 & b1 & b2 & b3 & b4 & b5 & b6 & b7 & b8 & b9 & b10 & b11 & b12
        & b13 & b14 & b15 & Hbytes & H6 & H8 & Hb8);
  unfold uuidv7; rewrite Hbytes; unfold hex2, slice;
  cbn [fmap list_fmap]; rewrite H6; change (hex_digit 7) with "7"%char;
  assert (H19 := variant_digit b8 Hb8 H8);
  assert (Hhex := hex_digit_lowerHex);
  repeat match goal with
         | |- context [hex_digit ?x] =>
             let c := fresh "c" in
             let Hc := fresh "Hc" in
             pose proof (Hhex x) as Hc;
             generalize dependent (hex_digit x); intros c; intros
         end;
  match goal with
  | |- context [String.append ?s ?s'] =>
      let r := eval vm_compute in (String.append s s') in
      change (String.append s s') with r
  end.

Lemma uuidv7_length (t : Z) (rnd : list Z) :
  String.length (uuidv7 t rnd) = 36%nat.
Proof. uuid_text t rnd. reflexivity. Qed.

(** X1. Whatever the time and the random bytes, the text [uuidv7]
    returns has 36 characters: hyphens at the positions 8, 13, 18 and 23
    and lower-case hexadecimal digits everywhere else; the digit at
    position 14 is the version 7 and the digit at position 19 is one of
    8, 9, a, b (the variant). *)
Theorem uuidv7_text_well_formed (t : Z) (rnd : list Z) :
  String.length (uuidv7 t rnd) = 36%nat ∧
  (∀ i c, String.get i (uuidv7 t rnd) = Some c →
     if bool_decide (i ∈ [8; 13; 18; 23]%nat) then c = "-"%char
     else lowerHex c = true) ∧
  String.get 14 (uuidv7 t rnd) = Some "7"%char ∧
  (∃ c, String.get 19 (uuidv7 t rnd) = Some c ∧
        c ∈ list_ascii_of_string "89ab").
Proof.
  uuid_text t rnd.
  split; [reflexivity|]. split; [|split].
  - intros i x Hi.
    do 36 (destruct i as [|i];
           [cbn in Hi; injection Hi as <-;
            first [reflexivity | assumption]|]).
    discriminate.
  - reflexivity.
  - eexists. split; [reflexivity|]. assumption.
Qed.

End UuidFacts.

(** ** The identity of the user (utils.js, chat.js) *)

Module IdentityFacts.

Import Js Runtime ChatSession Chat UuidFacts.

Local Open Scope Z_scope.
Local Open Scope list_scope.

Lemma uuidv7_truthy (t : Z) (rnd : list Z) :
  truthy_str (Some (Utils.uuidv7 t rnd)) = true.
Proof.
  pose proof (uuidv7_length t rnd) as H. cbn.
  destruct (Utils.uuidv7 t rnd); [discriminate | reflexivity].
Qed.

(** What [getDeviceId] does, by what local storage holds. *)
Lemma getDeviceId_stored (w : World) (d : string) :
  chatDeviceId w = Some d → truthy_str (Some d) = true →
  getDeviceId w = Return d w.
Proof.
  intros Hd Ht. unfold getDeviceId, bind, gets. rewrite Hd, Ht. reflexivity.
Qed.

Lemma getDeviceId_fresh (w : World) :
  truthy_str (chatDeviceId w) = false →
  getDeviceId w
  = Return (Utils.uuidv7 (clock w) (entropy w (draws w)))
      (with_chatDeviceId (Some (Utils.uuidv7 (clock w) (entropy w (draws w))))
         (with_draws (S (draws w)) w)).
Proof.
  intros Ht. unfold getDeviceId, bind, gets.
  destruct (chatDeviceId w) as [d|]; [rewrite Ht|]; reflexivity.
Qed.

(** Whatever storage holds, [getDeviceId] settles on an identifier. *)
Lemma getDeviceId_settles (w : World) :
  ∃ d w1,
    getDeviceId w = Return d w1 ∧ truthy_str (Some d) = true ∧
    chatDeviceId w1 = Some d ∧ chat w1 = chat w.
Proof.
  destruct (truthy_str (chatDeviceId w)) eqn:Ht.
  - destruct (chatDeviceId w) as [d|] eqn:Hd; [|discriminate].
    exists d, w. rewrite (getDeviceId_stored w d Hd Ht). auto.
  - rewrite (getDeviceId_fresh w Ht). eexists _, _.
    split; [reflexivity|]. split; [apply uuidv7_truthy|]. split; reflexivity.
Qed.

(** What [getExternalId] comes back with, and the two things it may have
    written: the stored identifier and the count of random draws. *)
Lemma getExternalId_settles (w : World) :
  ∃ e w1,
    getExternalId w = Return e w1 ∧ e ≠ "" ∧
    w1 = with_chatDeviceId (chatDeviceId w1) (with_draws (draws w1) w) ∧
    (if truthy_str (credentials (chat w) ≫= externalId)
     then credentials (chat w) ≫= externalId = Some e
     else chatDeviceId w1 = Some e).
Proof.
  assert (Hw : ∀ v, v = with_chatDeviceId (chatDeviceId v) (with_draws (draws v) v))
    by (intros []; reflexivity).
  assert (Hdev : ∃ d w1, getDeviceId w = Return d w1 ∧ d ≠ "" ∧
            w1 = with_chatDeviceId (chatDeviceId w1) (with_draws (draws w1) w) ∧
            chatDeviceId w1 = Some d).
  { destruct (getDeviceId_settles w) as (d & w1 & H1 & H2 & H3 & H4).
    exists d, w1. split; [exact H1|]. split; [intros ->; discriminate|].
    split; [|exact H3]. revert H1.
    destruct (truthy_str (chatDeviceId w)) eqn:Hs.
    - destruct (chatDeviceId w) as [d'|] eqn:Hd; [|discriminate].
      rewrite (getDeviceId_stored w d' Hd Hs). intros [= <- <-]. apply Hw.
    - rewrite (getDeviceId_fresh w Hs). intros [= <- <-]. destruct w; reflexivity. }
  unfold getExternalId, bind, gets.
  destruct (credentials (chat w) ≫= externalId) as [e|] eqn:He.
  - destruct (truthy_str (Some e)) eqn:Ht.
    + exists e, w. split; [reflexivity|]. split; [intros ->; discriminate|].
      split; [apply Hw | reflexivity].
    + destruct Hdev as (d & w1 & H1 & H2 & H3 & H4). exists d, w1. auto.
  - destruct Hdev as (d & w1 & H1 & H2 & H3 & H4). exists d, w1. auto.
Qed.

(** X2. [getDeviceId] returns the identifier local storage holds, and
    then changes nothing; when storage holds none (or an empty one) it
    returns a fresh [uuidv7] and stores it. Either way the identifier is
    not empty, it is what storage holds afterwards, and a second call
    returns the same identifier and changes nothing. *)
Theorem getDeviceId_is_stable (w : World) :
  ∃ d w1,
    getDeviceId w = Return d w1 ∧
    d ≠ "" ∧
    chatDeviceId w1 = Some d ∧
    getDeviceId w1 = Return d w1 ∧
    (if truthy_str (chatDeviceId w)
     then chatDeviceId w = Some d ∧ w1 = w
     else d = Utils.uuidv7 (clock w) (entropy w (draws w)) ∧
          draws w1 = S (draws w)).
Proof.
  destruct (truthy_str (chatDeviceId w)) eqn:Ht.
  - destruct (chatDeviceId w) as [d|] eqn:Hd; [|discriminate].
    exists d, w. rewrite (getDeviceId_stored w d Hd Ht).
    repeat split; try assumption.
    intros ->. discriminate.
  - rewrite (getDeviceId_fresh w Ht).
    eexists _, _. split; [reflexivity|].
    pose proof (uuidv7_truthy (clock w) (entropy w (draws w))) as Hu.
    split; [intros H; rewrite H in Hu; discriminate|].
    split; [reflexivity|]. split; [|split; reflexivity].
    apply getDeviceId_stored; [reflexivity | exact Hu].
Qed.

(** X3. [getExternalId] returns the [externalId] of the credentials when
    it is not empty, without reading or writing local storage; otherwise
    it is [getDeviceId]. In both cases a second call returns the same
    identifier and changes nothing more. *)
Theorem getExternalId_is_stable (w : World) :
  ∃ e w1,
    getExternalId w = Return e w1 ∧
    e ≠ "" ∧
    getExternalId w1 = Return e w1 ∧
    (if truthy_str (credentials (chat w) ≫= externalId)
     then credentials (chat w) ≫= externalId = Some e ∧ w1 = w
     else getDeviceId w = Return e w1).
Proof.
  assert (Hdev : ∀ v, truthy_str (credentials (chat v) ≫= externalId) = false →
                      getExternalId v = getDeviceId v).
  { intros v Hv. unfold getExternalId, bind, gets.
    destruct (credentials (chat v) ≫= externalId) as [e|]; [|reflexivity].
    rewrite Hv. reflexivity. }
  destruct (truthy_str (credentials (chat w) ≫= externalId)) eqn:Ht.
  - destruct (credentials (chat w) ≫= externalId) as [e|] eqn:He; [|discriminate].
    assert (Hw : getExternalId w = Return e w).
    { unfold getExternalId, bind, gets. rewrite He, Ht. reflexivity. }
    exists e, w. split; [apply Hw|]. split; [intros ->; discriminate|].
    split; [apply Hw|]. split; reflexivity.
  - destruct (getDeviceId_settles w) as (d & w1 & H1 & H2 & H3 & H4).
    exists d, w1. rewrite (Hdev w Ht). split; [exact H1|].
    split; [intros ->; discriminate|]. split; [|exact H1].
    rewrite Hdev by (rewrite H4; exact Ht).
    apply getDeviceId_stored; assumption.
Qed.

End IdentityFacts.

(** ** Invariants of every handler of the chat modules *)

Module RunFacts.

Import Js Runtime EventLoop ChatSession ChatStream SocketSession.
Import Logic LogicFacts EventLoopFacts ClosureFacts.

Local Open Scope Z_scope.
Local Open Scope list_scope.

(** The handlers event [e] runs keep [I]. *)
Definition handlersKeep (I : World → Prop) (e : Event) : Prop :=
  match e with
  | Call (Initialize c) => keeps I (Chat.initialize c)
  | Call (SetCallbacks c) => keeps I (Chat.setCallbacks c)
  | Call (StartChat sid auth history) => keeps I (startChat sid auth history)
  | Call (SendMessage text html) => keeps I (sendMessage text html)
  | Call Disconnect => keeps I ChatStream.disconnect
  | Call (SendWithAck f) => keeps I (Socket.sendWithAck f)
  | Call Reconnect => keeps I Socket.reconnect
  | Elapse _ => True
  | Fire _ => ∀ a, keeps I (timerCallback a)
  | SseOpen r ok =>
      ∀ x, keeps I (deliver r x (ChatStream.onopen ok);;
                    when ok (setRequestState r Streaming))
  | SseMessage r ev data =>
      ∀ x, keeps I (deliver r x (ChatStream.onmessage (rq_promise x) ev data))
  | SseError r er => ∀ x, keeps I (deliver r x (throw er))
  | SseClose r => keeps I (setRequestState r Finished)
  | WsOpen s => ∀ p, keeps I (updSocket s (with_readyState OPEN);; Socket.onopen p)
  | WsMessage s f =>
      keeps I (Socket.onmessage f) ∧ ∀ l, keeps I (Socket.onMessage l f)
  | WsError s er => ∀ p, keeps I (Socket.onerror p er)
  | WsClose s code =>
      keeps I (updSocket s (with_readyState CLOSED);; Socket.onclose s code)
  end.

(** What the event loop itself writes: the log of what a handler throws,
    the clock, and the timer that fires. *)
Definition loopKeeps (I : World → Prop) : Prop :=
  (∀ w l, I w → I (with_log l w)) ∧
  (∀ w c, I w → I (with_clock c w)) ∧
  (∀ w t x, I w → timers w !! t = Some x → active x = true →
            I (with_timers (<[t := rearm x]> (timers w)) w)).

Lemma step_keeps (I : World → Prop) (e : Event) (w w' : World) :
  loopKeeps I → handlersKeep I e → step e w = Some w' → I w → I w'.
Proof.
  intros (Hlog & Hclock & Hfire) He Hstep Hw.
  destruct e as [c|ms|t|r ok|r ev data|r er|r|s|s f|s er|s code];
    cbn [step] in Hstep.
  - injection Hstep as <-.
    destruct c; unfold api; (apply handle_keeps; [exact He | exact Hlog | exact Hw]).
  - destruct (_ && _); [|discriminate]. injection Hstep as <-. auto.
  - unfold fire in Hstep.
    destruct (timers w !! t) as [x|] eqn:Hx; [|discriminate].
    destruct (active x) eqn:Ha; [|discriminate].
    destruct (bool_decide _); [|discriminate]. injection Hstep as <-.
    apply handle_keeps; [apply He | exact Hlog | eauto].
  - unfold EventLoop.sse in Hstep.
    destruct (requests w !! r) as [x|]; [|discriminate].
    destruct (_ && _); [|discriminate]. injection Hstep as <-.
    apply handle_keeps; [apply He | exact Hlog | exact Hw].
  - unfold EventLoop.sse in Hstep.
    destruct (requests w !! r) as [x|]; [|discriminate].
    destruct (_ && _); [|discriminate]. injection Hstep as <-.
    apply handle_keeps; [apply He | exact Hlog | exact Hw].
  - unfold EventLoop.sse in Hstep.
    destruct (requests w !! r) as [x|]; [|discriminate].
    destruct (_ && _); [|discriminate]. injection Hstep as <-.
    apply handle_keeps; [apply He | exact Hlog | exact Hw].
  - unfold EventLoop.sse in Hstep.
    destruct (requests w !! r) as [x|]; [|discriminate].
    destruct (_ && _); [|discriminate]. injection Hstep as <-.
    apply handle_keeps; [exact He | exact Hlog | exact Hw].
  - unfold ws in Hstep.
    destruct (sockets w !! s) as [x|]; [|discriminate].
    destruct (bool_decide _); [|discriminate]. injection Hstep as <-.
    apply handle_keeps; [apply He | exact Hlog | exact Hw].
  - unfold ws in Hstep.
    destruct (sockets w !! s) as [x|]; [|discriminate].
    destruct (bool_decide _); [|discriminate]. injection Hstep as <-.
    destruct He as (Hm & Hl). apply dispatchMessage_keeps; auto.
  - unfold ws in Hstep.
    destruct (sockets w !! s) as [x|]; [|discriminate].
    destruct (negb _); [|discriminate]. injection Hstep as <-.
    apply handle_keeps; [apply He | exact Hlog | exact Hw].
  - unfold ws in Hstep.
    destruct (sockets w !! s) as [x|]; [|discriminate].
    destruct (negb _); [|discriminate]. injection Hstep as <-.
    apply handle_keeps; [exact He | exact Hlog | exact Hw].
Qed.

(** The listeners a frame is dispatched to keep what each of them
    keeps. *)
Lemma listeners_keep (I : World → Prop) (s : addr) (f : Frame)
    (ls : list AckListener) (v : World) :
  (∀ l, keeps I (Socket.onMessage l f)) → (∀ w l, I w → I (with_log l w)) →
  I v →
  I (foldl
       (λ w' l,
          if bool_decide (l ∈ default [] (listeners <$> sockets w' !! s))
          then handle (Socket.onMessage l f) w'
          else w')
       v ls).
Proof.
  intros Hl Hlog. revert v. induction ls as [|l ls IH]; intros v Hv; [exact Hv|].
  cbn [foldl]. apply IH. destruct (bool_decide _); [|exact Hv].
  apply handle_keeps; auto.
Qed.

(** A handler that reads the store and goes on from what it read. *)
Lemma keeps_read {S A B} (I : S → Prop) (f : S → A) (k : A → JS S B) :
  (∀ s, I s → I (store (k (f s) s))) → keeps I (bind (gets f) k).
Proof. intros H s Hs. exact (H s Hs). Qed.

Lemma keeps_write {S B} (I : S → Prop) (g : S → S) (k : () → JS S B) (s : S) :
  I (g s) → keeps I (k ()) → I (store (bind (modify g) k s)).
Proof. intros Hg Hk. exact (Hk (g s) Hg). Qed.

(** The walk through the handlers of an event. *)
Ltac handlers_by walk :=
  lazymatch goal with
  | |- handlersKeep _ ?e =>
      destruct e as [[]| | | | | | | | [] | |]; cbn [handlersKeep];
      try discriminate; intros;
      try lazymatch goal with |- ∀ a : TimerAction, _ => intros [] ; cbn [timerCallback] end;
      try lazymatch goal with |- _ ∧ _ => split; intros end;
      try exact I;
      walk
  end.

Ltac handlers_walk upd := handlers_by ltac:(keeps_walk upd).

End RunFacts.

(** ** The chat session over runs (chat.js) *)

Module SessionFacts.

Import Js Runtime EventLoop ChatSession ChatStream SocketSession.
Import Logic LogicFacts EventLoopFacts RunFacts.

Local Open Scope Z_scope.
Local Open Scope list_scope.

Definition registers (e : Event) : bool :=
  match e with
  | Call (SetCallbacks _) => true
  | _ => false
  end.

Definition initializes (e : Event) : bool :=
  match e with
  | Call (Initialize _) => true
  | _ => false
  end.

Ltac field_upd :=
  intros; cbn in *; repeat case_match; cbn in *;
  first [assumption | reflexivity | congruence].

Lemma callbacks_step (cbs : ChatCallbacks) (e : Event) (w w' : World) :
  negb (registers e) = true → step e w = Some w' →
  callbacks (chat w) = cbs → callbacks (chat w') = cbs.
Proof.
  intros He. apply (step_keeps (λ w, callbacks (chat w) = cbs)).
  - repeat split; field_upd.
  - handlers_walk field_upd.
Qed.

Lemma credentials_step (creds : option Credentials) (e : Event) (w w' : World) :
  negb (initializes e) = true → step e w = Some w' →
  credentials (chat w) = creds → credentials (chat w') = creds.
Proof.
  intros He. apply (step_keeps (λ w, credentials (chat w) = creds)).
  - repeat split; field_upd.
  - handlers_walk field_upd.
Qed.

(** X4. Over every run of the event loop: the callbacks object changes
    only by [setCallbacks], the credentials only by [initialize]. No other
    call and no event of a timer, a streaming request or a socket -- not
    [startChat], [disconnect] or an end frame, which reset the session --
    touches them. *)
Theorem registrations_persist (es : list Event) (w w' : World) :
  run es w = Some w' →
  (forallb (λ e, negb (registers e)) es = true →
   callbacks (chat w') = callbacks (chat w)) ∧
  (forallb (λ e, negb (initializes e)) es = true →
   credentials (chat w') = credentials (chat w)).
Proof.
  intros Hrun. split; intros Hes.
  - exact (run_keeps (λ v, callbacks (chat v) = callbacks (chat w)) _ es
             (callbacks_step _) w w' Hes Hrun eq_refl).
  - exact (run_keeps (λ v, credentials (chat v) = credentials (chat w)) _ es
             (credentials_step _) w w' Hes Hrun eq_refl).
Qed.

Lemma registrations_persist_witness :
  callbacks (chat SocketFacts.openedWorld) = callbacks (chat SocketFacts.page0).
Proof.
  destruct (registrations_persist SocketFacts.upgraded SocketFacts.page0
              SocketFacts.openedWorld) as [H _].
  - vm_compute. reflexivity.
  - apply H. vm_compute. reflexivity.
Defined.

End SessionFacts.

(** ** Starting a chat (chat.js) *)

Module StartChatFacts.

Import Js Runtime ChatSession ChatStream.
Import Logic LogicFacts CleanupFacts IdentityFacts.

Local Open Scope Z_scope.
Local Open Scope list_scope.

(** What a [startChat] that succeeds does not write. *)
Definition rest (w : World) :=
  (callbacks (chat w), credentials (chat w), transport (chat w),
   abortController (chat w), requestId (chat w), lastStreamId (chat w),
   sock w, promises w, controllers w, sockets w, requests w, timers w,
   clock w, engine w, log w).

Ltac rest_upd :=
  unfold rest; intros; cbn in *; repeat case_match; cbn in *;
  first [assumption | congruence].

Ltac splits := repeat lazymatch goal with |- _ ∧ _ => split end.

Lemma getExternalId_rest (P : World → Prop) :
  (∀ w d n, P w → P (with_chatDeviceId d (with_draws n w))) →
  triple P Chat.getExternalId (λ e w, P w ∧ e ≠ "") (λ _ _, False).
Proof.
  intros HP s Hs.
  destruct (getExternalId_settles s) as (e & s1 & -> & He & -> & _). auto.
Qed.

Section StartChat.

Variable payloadSessionId : option string.
Variable auth : Fetched (option string).
Variable history : Fetched (option (list HistoryMessage)).
Variable w0 : World.

(** The session once the configuration is there. *)
Definition configured (cfg : option string) (w : World) : Prop :=
  rest w = rest w0 ∧
  authenticated (chat w) = true ∧ configData (chat w) = cfg ∧
  (if authenticated (chat w0) then cfg = configData (chat w0)
   else auth = Responded cfg).

Definition fetched (msgs : list Message) : Prop :=
  if truthy_str payloadSessionId
  then ∃ h, history = Responded h ∧ msgs = fromHistory <$> default [] h
  else msgs = [].

(** What the [catch] block of [startChat] starts from. *)
Definition failing (e : Error) (w : World) : Prop :=
  carried (callbacks (chat w0)) (credentials (chat w0)) w ∧
  (authenticated (chat w0) = false → is_Some (credentials (chat w0)) →
   ∀ e0, auth = Failed e0 → e = e0).

Definition started
    (r : option string * list Message * option string) (w : World) : Prop :=
  let '(sid, msgs, cfg) := r in
  sid = payloadSessionId ∧ sessionId (chat w) = payloadSessionId ∧
  messages (chat w) = msgs ∧ fetched msgs ∧
  configured cfg w ∧
  ∃ c e, credentials (chat w0) = Some c ∧ e ≠ "" ∧
         sseUrl (chat w) = Some (mkSseUrl (endpoint c) e).

Lemma configured_failing cfg e w : configured cfg w → failing e w.
Proof.
  intros (Hr & _ & _ & Hc). split.
  - unfold rest in Hr. split; congruence.
  - intros Hb _ e0 He0. rewrite Hb in Hc. congruence.
Qed.

Lemma startChat_triple :
  triple (λ w, w = w0) (startChat payloadSessionId auth history) started
    (λ e w, chat w = set_credentials (credentials (chat w0))
                       (createSession (callbacks (chat w0))) ∧
            (authenticated (chat w0) = false → is_Some (credentials (chat w0)) →
             ∀ e0, auth = Failed e0 → e = e0)).
Proof.
  unfold startChat. apply triple_try_catch with (E' := failing).
  2:{ intros e s [Hc He]. pose proof (chat_cleanup_triple _ _ s Hc) as H.
      unfold bind. destruct (cleanup s); [cbn; auto | contradiction]. }
  apply triple_bind with (R := λ b w, w = w0 ∧ b = authenticated (chat w0)).
  { apply triple_gets. intros s ->. auto. }
  intros b. apply triple_bind with (R := configured).
  { destruct b; cbn [negb].
    - apply triple_gets. intros s [-> Hb]. unfold configured.
      rewrite <- Hb. auto.
    - unfold Chat.getCredentials.
      apply triple_bind
        with (R := λ c w, w = w0 ∧ false = authenticated (chat w0) ∧
                          c = credentials (chat w0)).
      { apply triple_gets. intros s [-> Hb]. auto. }
      intros [c|]; [destruct auth as [d|e0] eqn:Hauth|].
      + apply triple_bind
          with (R := λ _ w, rest w = rest w0 ∧ authenticated (chat w) = true ∧
                            authenticated (chat w0) = false).
        { apply triple_modify. intros s (-> & Hb & _). auto. }
        intros _. apply triple_bind with (R := λ _ w, configured d w).
        { apply triple_modify. intros s (Hr & Ha & Hb). unfold configured.
          rewrite Hb. repeat split; [rest_upd | rest_upd | exact Hauth]. }
        intros _. apply triple_ret. auto.
      + apply triple_throw. intros s (-> & _ & _). split; [split; reflexivity|].
        intros _ _ e1 He1. congruence.
      + apply triple_raise. intros s (-> & _ & Hc). split; [split; reflexivity|].
        intros _ [c Hc']. congruence. }
  intros cfg.
  apply triple_bind with (R := λ msgs w, configured cfg w ∧ fetched msgs).
  { unfold fetched. destruct (truthy_str payloadSessionId).
    - unfold Chat.getCredentials.
      apply triple_bind with (R := λ _ w, configured cfg w).
      { apply triple_gets. auto. }
      intros c. destruct (Socket.endpointMissing c).
      + apply triple_throw. intros s Hs. exact (configured_failing _ _ _ Hs).
      + destruct history as [h|e0] eqn:Hhist.
        * apply triple_ret. eauto.
        * apply triple_throw. intros s Hs. exact (configured_failing _ _ _ Hs).
    - apply triple_ret. auto. }
  intros msgs.
  apply triple_bind with (R := λ e w, (configured cfg w ∧ fetched msgs) ∧ e ≠ "").
  { eapply triple_weaken;
      [apply (getExternalId_rest (λ w, configured cfg w ∧ fetched msgs)) | | | ];
      cbn beta.
    - intros w d n [Hc Hf]. split; [|exact Hf].
      revert Hc. unfold configured. rest_upd.
    - auto.
    - auto.
    - contradiction. }
  intros e. unfold Chat.getCredentials.
  apply triple_bind
    with (R := λ c w, (configured cfg w ∧ fetched msgs) ∧ e ≠ "" ∧
                      c = credentials (chat w0)).
  { apply triple_gets. intros s (Hc & He). split; [exact Hc|]. split; [exact He|].
    destruct Hc as [(Hr & _) _]. unfold rest in Hr. congruence. }
  intros [c|].
  2:{ apply triple_raise. intros s ((Hc & _) & _). eapply configured_failing, Hc. }
  apply triple_bind
    with (R := λ _ w, (configured cfg w ∧ fetched msgs) ∧ e ≠ "" ∧
                      Some c = credentials (chat w0) ∧
                      sseUrl (chat w) = Some (mkSseUrl (endpoint c) e)).
  { apply triple_modify. intros s ((Hc & Hf) & He & Hcr).
    splits; first [assumption | reflexivity]. }
  intros _.
  apply triple_bind
    with (R := λ _ w, (configured cfg w ∧ fetched msgs) ∧ e ≠ "" ∧
                      Some c = credentials (chat w0) ∧
                      sseUrl (chat w) = Some (mkSseUrl (endpoint c) e) ∧
                      sessionId (chat w) = payloadSessionId).
  { apply triple_modify. intros s ((Hc & Hf) & He & Hcr & Hu).
    splits; first [assumption | reflexivity]. }
  intros _.
  apply triple_bind with (R := λ _ w, started (payloadSessionId, msgs, cfg) w).
  { apply triple_modify. intros s ((Hc & Hf) & He & Hcr & Hu & Hs).
    unfold started. splits; try assumption; try reflexivity.
    exists c, e. auto. }
  intros _. apply triple_ret. auto.
Qed.

End StartChat.

(** X5. [startChat] either returns what it stored -- the session id of
    the payload, the messages of that session's history (or none without
    a session id), the configuration it fetched or already had -- with
    the session authenticated and the stream URL built from the endpoint
    and a non-empty external id, and nothing else written; or it throws
    and leaves the session as [createSession] makes it, with only the
    callbacks and the credentials kept. A failed authentication is
    rethrown as it is. *)
Theorem startChat_outcome (sid : option string) (auth : Fetched (option string))
    (history : Fetched (option (list HistoryMessage))) (w : World) :
  match startChat sid auth history w with
  | Return (sid', msgs, cfg) w' =>
      sid' = sid ∧ sessionId (chat w') = sid ∧
      messages (chat w') = msgs ∧
      (if truthy_str sid
       then ∃ h, history = Responded h ∧ msgs = fromHistory <$> default [] h
       else msgs = []) ∧
      authenticated (chat w') = true ∧ configData (chat w') = cfg ∧
      (if authenticated (chat w) then cfg = configData (chat w)
       else auth = Responded cfg) ∧
      (∃ c e, credentials (chat w) = Some c ∧ e ≠ "" ∧
              sseUrl (chat w') = Some (mkSseUrl (endpoint c) e)) ∧
      rest w' = rest w
  | Throw e w' =>
      chat w' = set_credentials (credentials (chat w))
                  (createSession (callbacks (chat w))) ∧
      (authenticated (chat w) = false → is_Some (credentials (chat w)) →
       ∀ e0, auth = Failed e0 → e = e0)
  end.
Proof.
  pose proof (startChat_triple sid auth history w w eq_refl) as H.
  destruct (startChat sid auth history w) as [[[sid' msgs] cfg] w'|e w'];
    [|exact H].
  destruct H as (H1 & H2 & H3 & H4 & (H5 & H6 & H7 & H8) & H9).
  repeat (lazymatch goal with |- _ ∧ _ => split end); assumption.
Qed.

(** A session that holds a token, or was authenticated before, is
    authenticated after [initialize]. *)
Lemma initialize_authenticated (creds : Credentials) (w : World) :
  authenticated (chat w) || truthy_str (token creds) = true →
  ∃ w1, Chat.initialize creds w = Return () w1 ∧
        authenticated (chat w1) = true ∧
        credentials (chat w1) = Some creds ∧
        configData (chat w1) = configData (chat w).
Proof.
  intros H. unfold Chat.initialize, Chat.assign, bind, modify, when.
  destruct (truthy_str (token creds)); cbn.
  - eexists. split; [reflexivity|]. auto.
  - eexists. split; [reflexivity|]. rewrite orb_false_r in H. auto.
Qed.

(** X6. [initialize] stores the credentials and never clears the
    [authenticated] flag: with a token in the credentials, or on a
    session authenticated before, the [startChat] that follows makes no
    use of the configuration request -- it succeeds or fails the same
    whatever that request would answer, and what it returns as
    configuration is what the session held. *)
Theorem initialize_then_startChat_skips_authenticate
    (creds : Credentials) (sid : option string)
    (history : Fetched (option (list HistoryMessage))) (w : World) :
  authenticated (chat w) || truthy_str (token creds) = true →
  ∃ w1, Chat.initialize creds w = Return () w1 ∧
        credentials (chat w1) = Some creds ∧
        (∀ auth auth', startChat sid auth history w1
                       = startChat sid auth' history w1) ∧
        (∀ auth r w2, startChat sid auth history w1 = Return r w2 →
                      r.2 = configData (chat w)).
Proof.
  intros H. destruct (initialize_authenticated creds w H) as (w1 & H1 & H2 & H3 & H4).
  exists w1. split; [exact H1|]. split; [exact H3|]. split.
  - intros auth auth'. unfold startChat, try_catch.
    unfold bind, gets. cbn beta. rewrite H2. reflexivity.
  - intros auth r w2 Hr.
    pose proof (startChat_triple sid auth history w1 w1 eq_refl) as Ho.
    rewrite Hr in Ho. destruct r as [[sid' msgs] cfg].
    destruct Ho as (_ & _ & _ & _ & (_ & _ & _ & Hc) & _). rewrite H2 in Hc.
    cbn. congruence.
Qed.

Definition tokenCredentials : Credentials :=
  mkCredentials (Some (ValidUrl "chat.example" "/api")) (Some "jwt") None.

Lemma initialize_then_startChat_skips_authenticate_witness :
  ∃ w1, Chat.initialize tokenCredentials (boot 0 (λ _, []) None wording0) = Return () w1 ∧
        credentials (chat w1) = Some tokenCredentials ∧
        (∀ auth auth', startChat (Some "s1") auth (Responded None) w1
                       = startChat (Some "s1") auth' (Responded None) w1) ∧
        (∀ auth r w2, startChat (Some "s1") auth (Responded None) w1 = Return r w2 →
                      r.2 = None).
Proof.
  apply (initialize_then_startChat_skips_authenticate tokenCredentials
           (Some "s1") (Responded None) (boot 0 (λ _, []) None wording0)).
  reflexivity.
Defined.

End StartChatFacts.

(** ** The message list over runs (chat.js) *)

Module TranscriptFacts.

Import Js Runtime EventLoop ChatSession ChatStream SocketSession.
Import Logic LogicFacts EventLoopFacts RunFacts.

Local Open Scope Z_scope.
Local Open Scope list_scope.

(** The calls that replace the message list. *)
Definition resets (e : Event) : bool :=
  match e with
  | Call (StartChat _ _ _) | Call Disconnect => true
  | _ => false
  end.

(** The list holds the messages [ms], followed by at least one more. *)
Definition settled (ms : list Message) (w : World) : Prop :=
  ∃ tail, messages (chat w) = ms ++ tail ∧ tail ≠ [].

Lemma settled_snoc (ms : list Message) (m : Message) (w : World) :
  settled ms w →
  settled ms (with_chat (set_messages (messages (chat w) ++ [m]) (chat w)) w).
Proof.
  intros (tail & Hm & Ht). exists (tail ++ [m]). cbn. rewrite Hm, app_assoc.
  split; [reflexivity|]. destruct tail; discriminate.
Qed.

Lemma settled_replaceLast (ms : list Message) (u : Message) (w : World) :
  settled ms w →
  settled ms (with_chat (set_messages (replaceLast u (messages (chat w))) (chat w)) w).
Proof.
  intros (tail & Hm & Ht). exists (<[pred (length tail) := u]> tail). cbn.
  rewrite Hm. unfold replaceLast. split.
  - rewrite length_app. destruct tail as [|t tail]; [congruence|].
    replace (pred (length ms + length (t :: tail)))
      with (length ms + pred (length (t :: tail)))%nat by (cbn; lia).
    apply insert_app_r.
  - destruct tail; [congruence|]. cbn. destruct (length tail); discriminate.
Qed.

Ltac settled_upd :=
  intros; cbn beta;
  first [ apply settled_snoc; assumption
        | apply settled_replaceLast; assumption
        | unfold settled in *; cbn in *; repeat case_match; cbn in *; assumption ].

(** A handler that rewrites the last message reads the list and writes
    it back at once. *)
Ltac settled_rule :=
  lazymatch goal with
  | |- keeps _ (bind (gets (λ w, messages (chat w))) _) =>
      apply keeps_read; intros ? ?; cbn beta zeta;
      lazymatch goal with
      | |- _ (store (match last ?l with _ => _ end _)) =>
          destruct (last l); [|assumption]
      | |- _ => idtac
      end;
      lazymatch goal with
      | |- ?I (store _) =>
          apply (keeps_write I); [apply settled_replaceLast; assumption|]
      end
  | |- _ => keeps_step settled_upd
  end.

Lemma settled_step (ms : list Message) (e : Event) (w w' : World) :
  negb (resets e) = true → step e w = Some w' → settled ms w → settled ms w'.
Proof.
  intros He. apply (step_keeps (settled ms)).
  - repeat split; settled_upd.
  - handlers_by ltac:(repeat settled_rule).
Qed.

(** X7. Over every run without [startChat] and [disconnect], the message
    list never shrinks and only its last entry is ever rewritten: every
    message that had a successor keeps its place and its content. *)
Theorem earlier_messages_are_final (es : list Event) (w w' : World) :
  run es w = Some w' →
  forallb (λ e, negb (resets e)) es = true →
  (length (messages (chat w)) ≤ length (messages (chat w')))%nat ∧
  ∀ i, (S i < length (messages (chat w)))%nat →
       messages (chat w') !! i = messages (chat w) !! i.
Proof.
  intros Hrun Hes.
  destruct (messages (chat w)) as [|m0 l0] eqn:Hm using rev_ind.
  { split; [cbn; lia | cbn; lia]. }
  clear IHl0.
  assert (Hs : settled l0 w) by (exists [m0]; split; [exact Hm | discriminate]).
  pose proof (run_keeps (settled l0) _ es (settled_step l0) w w' Hes Hrun Hs)
    as (tail & Hm' & Ht).
  rewrite Hm'. rewrite !length_app. cbn. split.
  - destruct tail; [congruence | cbn; lia].
  - intros i Hi. rewrite !lookup_app_l by lia. reflexivity.
Qed.

Definition transcript : list Event :=
  [ Call (SendMessage "how are you" None); Elapse 200 ].

Definition later : World :=
  default SocketFacts.openedWorld (run transcript SocketFacts.openedWorld).

Lemma earlier_messages_are_final_witness :
  (length (messages (chat SocketFacts.openedWorld))
   ≤ length (messages (chat later)))%nat ∧
  ∀ i, (S i < length (messages (chat SocketFacts.openedWorld)))%nat →
       messages (chat later) !! i = messages (chat SocketFacts.openedWorld) !! i.
Proof.
  apply (earlier_messages_are_final transcript); vm_compute; reflexivity.
Defined.

End TranscriptFacts.

(** ** A stream that was aborted (chat.js) *)

Module SilenceFacts.

Import Js Runtime EventLoop ChatSession ChatStream SocketSession.
Import Logic LogicFacts EventLoopFacts RunFacts.

Local Open Scope Z_scope.
Local Open Scope list_scope.

(** The events of the streaming request [r]. *)
Definition ofRequest (r : addr) (e : Event) : bool :=
  match e with
  | SseOpen r' _ | SseMessage r' _ _ | SseError r' _ | SseClose r' =>
      bool_decide (r' = r)
  | _ => false
  end.

(** Request [r] listens to the signal of controller [c], which has
    aborted. *)
Definition cancelled (c r : addr) (w : World) : Prop :=
  controllers w !! c = Some true ∧ rq_signal <$> requests w !! r = Some c.

Lemma abort_stays (c a : addr) (l : list bool) :
  l !! c = Some true → <[a := true]> l !! c = Some true.
Proof.
  intros H. destruct (decide (a = c)) as [->|Hne].
  - apply list_lookup_insert_eq. eapply lookup_lt_Some, H.
  - rewrite list_lookup_insert_ne by exact Hne. exact H.
Qed.

Lemma signal_stays (c r a : addr) (st : RequestState) (x : Request)
    (l : list Request) :
  l !! a = Some x → rq_signal <$> l !! r = Some c →
  rq_signal <$> <[a := with_state st x]> l !! r = Some c.
Proof.
  intros Ha H. destruct (decide (a = r)) as [->|Hne].
  - rewrite list_lookup_insert_eq by (eapply lookup_lt_Some, Ha).
    rewrite Ha in H. exact H.
  - rewrite list_lookup_insert_ne by exact Hne. exact H.
Qed.

Lemma snoc_stays {A B} (f : A → B) (l : list A) (y : A) (i : addr) (b : B) :
  f <$> l !! i = Some b → f <$> (l ++ [y]) !! i = Some b.
Proof.
  intros H. destruct (l !! i) as [x|] eqn:Hx; [|discriminate].
  rewrite (lookup_app_l_Some _ _ _ _ Hx). exact H.
Qed.

Ltac cancelled_upd :=
  intros; unfold cancelled in *; cbn in *; repeat case_match; cbn in *;
  repeat lazymatch goal with
    | H : _ ∧ _ |- _ => destruct H
    | |- _ ∧ _ => split
    end;
  first [ assumption
        | apply abort_stays; assumption
        | apply (snoc_stays (λ b : bool, b)); rewrite option_fmap_id; assumption
        | apply lookup_app_l_Some; assumption
        | apply snoc_stays; assumption
        | eapply signal_stays; eassumption ].

Lemma cancelled_step (c r : addr) (e : Event) (w w' : World) :
  step e w = Some w' → cancelled c r w → cancelled c r w'.
Proof.
  apply (step_keeps (cancelled c r)).
  - repeat split; cancelled_upd.
  - handlers_walk cancelled_upd.
Qed.

Lemma cancelled_run (c r : addr) (es : list Event) (w w' : World) :
  run es w = Some w' → cancelled c r w → cancelled c r w'.
Proof.
  revert w. induction es as [|e es IH]; intros w Hrun Hw.
  - injection Hrun as <-. exact Hw.
  - cbn [run] in Hrun. destruct (step e w) as [w1|] eqn:He; [|discriminate].
    exact (IH _ Hrun (cancelled_step _ _ _ _ _ He Hw)).
Qed.

(** [disconnect] aborts the controller the session holds. *)
Lemma disconnect_cancels (c r : addr) (w : World) :
  abortController (chat w) = Some c → is_Some (controllers w !! c) →
  rq_signal <$> requests w !! r = Some c →
  cancelled c r (handle ChatStream.disconnect w).
Proof.
  intros Ha [b Hb] Hr. apply handle_logs; [cancelled_upd|].
  unfold ChatStream.disconnect. wp_run ltac:(rewrite ?Ha).
  apply wp_of_keeps; [keeps_walk cancelled_upd|].
  split; [|exact Hr]. cbn.
  apply list_lookup_insert_eq. eapply lookup_lt_Some, Hb.
Qed.

(** X8. Once [disconnect] has aborted the controller of the session, the
    streaming request that listens to it is dead for good: whatever
    happens afterwards, no open, message, error or close event of that
    request is delivered any more. *)
Theorem disconnect_silences_stream (c r : addr) (es : list Event) (w w' : World) :
  abortController (chat w) = Some c → is_Some (controllers w !! c) →
  rq_signal <$> requests w !! r = Some c →
  run (Call Disconnect :: es) w = Some w' →
  ∀ e, ofRequest r e = true → step e w' = None.
Proof.
  intros Ha Hb Hr Hrun e He.
  change (run es (handle ChatStream.disconnect w) = Some w') in Hrun.
  destruct (cancelled_run c r es _ _ Hrun (disconnect_cancels c r w Ha Hb Hr))
    as [Hc Hs].
  assert (Hsse : ∀ states k, EventLoop.sse r states k w' = None).
  { intros states k. unfold EventLoop.sse.
    destruct (requests w' !! r) as [x|]; [|reflexivity].
    injection Hs as Hs. unfold outstanding, aborted. rewrite Hs, Hc.
    cbn. rewrite andb_false_r. reflexivity. }
  destruct e; try discriminate; cbn in He; apply bool_decide_eq_true in He;
    subst; cbn [step]; apply Hsse.
Qed.

Definition disconnected : World :=
  default FailureFacts.streamingWorld
    (run [Call Disconnect; Call (SendMessage "again" None)]
       FailureFacts.streamingWorld).

Lemma disconnect_silences_stream_witness :
  step (SseMessage 0%nat "message" noData) disconnected = None ∧
  step (SseClose 0%nat) disconnected = None.
Proof.
  assert (H : ∀ e, ofRequest 0%nat e = true → step e disconnected = None).
  { apply (disconnect_silences_stream 0%nat 0%nat [Call (SendMessage "again" None)]
             FailureFacts.streamingWorld).
    - vm_compute. reflexivity.
    - exists false. vm_compute. reflexivity.
    - vm_compute. reflexivity.
    - vm_compute. reflexivity. }
  split; apply H; reflexivity.
Defined.

End SilenceFacts.

(** ** Where a message goes (chat.js) *)

Module SendFacts.

Import Js Runtime EventLoop ChatSession ChatStream SocketSession.
Import Logic LogicFacts EventLoopFacts.

Local Open Scope Z_scope.
Local Open Scope list_scope.

#[local] Arguments Utils.uuidv7 : simpl never.

Ltac send_facts :=
  repeat match goal with
  | H : _ !! _ = _ |- _ => rewrite H
  | H : _ (sock _) = _ |- _ => rewrite H
  | H : _ (chat _) = _ |- _ => rewrite H
  | H : _ (callbacks (chat _)) = _ |- _ => rewrite H
  | H : Socket.isConnected _ = _ |- _ => rewrite H
  | H : readyState _ = _ |- _ => rewrite H
  | |- context [last (_ ++ [_])] => rewrite last_snoc
  | |- context [replaceLast _ (_ ++ [_])] => rewrite ReassemblyFacts.replaceLast_snoc
  end.

Ltac send_norm :=
  repeat (progress (unfold readyStateOf, Socket.isOpen; cbn; send_facts)).

(** A step of a handler; the comparison of the transport with 'socket' is
    decided first. *)
Ltac send_step :=
  first [ progress (rewrite (bool_decide_eq_true_2 _ (eq_refl ChatSession.socket)));
          cbn [andb]
        | wp_step send_norm ].

Ltac send_run := apply wp_close; repeat send_step.

(** What [isConnected] says of the store. *)
Lemma isConnected_open (w : World) :
  Socket.isConnected w = true →
  ∃ a x, socket (sock w) = Some a ∧ sockets w !! a = Some x ∧
         readyState x = OPEN ∧ socketDisconnected (sock w) = false.
Proof.
  unfold Socket.isConnected, Socket.isOpen, readyStateOf.
  destruct (socket (sock w)) as [a|]; [|discriminate].
  destruct (sockets w !! a) as [x|] eqn:Hx; cbn; [|discriminate].
  intros H. apply andb_true_iff in H as [H1 H2].
  apply bool_decide_eq_true in H1. apply negb_true_iff in H2. cbn in H1.
  exists a, x. repeat split; congruence.
Qed.

(** The frame [sendMessage] puts on the socket. *)
Definition messageFrame (text : string) (html : option string) (eventId : string)
    : Frame :=
  mkFrame "message" (Some eventId)
    (Some (set_text (Some text) (set_html html emptyMessage))) None.

(** X9. When the transport is 'socket' and the socket is connected, a
    [sendMessage] whose sleep is over sends one frame of type 'message'
    with the text, the html and a fresh uuid as event id on the socket
    of the session, and fulfils its promise with the session id. It adds
    no loading message, opens no streaming request and creates no abort
    controller. *)
Theorem sendMessage_over_socket (p : addr) (text : string) (html : option string)
    (w : World) :
  transport (chat w) = ChatSession.socket → Socket.isConnected w = true →
  ∃ a x w',
    resume p text html w = Return () w' ∧
    socket (sock w) = Some a ∧ sockets w !! a = Some x ∧
    sockets w'
    = <[a := mkWebSocket (ws_url x) (ws_connect x) (readyState x)
               (sent x ++ [messageFrame text html
                             (Utils.uuidv7 (clock w) (entropy w (draws w)))])
               (listeners x) (closeCalls x)]> (sockets w) ∧
    promises w'
    = match promises w !! p with
      | Some Pending =>
          <[p := Fulfilled (of_opt_string (sessionId (chat w)))]> (promises w)
      | _ => promises w
      end ∧
    chat w' = chat w ∧ requests w' = requests w ∧
    controllers w' = controllers w ∧ timers w' = timers w.
Proof.
  intros Htr Hconn.
  destruct (isConnected_open w Hconn) as (a & x & Ha & Hx & Hr & Hd).
  exists a, x.
  enough (H : wp (resume p text html)
                (λ _ w', sockets w'
                         = <[a := mkWebSocket (ws_url x) (ws_connect x) (readyState x)
                                    (sent x ++ [messageFrame text html
                                       (Utils.uuidv7 (clock w) (entropy w (draws w)))])
                                    (listeners x) (closeCalls x)]> (sockets w) ∧
                   promises w'
                   = match promises w !! p with
                     | Some Pending =>
                         <[p := Fulfilled (of_opt_string (sessionId (chat w)))]>
                           (promises w)
                     | _ => promises w
                     end ∧
                   chat w' = chat w ∧ requests w' = requests w ∧
                   controllers w' = controllers w ∧ timers w' = timers w)
                (λ _ _, False) w).
  { destruct (wp_returns _ _ _ H) as ([] & w' & Hret & HQ).
    exists w'. split; [exact Hret|]. split; [exact Ha|]. split; [exact Hx|].
    exact HQ. }
  unfold resume.
  destruct (promises w !! p) as [[]|] eqn:Hp;
    send_run; send_norm; repeat split; reflexivity.
Qed.

Lemma sendMessage_over_socket_witness :
  ∃ w', resume 1%nat "hello" None SocketFacts.openedWorld = Return () w' ∧
        length (messages (chat w')) = 2%nat ∧
        requests w' = requests SocketFacts.openedWorld.
Proof.
  destruct (sendMessage_over_socket 1%nat "hello" None SocketFacts.openedWorld)
    as (a & x & w' & Hret & _ & _ & _ & _ & Hchat & Hreq & _).
  - vm_compute. reflexivity.
  - vm_compute. reflexivity.
  - exists w'. split; [exact Hret|]. split; [|exact Hreq].
    rewrite Hchat. vm_compute. reflexivity.
Defined.

(** The loading message once the [catch] block has marked it with the
    message [why] of the error. *)
Definition failedLoading (why : string) : Message :=
  {| id := None; role := Some "assistant"; text := Some ""; html := None;
     timestamp := None; loading := Some false; sources := None;
     done := Some true;
     errorText := Some (if String.eqb why ""
                        then "Failed to connect to the system" else why);
     video := None; channel := None |}.

(** X10. When a [sendMessage] whose sleep is over does not take the
    socket and the session holds no stream URL that parses -- no
    [startChat] succeeded, or the endpoint is not a URL -- it adds the
    loading message and marks it at once: role 'assistant', empty text,
    loading false, done true, and as error text the message of the
    TypeError that [new URL] raises, in the wording of the engine, or
    'Failed to connect to the system' should that message be empty. Its
    promise is rejected with that error; no streaming request is opened
    and no abort controller is created. *)
Theorem sendMessage_without_stream_url (p : addr) (text : string)
    (html : option string) (w : World) :
  bool_decide (transport (chat w) = ChatSession.socket) && Socket.isConnected w
  = false →
  parses (sseUrl (chat w)) = false →
  ∃ w',
    resume p text html w = Return () w' ∧
    messages (chat w')
    = messages (chat w)
      ++ [failedLoading (engine w (BadUrl (sseUrl (chat w))))] ∧
    promises w'
    = match promises w !! p with
      | Some Pending =>
          <[p := Rejected (Err (engine w (BadUrl (sseUrl (chat w)))))]>
            (promises w)
      | _ => promises w
      end ∧
    requests w' = requests w ∧ controllers w' = controllers w ∧
    abortController (chat w') = abortController (chat w) ∧
    sockets w' = sockets w ∧ timers w' = timers w.
Proof.
  intros Hsock Hurl.
  enough (H : wp (resume p text html)
                (λ _ w',
                   messages (chat w')
                   = messages (chat w)
                     ++ [failedLoading (engine w (BadUrl (sseUrl (chat w))))] ∧
                   promises w'
                   = match promises w !! p with
                     | Some Pending =>
                         <[p := Rejected
                                  (Err (engine w (BadUrl (sseUrl (chat w)))))]>
                           (promises w)
                     | _ => promises w
                     end ∧
                   requests w' = requests w ∧ controllers w' = controllers w ∧
                   abortController (chat w') = abortController (chat w) ∧
                   sockets w' = sockets w ∧ timers w' = timers w)
                (λ _ _, False) w).
  { destruct (wp_returns _ _ _ H) as ([] & w' & Hret & HQ).
    exists w'. split; [exact Hret | exact HQ]. }
  unfold resume. apply wp_close, wp_try_catch.
  unfold afterSleep, Chat.getTransport.
  apply wp_assoc. eapply wp_gets; [reflexivity|]. cbn beta.
  apply wp_assoc. eapply wp_gets; [reflexivity|]. cbn beta. rewrite Hsock.
  destruct (promises w !! p) as [[]|] eqn:Hp;
    destruct (onMessageAdd (callbacks (chat w))) as [f|] eqn:Hf;
    destruct (onMessageUpdate (callbacks (chat w))) as [g|] eqn:Hg;
    destruct (sseUrl (chat w)) as [u|] eqn:Hu;
    repeat first [ rewrite Hurl
                 | rewrite last_snoc; cbn beta iota zeta
                 | wp_step send_norm ];
    send_norm; repeat split; reflexivity.
Qed.

Lemma sendMessage_without_stream_url_witness :
  ∃ w', resume 0%nat "hello" None (boot 0 (λ _, []) None wording0)
        = Return () w' ∧
        messages (chat w')
        = [mkMessage None (Some "assistant") (Some "") None None (Some false)
             None (Some true) (Some "Invalid URL") None None] ∧
        requests w' = [].
Proof.
  destruct (sendMessage_without_stream_url 0%nat "hello" None
              (boot 0 (λ _, []) None wording0))
    as (w' & Hret & Hm & _ & Hreq & _).
  - reflexivity.
  - reflexivity.
  - exists w'. split; [exact Hret|]. split; [exact Hm | exact Hreq].
Defined.

End SendFacts.

(** ** Connecting the socket (socket.js) *)

Module ConnectFacts.

Import Js Runtime EventLoop ChatSession SocketSession.
Import Logic LogicFacts EventLoopFacts IdentityFacts.

Local Open Scope Z_scope.
Local Open Scope list_scope.

#[local] Arguments Utils.uuidv7 : simpl never.

Lemma snoc_lookup {A} (l : list A) (x : A) : (l ++ [x]) !! length l = Some x.
Proof. apply list_lookup_middle. reflexivity. Qed.

Lemma snoc_insert {A} (l : list A) (x y : A) :
  <[length l := y]> (l ++ [x]) = l ++ [y].
Proof.
  replace (length l) with (length l + 0)%nat by lia.
  rewrite insert_app_r. reflexivity.
Qed.

Ltac connect_facts :=
  repeat match goal with
  | H : _ !! _ = _ |- _ => rewrite H
  | H : _ (sock _) = _ |- _ => rewrite H
  | H : _ (chat _) = _ |- _ => rewrite H
  | H : Socket.endpointMissing _ = _ |- _ => rewrite H
  | H : Socket.getSocketEndpoint _ = _ |- _ => rewrite H
  | H : readyState _ = _ |- _ => rewrite H
  | |- context [(?l ++ [_]) !! length ?l] => rewrite snoc_lookup
  | |- context [<[length ?l := _]> (?l ++ [_])] => rewrite snoc_insert
  end.

(** Comparisons of values that are known are decided by evaluation. *)
Ltac decide_closed :=
  repeat match goal with
  | |- context [bool_decide ?P] =>
      let b := eval vm_compute in (bool_decide P) in
      lazymatch b with true => idtac | false => idtac end;
      change (bool_decide P) with b
  end.

Ltac connect_norm :=
  repeat (progress (unfold readyStateOf; cbn; connect_facts; decide_closed)).

Ltac connect_step :=
  first [ progress decide_closed; cbn [orb andb negb]
        | wp_step connect_norm ].

Ltac connect_run := apply wp_close; repeat connect_step.

(** The socket of the session is connecting or open. *)
Definition live (w : World) : bool :=
  let st := socket (sock w) ≫= readyStateOf w in
  bool_decide (st = Some CONNECTING) || bool_decide (st = Some OPEN).

(** How [connectSocket] settles its promise when it creates no socket. *)
Definition settlement (w : World) : Promise :=
  if live w
  then Fulfilled (VBool (bool_decide (socket (sock w) ≫= readyStateOf w = Some OPEN)))
  else if Socket.endpointMissing (credentials (chat w))
  then Rejected (Err "SDK not initialized. Please initialize SDK first.")
  else Rejected (Err ("Invalid endpoint while initializing SDK. "
                      +:+ "Please check the endpoint and try again.")).

(** X11. [connectSocket] creates at most one socket at a time, and none
    without an endpoint: while the socket of the session is connecting or
    open its promise is fulfilled at once, with whether the socket is
    open; without credentials or endpoint, or with an endpoint that is
    not a URL, the promise is rejected. In these cases the promise is all
    that changes: no socket, no timer, no write to the session. *)
Theorem connectSocket_without_new_socket (sessionId requestId : option string)
    (w : World) :
  live w = true ∨ Socket.getSocketEndpoint (credentials (chat w)) = None →
  Socket.connectSocket sessionId requestId w
  = Return (length (promises w))
      (with_promises (promises w ++ [settlement w]) w).
Proof.
  intros H.
  enough (Hwp : wp (Socket.connectSocket sessionId requestId)
                  (λ p w', p = length (promises w) ∧
                           w' = with_promises (promises w ++ [settlement w]) w)
                  (λ _ _, False) w).
  { destruct (wp_returns _ _ _ Hwp) as (p & w' & -> & -> & ->). reflexivity. }
  unfold settlement, live in *. unfold Socket.connectSocket, Socket.newPromiseWith.
  destruct (socket (sock w)) as [a|] eqn:Ha; cbn [mbind option_bind] in *.
  - unfold readyStateOf in *.
    destruct (sockets w !! a) as [x|] eqn:Hx; cbn [fmap option_fmap option_map] in *.
    + destruct (readyState x) eqn:Hr; cbn in H |- *.
      all: try (destruct H as [H|H]; [discriminate H|]).
      all: try (destruct (Socket.endpointMissing (credentials (chat w))) eqn:Hm).
      all: connect_run; connect_norm;
        (split; [reflexivity | unfold with_promises; cbn; connect_norm; reflexivity]).
    + destruct H as [H|H]; [discriminate H|].
      destruct (Socket.endpointMissing (credentials (chat w))) eqn:Hm;
        connect_run; connect_norm;
        (split; [reflexivity | unfold with_promises; cbn; connect_norm; reflexivity]).
  - destruct H as [H|H]; [discriminate H|].
    destruct (Socket.endpointMissing (credentials (chat w))) eqn:Hm;
      connect_run; connect_norm;
      (split; [reflexivity | unfold with_promises; cbn; connect_norm; reflexivity]).
Qed.

Lemma connectSocket_without_new_socket_witness :
  Socket.connectSocket (Some "s1") None SocketFacts.connectingWorld
  = Return (length (promises SocketFacts.connectingWorld))
      (with_promises
         (promises SocketFacts.connectingWorld ++ [Fulfilled (VBool false)])
         SocketFacts.connectingWorld).
Proof.
  apply (connectSocket_without_new_socket (Some "s1") None
           SocketFacts.connectingWorld).
  left. vm_compute. reflexivity.
Defined.

(** A query parameter that is set only when its value is not empty. *)
Definition param (o : option string) : option string :=
  if truthy_str o then o else None.

(** X12. With no socket connecting or open and an endpoint that parses,
    [connectSocket] creates one socket, to the host of the endpoint and
    its path followed by /wss, with the external id and, when they are
    not empty, the session id, the request id and the token as query
    parameters. The socket becomes the socket of the session and the
    promise stays pending. A connection timeout of 5000 ms is armed
    unless the session was connected before. *)
Theorem connectSocket_opens_socket (sessionId requestId : option string)
    (h path : string) (w : World) :
  live w = false →
  Socket.getSocketEndpoint (credentials (chat w)) = Some (h, path) →
  ∃ e w',
    Socket.connectSocket sessionId requestId w
    = Return (length (promises w)) w' ∧
    e ≠ "" ∧
    (if truthy_str (credentials (chat w) ≫= externalId)
     then credentials (chat w) ≫= externalId = Some e
     else chatDeviceId w' = Some e) ∧
    sockets w'
    = sockets w ++
      [mkWebSocket
         (mkSocketUrl h path e (param sessionId) (param requestId)
            (param (credentials (chat w) ≫= token)))
         (length (promises w)) CONNECTING [] [] []] ∧
    socket (sock w') = Some (length (sockets w)) ∧
    promises w' = promises w ++ [Pending] ∧
    chat w' = chat w ∧
    (if previouslyConnected (sock w)
     then timers w' = timers w ∧
          socketConnectionTimeout (sock w') = socketConnectionTimeout (sock w)
     else timers w'
          = timers w ++
            [mkTimer (clock w + Socket.SOCKET_TIMEOUT) None
               (SocketConnectionTimeout (length (promises w))) true] ∧
          socketConnectionTimeout (sock w') = Some (length (timers w))).
Proof.
  intros Hlive Hend.
  assert (Hm : Socket.endpointMissing (credentials (chat w)) = false).
  { revert Hend. unfold Socket.getSocketEndpoint, Socket.endpointMissing.
    destruct (credentials (chat w) ≫= endpoint) as [[]|]; [reflexivity | |];
      discriminate. }
  pose (s1 := with_promises (promises w ++ [Pending]) w).
  destruct (getExternalId_settles s1) as (e & s2 & He & Hne & Hs2 & Hid).
  exists e.
  enough (Hwp : wp (Socket.connectSocket sessionId requestId)
                  (λ p w', p = length (promises w) ∧
                     (if truthy_str (credentials (chat w) ≫= externalId)
                      then credentials (chat w) ≫= externalId = Some e
                      else chatDeviceId w' = Some e) ∧
                     sockets w'
                     = sockets w ++
                       [mkWebSocket
                          (mkSocketUrl h path e (param sessionId) (param requestId)
                             (param (credentials (chat w) ≫= token)))
                          (length (promises w)) CONNECTING [] [] []] ∧
                     socket (sock w') = Some (length (sockets w)) ∧
                     promises w' = promises w ++ [Pending] ∧
                     chat w' = chat w ∧
                     (if previouslyConnected (sock w)
                      then timers w' = timers w ∧
                           socketConnectionTimeout (sock w')
                           = socketConnectionTimeout (sock w)
                      else timers w'
                           = timers w ++
                             [mkTimer (clock w + Socket.SOCKET_TIMEOUT) None
                                (SocketConnectionTimeout (length (promises w)))
                                true] ∧
                           socketConnectionTimeout (sock w')
                           = Some (length (timers w))))
                  (λ _ _, False) w).
  { destruct (wp_returns _ _ _ Hwp) as (p & w' & Hret & -> & HQ).
    exists w'. split; [exact Hret|]. split; [exact Hne | exact HQ]. }
  set (d := chatDeviceId s2) in *. set (n := draws s2) in *.
  clearbody d n. subst s2. cbn in Hid.
  unfold Socket.connectSocket, Socket.newPromiseWith, param.
  unfold live, readyStateOf in Hlive.
  destruct (previouslyConnected (sock w)) eqn:Hp;
    destruct (socket (sock w)) as [a|] eqn:Ha; cbn in Hlive;
    try (destruct (sockets w !! a) as [x|] eqn:Hx; cbn in Hlive);
    try (destruct (readyState x) eqn:Hr; try discriminate Hlive);
    apply wp_close;
    repeat lazymatch goal with
           | |- wp (bind Chat.getExternalId _) _ _ _ => fail
           | |- _ => first [rewrite Hm | rewrite Hend | connect_step]
           end;
    (eapply wp_return; [exact He|]); cbn beta;
    repeat connect_step; connect_norm;
    (repeat lazymatch goal with |- _ ∧ _ => split end);
    first [reflexivity | exact Hid].
Qed.

Definition initialised : World :=
  default SocketFacts.page0 (run [Call (Initialize SocketFacts.credentials0)]
                               SocketFacts.page0).

Lemma connectSocket_opens_socket_witness :
  ∃ w', Socket.connectSocket (Some "s1") None initialised = Return 0%nat w' ∧
        socket (sock w') = Some 0%nat ∧
        sockets w'
        = [mkWebSocket
             (mkSocketUrl "chat.example" "/api/wss" "device-1" (Some "s1") None None)
             0%nat CONNECTING [] [] []] ∧
        socketConnectionTimeout (sock w') = Some 0%nat.
Proof.
  destruct (connectSocket_opens_socket (Some "s1") None "chat.example" "/api/wss"
              initialised)
    as (e & w' & Hret & _ & He & Hs & Hsock & _ & _ & Ht).
  - vm_compute. reflexivity.
  - vm_compute. reflexivity.
  - exists w'. split; [exact Hret|]. split; [exact Hsock|].
    pose proof Hret as Hw. vm_compute in Hw. injection Hw as <-.
    vm_compute. split; reflexivity.
Defined.

End ConnectFacts.

(** ** The timers of the socket session (socket.js) *)

Module TimerFacts.

Import Js Runtime EventLoop ChatSession SocketSession.
Import Logic LogicFacts EventLoopFacts RunFacts.

Local Open Scope Z_scope.
Local Open Scope list_scope.

(** Timer [t] was cleared, or fired as a timeout: it is not pending. *)
Definition dead (t : addr) (w : World) : Prop :=
  active <$> timers w !! t = Some false.

(** The session names the pending timer [t] in one of the fields [fs]. *)
Definition named (fs : list (SocketSession → option addr)) (t : addr)
    (s : SocketSession) : Prop :=
  foldr (λ f P, f s = Some t ∨ P) False fs.

Definition names (fs : list (SocketSession → option addr)) (t : addr)
    (w : World) : Prop :=
  is_Some (timers w !! t) ∧ (dead t w ∨ named fs t (sock w)).

Definition sessionTimers : list (SocketSession → option addr) :=
  [pingInterval; socketDisconnectedTimeout; socketConnectionTimeout].

Lemma present_insert {A} (l : list A) (a t : addr) (y : A) :
  is_Some (l !! t) → is_Some (<[a := y]> l !! t).
Proof.
  intros H. apply lookup_lt_is_Some. rewrite length_insert.
  apply lookup_lt_is_Some, H.
Qed.

Lemma present_snoc {A} (l : list A) (t : addr) (y : A) :
  is_Some (l !! t) → is_Some ((l ++ [y]) !! t).
Proof. intros [x H]. exists x. apply lookup_app_l_Some, H. Qed.

Lemma dead_cancel (l : list Timer) (a t : addr) (x : Timer) :
  l !! a = Some x → active <$> l !! t = Some false →
  active <$> <[a := cancel x]> l !! t = Some false.
Proof.
  intros Ha H. destruct (decide (a = t)) as [->|Hne].
  - rewrite list_lookup_insert_eq by (eapply lookup_lt_Some, Ha). reflexivity.
  - rewrite list_lookup_insert_ne by exact Hne. exact H.
Qed.

Lemma dead_rearm (l : list Timer) (a t : addr) (x : Timer) :
  l !! a = Some x → active x = true → active <$> l !! t = Some false →
  active <$> <[a := rearm x]> l !! t = Some false.
Proof.
  intros Ha Hx H. destruct (decide (a = t)) as [->|Hne].
  - rewrite Ha in H. cbn in H. congruence.
  - rewrite list_lookup_insert_ne by exact Hne. exact H.
Qed.

Lemma dead_snoc (l : list Timer) (t : addr) (y : Timer) :
  active <$> l !! t = Some false → active <$> (l ++ [y]) !! t = Some false.
Proof. apply SilenceFacts.snoc_stays. Qed.

Lemma kill (l : list Timer) (t : addr) (x : Timer) :
  l !! t = Some x → active <$> <[t := cancel x]> l !! t = Some false.
Proof.
  intros H. rewrite list_lookup_insert_eq by (eapply lookup_lt_Some, H).
  reflexivity.
Qed.

Ltac dead_upd :=
  intros; unfold dead in *; cbn in *; repeat case_match; cbn in *;
  first [ assumption
        | eapply dead_cancel; eassumption
        | eapply dead_rearm; eassumption
        | apply dead_snoc; assumption ].

Lemma dead_step (t : addr) (e : Event) (w w' : World) :
  step e w = Some w' → dead t w → dead t w'.
Proof.
  apply (step_keeps (dead t)).
  - repeat split; dead_upd.
  - handlers_walk dead_upd.
Qed.

Lemma dead_run (t : addr) (es : list Event) (w w' : World) :
  run es w = Some w' → dead t w → dead t w'.
Proof.
  revert w. induction es as [|e es IH]; intros w Hrun Hw.
  - injection Hrun as <-. exact Hw.
  - cbn [run] in Hrun. destruct (step e w) as [w1|] eqn:He; [|discriminate].
    exact (IH _ Hrun (dead_step _ _ _ _ He Hw)).
Qed.

Lemma dead_never_fires (t : addr) (w : World) :
  dead t w → step (Fire t) w = None.
Proof.
  unfold dead. cbn [step]. unfold fire.
  destruct (timers w !! t) as [x|]; [|reflexivity].
  cbn. intros [= ->]. reflexivity.
Qed.

(** What does not write the fields [fs] keeps what they name. *)
Ltac names_upd :=
  intros; unfold names, dead, sessionTimers in *; cbn in *;
  repeat case_match; cbn in *;
  repeat lazymatch goal with
    | H : _ ∧ _ |- _ => destruct H
    | |- _ ∧ _ => split
    end;
  first [ assumption
        | apply present_insert; assumption
        | apply present_snoc; assumption
        | lazymatch goal with
          | H : _ ∨ _ |- _ =>
              destruct H; [left|right];
              first [ assumption
                    | eapply dead_cancel; eassumption
                    | apply dead_snoc; assumption ]
          end ].

(** One block of [clearAllTimeouts]: the timer a field names is cleared
    and the field reset. *)
Definition block (f : SocketSession → option addr)
    (g : SocketSession → SocketSession) : M () :=
  i ← Socket.field f;
  when (is_some i) (clearTimer i;; Socket.assign g).

Lemma block_clears (f : SocketSession → option addr)
    (g : SocketSession → SocketSession)
    (fs : list (SocketSession → option addr)) (t : addr) :
  Forall (λ f', ∀ x, f' (g x) = f' x) fs →
  triple (names (f :: fs) t) (block f g) (λ _, names fs t) (λ _ _, False).
Proof.
  intros Hfs s [Hp Hs]. unfold block, Socket.field, Socket.assign, clearTimer,
    bind, gets, modify, when.
  assert (Hex : named fs t (sock s) → named fs t (g (sock s))).
  { clear Hs. induction Hfs as [|f' fs Hf' _ IH]; intros Hex; [exact Hex|].
    destruct Hex as [Hex|Hex]; [left; rewrite Hf'; exact Hex | right; auto]. }
  destruct (f (sock s)) as [a|] eqn:Hf; cbn.
  - destruct (timers s !! a) as [x|] eqn:Hx; cbn.
    + split; [apply present_insert, Hp|]. unfold dead. cbn.
      destruct Hs as [Hd|[Hs|Hs]]; [left; eapply dead_cancel; eassumption| |].
      * assert (a = t) by congruence. subst a. left. apply kill, Hx.
      * right. apply Hex, Hs.
    + split; [exact Hp|]. unfold dead. cbn.
      destruct Hs as [Hd|[Hs|Hs]]; [left; exact Hd| |].
      * assert (a = t) by congruence. subst a. destruct Hp as [x Hp]. congruence.
      * right. apply Hex, Hs.
  - split; [exact Hp|].
    destruct Hs as [Hd|[Hs|Hs]]; [left; exact Hd | congruence | right; exact Hs].
Qed.

(** [clearAllTimeouts] is three such blocks. *)
Lemma clearAllTimeouts_blocks :
  Socket.clearAllTimeouts
  = (block pingInterval (set_pingInterval None);;
     block socketDisconnectedTimeout (set_socketDisconnectedTimeout None);;
     block socketConnectionTimeout (set_socketConnectionTimeout None)).
Proof. reflexivity. Qed.

Lemma clearAllTimeouts_clears (t : addr) :
  triple (names sessionTimers t) Socket.clearAllTimeouts (λ _, dead t)
    (λ _ _, False).
Proof.
  rewrite clearAllTimeouts_blocks.
  apply triple_bind with (R := λ _, names [socketDisconnectedTimeout;
                                           socketConnectionTimeout] t).
  { apply (block_clears pingInterval (set_pingInterval None)).
    repeat constructor. }
  intros _.
  apply triple_bind with (R := λ _, names [socketConnectionTimeout] t).
  { apply (block_clears socketDisconnectedTimeout
             (set_socketDisconnectedTimeout None)).
    repeat constructor. }
  intros _.
  eapply triple_weaken;
    [ apply (block_clears socketConnectionTimeout
               (set_socketConnectionTimeout None) [] t); constructor
    | auto | | auto ].
  intros _ s [_ [Hd|Hex]]; [exact Hd | destruct Hex].
Qed.

(** A part of a handler that keeps [I] and does not throw. *)
Ltac inv_step upd :=
  lazymatch goal with
  | |- triple ?I (bind _ _) _ _ =>
      apply triple_bind with (R := λ _, I);
      [apply triple_invariant; [keeps_walk upd | total_walk] | intros ?]
  end.

Lemma disconnect_clears (t : addr) :
  triple (names sessionTimers t) Socket.disconnect (λ _, dead t) (λ _ _, False).
Proof.
  unfold Socket.disconnect.
  inv_step names_upd. inv_step names_upd. inv_step names_upd.
  apply triple_bind with (R := λ _, dead t); [apply clearAllTimeouts_clears|].
  intros _. apply triple_invariant; [keeps_walk dead_upd | total_walk].
Qed.

Lemma cleanup_clears (t : addr) :
  triple (names sessionTimers t) ChatStream.cleanup (λ _, dead t) (λ _ _, False).
Proof.
  unfold ChatStream.cleanup.
  inv_step names_upd. inv_step names_upd.
  apply triple_bind with (R := λ _, dead t); [apply disconnect_clears|].
  intros _. apply triple_invariant; [keeps_walk dead_upd | total_walk].
Qed.

Lemma onclose_clears (s : addr) (code : Z) (t : addr) :
  triple (λ w, names sessionTimers t w ∧ socket (sock w) = Some s)
    (updSocket s (with_readyState CLOSED);; Socket.onclose s code)
    (λ _, dead t) (λ _ _, False).
Proof.
  apply triple_bind
    with (R := λ _ w, names sessionTimers t w ∧ socket (sock w) = Some s).
  { apply triple_invariant; [keeps_walk names_upd | total_walk]. }
  intros _. unfold Socket.onclose, Socket.field.
  apply triple_bind with (R := λ v w, names sessionTimers t w ∧ v = Some s).
  { apply triple_gets. intros w [Hn Hs]. auto. }
  intros v. apply triple_pure. intros ->.
  rewrite bool_decide_eq_true_2 by reflexivity. cbn [when].
  inv_step names_upd. inv_step names_upd.
  apply clearAllTimeouts_clears.
Qed.

Lemma end_frame_clears (f : Frame) (t : addr) :
  type f = Socket.SocketEvents.END →
  triple (names sessionTimers t) (Socket.onmessage f) (λ _, dead t) (λ _ _, False).
Proof.
  intros Hf. unfold Socket.onmessage, Socket.handleSocketEvent. rewrite Hf.
  cbn [String.eqb Ascii.eqb Bool.eqb Socket.SocketEvents.END
       Socket.SocketEvents.MESSAGE Socket.SocketEvents.TYPING
       Socket.SocketEvents.TYPING_STOP].
  apply disconnect_clears.
Qed.

(** The events after which the socket session holds no timer. *)
Definition clearing (e : Event) (w : World) : bool :=
  match e with
  | Call Disconnect => true
  | WsClose s _ => bool_decide (socket (sock w) = Some s)
  | WsMessage _ f => String.eqb (type f) Socket.SocketEvents.END
  | _ => false
  end.

Lemma handle_leads {A} (P Q : World → Prop) (m : M A) (w : World) :
  triple P m (λ _, Q) (λ _ _, False) → P w → Q (handle m w).
Proof.
  intros Hm Hw. specialize (Hm w Hw). unfold handle.
  destruct (m w); [exact Hm | contradiction].
Qed.

Lemma clearing_step (t : addr) (e : Event) (w w' : World) :
  clearing e w = true → names sessionTimers t w →
  step e w = Some w' → dead t w'.
Proof.
  intros He Hn Hstep.
  destruct e as [[]| | | | | | | |s f| |s code]; try discriminate He;
    cbn [step clearing] in *.
  - injection Hstep as <-. exact (handle_leads _ _ _ _ (cleanup_clears t) Hn).
  - unfold ws in Hstep. destruct (sockets w !! s) as [x|]; [|discriminate].
    destruct (bool_decide _); [|discriminate]. injection Hstep as <-.
    apply String.eqb_eq in He. unfold dispatchMessage.
    apply listeners_keep; [intros l; keeps_walk dead_upd | dead_upd |].
    exact (handle_leads _ _ _ _ (end_frame_clears f t He) Hn).
  - unfold ws in Hstep. destruct (sockets w !! s) as [x|]; [|discriminate].
    destruct (negb _); [|discriminate]. injection Hstep as <-.
    apply bool_decide_eq_true in He.
    exact (handle_leads _ _ _ _ (onclose_clears s code t) (conj Hn He)).
Qed.

(** X13. [disconnect], an end frame and the closure of the session's
    socket clear the timers of the socket session for good: whatever
    happens afterwards, the ping interval, the pong deadline and the
    connection timeout that were pending never fire -- no ping is sent,
    no fallback to 'sse' is declared and no connection error is added on
    behalf of the connection that is gone. *)
Theorem cleared_timers_never_fire (t : addr) (e : Event) (es : list Event)
    (w w' : World) :
  clearing e w = true →
  is_Some (timers w !! t) →
  pingInterval (sock w) = Some t ∨ socketDisconnectedTimeout (sock w) = Some t ∨
  socketConnectionTimeout (sock w) = Some t →
  run (e :: es) w = Some w' →
  step (Fire t) w' = None.
Proof.
  intros He Hp Hn Hrun. cbn [run] in Hrun.
  destruct (step e w) as [w1|] eqn:Hstep; [|discriminate].
  apply dead_never_fires. apply (dead_run t es w1 w' Hrun).
  apply (clearing_step t e w w1 He); [|exact Hstep].
  split; [exact Hp|]. right. cbn. tauto.
Qed.

Lemma cleared_timers_never_fire_witness :
  step (Fire 2%nat)
    (default SocketFacts.openedWorld
       (run [Call Disconnect; Elapse 60000] SocketFacts.openedWorld))
  = None.
Proof.
  apply (cleared_timers_never_fire 2%nat (Call Disconnect) [Elapse 60000]
           SocketFacts.openedWorld).
  - reflexivity.
  - vm_compute. eexists. reflexivity.
  - left. vm_compute. reflexivity.
  - vm_compute. reflexivity.
Defined.

#[local] Arguments Utils.uuidv7 : simpl never.

Lemma lookup_insert_same {A} (l : list A) (i : addr) (x y : A) :
  l !! i = Some x → <[i := y]> l !! i = Some y.
Proof. intros H. apply list_lookup_insert_eq. eapply lookup_lt_Some, H. Qed.

Ltac open_facts :=
  repeat match goal with
  | H : ?l !! ?i = Some _ |- context [<[?i := _]> ?l !! ?i] =>
      rewrite (lookup_insert_same l i _ _ H)
  | H : _ !! _ = _ |- _ => rewrite H
  | H : _ (sock _) = _ |- _ => rewrite H
  | H : _ (callbacks (chat _)) = _ |- _ => rewrite H
  end.

Ltac open_norm := repeat (progress (unfold readyStateOf; cbn; open_facts)).

(** The open handler of the session's socket clears the connection
    timeout. *)
Lemma onopen_clears (s p t : addr) (x : WebSocket) (w : World) :
  socket (sock w) = Some s → sockets w !! s = Some x →
  socketConnectionTimeout (sock w) = Some t → is_Some (timers w !! t) →
  dead t (handle (updSocket s (with_readyState OPEN);; Socket.onopen p) w).
Proof.
  intros Hs Hx Hc [y Hy]. apply handle_logs; [dead_upd|].
  destruct (onTransportUpdate (callbacks (chat w))) as [g|] eqn:Hg;
    apply wp_close;
    repeat (lazymatch goal with
            | |- wp (bind Socket.startPingInterval _) _ _ _ => fail
            | |- _ => wp_step open_norm
            end);
    (apply wp_of_keeps; [keeps_walk dead_upd|]);
    unfold dead; cbn; apply kill, Hy.
Qed.

(** X14. Once the socket of the session has opened, the connection
    timeout armed by [connectSocket] is cleared for good: whatever
    happens afterwards it never fires, so that no 'Unable to establish
    connection' message is added by it and the connect promise is not
    rejected by it. *)
Theorem connection_timeout_cleared_on_open (s t : addr) (es : list Event)
    (w w' : World) :
  socket (sock w) = Some s →
  socketConnectionTimeout (sock w) = Some t → is_Some (timers w !! t) →
  run (WsOpen s :: es) w = Some w' →
  step (Fire t) w' = None.
Proof.
  intros Hs Hc Hp Hrun. cbn [run step] in Hrun. unfold ws in Hrun.
  destruct (sockets w !! s) as [x|] eqn:Hx; [|discriminate].
  destruct (bool_decide _); [|discriminate].
  apply dead_never_fires.
  apply (dead_run t es _ w' Hrun).
  apply (onopen_clears s (ws_connect x) t x w Hs Hx Hc Hp).
Qed.

Lemma connection_timeout_cleared_on_open_witness :
  step (Fire 1%nat)
    (default SocketFacts.connectingWorld
       (run [WsOpen 0%nat; Elapse 6000] SocketFacts.connectingWorld))
  = None.
Proof.
  apply (connection_timeout_cleared_on_open 0%nat 1%nat [Elapse 6000]
           SocketFacts.connectingWorld).
  - vm_compute. reflexivity.
  - vm_compute. reflexivity.
  - vm_compute. eexists. reflexivity.
  - vm_compute. reflexivity.
Defined.

End TimerFacts.

(** ** The channel while it is declared degraded (socket.js) *)

Module DegradedFacts.

Import Js Runtime EventLoop ChatSession SocketSession.
Import Logic LogicFacts EventLoopFacts RunFacts.

Local Open Scope Z_scope.
Local Open Scope list_scope.

(** The events that may end the degraded state or that send without
    asking whether the channel is degraded: the opening of a socket, a
    pong, and [sendWithAck]. *)
Definition silent (e : Event) : bool :=
  match e with
  | Call (SendWithAck _) => false
  | WsOpen _ => false
  | WsMessage _ f => negb (String.eqb (type f) "pong")
  | _ => true
  end.

(** The channel is declared degraded and socket [s] has sent [fs]. *)
Definition mute (s : addr) (fs : list Frame) (w : World) : Prop :=
  socketDisconnected (sock w) = true ∧ sent <$> sockets w !! s = Some fs.

Lemma sent_stays (s a : addr) (fs : list Frame) (x y : WebSocket)
    (l : list WebSocket) :
  l !! a = Some x → sent y = sent x → sent <$> l !! s = Some fs →
  sent <$> <[a := y]> l !! s = Some fs.
Proof.
  intros Ha Hy H. destruct (decide (a = s)) as [->|Hne].
  - rewrite list_lookup_insert_eq by (eapply lookup_lt_Some, Ha).
    rewrite Ha in H. cbn in *. congruence.
  - rewrite list_lookup_insert_ne by exact Hne. exact H.
Qed.

Ltac mute_upd :=
  intros; unfold mute in *; cbn in *; repeat case_match; cbn in *;
  repeat lazymatch goal with
    | H : _ ∧ _ |- _ => destruct H
    | |- _ ∧ _ => split
    end;
  first [ assumption
        | eapply sent_stays; [eassumption | reflexivity | assumption]
        | apply SilenceFacts.snoc_stays; assumption ].

(** [send] sends nothing while the channel is declared degraded. *)
Lemma send_mute (s : addr) (fs : list Frame) (f : Frame) :
  keeps (mute s fs) (Socket.send f).
Proof.
  intros v [Hd Hs]. unfold Socket.send, Socket.field, bind, gets.
  rewrite Hd. destruct (socket (sock v)); split; assumption.
Qed.

Ltac mute_rule :=
  lazymatch goal with
  | |- keeps _ (Socket.send _) => apply send_mute
  | H : String.eqb (type ?f) "pong" = false
    |- keeps _ (Socket.handleSocketEvent ?f) =>
      unfold Socket.handleSocketEvent; rewrite H
  | |- _ => keeps_step mute_upd
  end.

Lemma mute_step (s : addr) (fs : list Frame) (e : Event) (w w' : World) :
  silent e = true → step e w = Some w' → mute s fs w → mute s fs w'.
Proof.
  intros He. apply (step_keeps (mute s fs)).
  - repeat split; mute_upd.
  - handlers_by ltac:(try (cbn in He; apply negb_true_iff in He);
                      repeat mute_rule).
Qed.

Definition degraded (w : World) : Prop := socketDisconnected (sock w) = true.

Ltac degraded_upd :=
  intros; unfold degraded in *; cbn in *; repeat case_match; cbn in *;
  assumption.

Ltac degraded_rule :=
  lazymatch goal with
  | H : String.eqb (type ?f) "pong" = false
    |- keeps _ (Socket.handleSocketEvent ?f) =>
      unfold Socket.handleSocketEvent; rewrite H
  | |- _ => keeps_step degraded_upd
  end.

Lemma degraded_step (e : Event) (w w' : World) :
  silent e = true → step e w = Some w' → degraded w → degraded w'.
Proof.
  intros He. apply (step_keeps degraded).
  - repeat split; degraded_upd.
  - handlers_by ltac:(try (cbn in He; apply negb_true_iff in He);
                      repeat degraded_rule).
Qed.

(** X15. While the channel is declared degraded, [send] puts nothing on
    the wire: over every run without a pong, the opening of a socket or
    a [sendWithAck], the channel stays degraded and every socket has
    sent exactly what it had sent before -- not a ping of the interval,
    not the ping of [reconnect], not a message of [sendMessage]. *)
Theorem degraded_channel_sends_nothing (es : list Event) (w w' : World) :
  socketDisconnected (sock w) = true →
  forallb silent es = true →
  run es w = Some w' →
  socketDisconnected (sock w') = true ∧
  ∀ (s : addr) x, sockets w !! s = Some x →
                  ∃ x', sockets w' !! s = Some x' ∧ sent x' = sent x.
Proof.
  intros Hd Hes Hrun. split.
  - exact (run_keeps degraded _ es degraded_step w w' Hes Hrun Hd).
  - intros s x Hx.
    assert (Hm : mute s (sent x) w).
    { split; [exact Hd|]. rewrite Hx. reflexivity. }
    destruct (run_keeps (mute s (sent x)) _ es (mute_step _ _) w w' Hes Hrun Hm)
      as [_ H].
    destruct (sockets w' !! s) as [x'|]; [|discriminate].
    exists x'. split; [reflexivity|]. cbn in H. congruence.
Qed.

(** A page whose channel was declared degraded, and what the application
    does next. *)
Definition fallen : World :=
  default SocketFacts.page0 (run HeartbeatFacts.lapse HeartbeatFacts.heard).

Definition insisting : list Event :=
  [ Call Reconnect; Call (SendMessage "still there?" None); Elapse 200;
    Fire 4%nat ].

Lemma degraded_channel_sends_nothing_witness :
  socketDisconnected (sock (default fallen (run insisting fallen))) = true ∧
  ∃ x', sockets (default fallen (run insisting fallen)) !! 0%nat = Some x' ∧
        type <$> sent x' = ["ping"; "ping"].
Proof.
  destruct (degraded_channel_sends_nothing insisting fallen
              (default fallen (run insisting fallen))) as [H1 H2].
  - vm_compute. reflexivity.
  - vm_compute. reflexivity.
  - vm_compute. reflexivity.
  - split; [exact H1|].
    destruct (H2 0%nat (default (mkWebSocket (mkSocketUrl "" "" "" None None None)
                                   0%nat CLOSED [] [] [])
                          (sockets fallen !! 0%nat))) as (x' & Hx' & Hs).
    + vm_compute. reflexivity.
    + exists x'. split; [exact Hx'|]. rewrite Hs. vm_compute. reflexivity.
Defined.

(** The channel is declared connected and the transport is 'socket'. *)
Definition restored (w : World) : Prop :=
  socketDisconnected (sock w) = false ∧ transport (chat w) = ChatSession.socket.

Ltac restored_upd :=
  intros; unfold restored in *; cbn in *; repeat case_match; cbn in *;
  assumption.

(** X16. A pong that arrives while the channel is declared degraded
    ends the degraded state: the channel is declared connected again and
    the transport is back to 'socket', whatever listeners of
    acknowledgments run on the same frame. *)
Theorem pong_restores_socket_transport (s : addr) (f : Frame) (w w' : World) :
  type f = "pong" → socketDisconnected (sock w) = true →
  step (WsMessage s f) w = Some w' →
  socketDisconnected (sock w') = false ∧
  transport (chat w') = ChatSession.socket ∧
  Socket.isDisconnected w' = false.
Proof.
  intros Hf Hd Hstep. cbn [step] in Hstep. unfold ws in Hstep.
  destruct (sockets w !! s) as [x|]; [|discriminate].
  destruct (bool_decide _); [|discriminate]. injection Hstep as <-.
  enough (H : restored (dispatchMessage s f x w)).
  { destruct H as [H1 H2]. repeat split; assumption. }
  unfold dispatchMessage.
  apply listeners_keep; [intros l; keeps_walk restored_upd | restored_upd |].
  apply handle_logs; [restored_upd|].
  unfold Socket.onmessage, Socket.handleSocketEvent. rewrite Hf.
  cbn [String.eqb Ascii.eqb Bool.eqb].
  apply wp_close.
  repeat wp_step ltac:(cbn; rewrite ?Hd).
  apply wp_of_keeps; [keeps_walk restored_upd|].
  split; reflexivity.
Qed.

Lemma pong_restores_socket_transport_witness :
  socketDisconnected
    (sock (default fallen (step (WsMessage 0%nat HeartbeatFacts.pong) fallen)))
  = false ∧
  transport (chat (default fallen (step (WsMessage 0%nat HeartbeatFacts.pong) fallen)))
  = ChatSession.socket ∧
  Socket.isDisconnected
    (default fallen (step (WsMessage 0%nat HeartbeatFacts.pong) fallen))
  = false.
Proof.
  apply (pong_restores_socket_transport 0%nat HeartbeatFacts.pong fallen).
  - reflexivity.
  - vm_compute. reflexivity.
  - vm_compute. reflexivity.
Defined.

End DegradedFacts.

(** ** Requests that wait for an acknowledgment (socket.js) *)

Module AckFacts.

Import Js Runtime EventLoop ChatSession SocketSession.
Import Logic LogicFacts EventLoopFacts IdentityFacts ConnectFacts TimerFacts.

Local Open Scope Z_scope.
Local Open Scope list_scope.

#[local] Arguments Utils.uuidv7 : simpl never.

(** The event id [sendWithAck] sends and waits for. *)
Definition ackId (f : Frame) (w : World) : string :=
  if truthy_str (eventId f) then default "" (eventId f)
  else Utils.uuidv7 (clock w) (entropy w (draws w)).

Lemma ackId_truthy (f : Frame) (w : World) : truthy_str (Some (ackId f w)) = true.
Proof.
  unfold ackId. destruct (truthy_str (eventId f)) eqn:Hf.
  - destruct (eventId f); [exact Hf | discriminate].
  - apply uuidv7_truthy.
Qed.

(** Two stores with the same components are the same store. *)
Lemma world_eq (w1 w2 : World) :
  chat w1 = chat w2 → sock w1 = sock w2 → promises w1 = promises w2 →
  controllers w1 = controllers w2 → sockets w1 = sockets w2 →
  requests w1 = requests w2 → timers w1 = timers w2 → clock w1 = clock w2 →
  entropy w1 = entropy w2 → draws w1 = draws w2 →
  chatDeviceId w1 = chatDeviceId w2 → engine w1 = engine w2 →
  log w1 = log w2 → w1 = w2.
Proof. destruct w1, w2. cbn. intros. subst. reflexivity. Qed.

(** The frame types [handleSocketEvent] acts on whatever the event id. *)
Definition handled (t : string) : bool :=
  existsb (String.eqb t)
    ["pong"; Socket.SocketEvents.TYPING; Socket.SocketEvents.TYPING_STOP;
     Socket.SocketEvents.END].

Lemma filter_self (l : AckListener) : filter (λ l', l' ≠ l) [l] = [].
Proof.
  change (filter (λ l', l' ≠ l) [l]) with (if decide (l ≠ l) then [l] else []).
  apply decide_False. intros H. apply H. reflexivity.
Qed.

#[local] Arguments list_filter : simpl never.
#[local] Arguments filter : simpl never.

Ltac ack_facts :=
  repeat match goal with
  | H : ?l !! ?i = Some _ |- context [<[?i := _]> ?l !! ?i] =>
      rewrite (lookup_insert_same l i _ _ H)
  | H : _ !! _ = _ |- _ => rewrite H
  | H : _ (sock _) = _ |- _ => rewrite H
  | H : readyState _ = _ |- _ => rewrite H
  | H : listeners _ = _ |- _ => rewrite H
  | H : truthy_str _ = _ |- _ => rewrite H
  | H : eventId _ = _ |- _ => rewrite H
  | H : data _ = _ |- _ => rewrite H
  | |- context [(?l ++ [_]) !! length ?l] => rewrite snoc_lookup
  | |- context [<[length ?l := _]> (?l ++ [_])] => rewrite snoc_insert
  | |- context [<[?i := _]> (<[?i := _]> _)] => rewrite list_insert_insert_eq
  | |- context [filter _ [?l]] => rewrite (filter_self l)
  end.

Ltac ack_norm :=
  repeat (progress (unfold readyStateOf; cbn; ack_facts)).

(** X17. Without a socket, [sendWithAck] rejects its promise at once,
    with 'Socket instance not found or not connected', and does nothing
    else: no timer is armed, no listener registered, nothing sent. *)
Theorem sendWithAck_without_socket (f : Frame) (w : World) :
  socket (sock w) = None →
  Socket.sendWithAck f w
  = Return (length (promises w))
      (with_promises
         (promises w ++
            [Rejected (Err "Socket instance not found or not connected")]) w).
Proof.
  intros Hs.
  enough (Hwp : wp (Socket.sendWithAck f)
                  (λ p w', p = length (promises w) ∧
                           w' = with_promises
                                  (promises w ++
                                     [Rejected (Err "Socket instance not found or not connected")])
                                  w)
                  (λ _ _, False) w).
  { destruct (wp_returns _ _ _ Hwp) as (p & w' & -> & -> & ->). reflexivity. }
  unfold Socket.sendWithAck, Socket.newPromiseWith.
  wp_run ack_norm.
  split; [reflexivity | unfold with_promises; ack_norm; reflexivity].
Qed.

Lemma sendWithAck_without_socket_witness :
  Socket.sendWithAck SocketFacts.ackFrame SocketFacts.page0
  = Return 0%nat
      (with_promises
         [Rejected (Err "Socket instance not found or not connected")]
         SocketFacts.page0).
Proof.
  apply (sendWithAck_without_socket SocketFacts.ackFrame SocketFacts.page0).
  reflexivity.
Defined.

(** A frame [handleSocketEvent] lets pass. *)
Lemma unhandled_frame (r : Frame) (v : World) :
  handled (type r) = false → truthy_str (eventId r) = true →
  Socket.onmessage r v = Return () v.
Proof.
  unfold handled. cbn [existsb]. intros H Hid.
  repeat (apply orb_false_elim in H as [? H]).
  unfold Socket.onmessage, Socket.handleSocketEvent.
  repeat match goal with H : String.eqb _ _ = false |- _ => rewrite H; clear H end.
  destruct (String.eqb (type r) Socket.SocketEvents.MESSAGE); [|reflexivity].
  rewrite Hid. reflexivity.
Qed.

(** The store once [sendWithAck] has registered its request on the open
    socket [a]. *)
Definition awaiting (f : Frame) (a : addr) (x : WebSocket) (w : World) : World :=
  let p := length (promises w) in
  let t := length (timers w) in
  with_sockets
    (<[a := mkWebSocket (ws_url x) (ws_connect x) OPEN
               (sent x ++ [mkFrame (type f) (Some (ackId f w)) (data f) (error f)])
               [mkAckListener (ackId f w) t p] (closeCalls x)]> (sockets w))
    (with_draws (if truthy_str (eventId f) then draws w else S (draws w))
       (with_timers
          (timers w ++ [mkTimer (clock w + 5000) None (AutoRejectTimeout p) true])
          (with_promises (promises w ++ [Pending]) w))).

Lemma sendWithAck_registers (f : Frame) (a : addr) (x : WebSocket) (w : World) :
  socket (sock w) = Some a → sockets w !! a = Some x →
  readyState x = OPEN → listeners x = [] →
  Socket.sendWithAck f w = Return (length (promises w)) (awaiting f a x w).
Proof.
  intros Hs Hx Hr Hl.
  enough (Hwp : wp (Socket.sendWithAck f)
                  (λ p w', p = length (promises w) ∧ w' = awaiting f a x w)
                  (λ _ _, False) w).
  { destruct (wp_returns _ _ _ Hwp) as (p & w' & -> & -> & ->). reflexivity. }
  unfold Socket.sendWithAck, Socket.newPromiseWith, awaiting, ackId.
  destruct (truthy_str (eventId f)) eqn:Hf;
    wp_run ack_norm;
    (split; [reflexivity|]);
    apply world_eq; ack_norm;
    rewrite ?decide_False by apply not_elem_of_nil; reflexivity.
Qed.

(** How the listener settles the promise. *)
Definition answer (r : Frame) : Promise :=
  match data r with
  | Some d => Fulfilled (VObject d)
  | None => Rejected (Err (default "Unknown error" (error r)))
  end.

(** The store once the response has arrived. *)
Definition answered (f r : Frame) (a : addr) (x : WebSocket) (w : World) : World :=
  let p := length (promises w) in
  with_sockets
    (<[a := mkWebSocket (ws_url x) (ws_connect x) OPEN
               (sent x ++ [mkFrame (type f) (Some (ackId f w)) (data f) (error f)])
               [] (closeCalls x)]> (sockets w))
    (with_draws (if truthy_str (eventId f) then draws w else S (draws w))
       (with_timers
          (timers w ++ [mkTimer (clock w + 5000) None (AutoRejectTimeout p) false])
          (with_promises (promises w ++ [answer r]) w))).


(** The socket once the request is registered, and once it is answered. *)
Definition asked (f : Frame) (x : WebSocket) (w : World)
    (ls : list AckListener) : WebSocket :=
  mkWebSocket (ws_url x) (ws_connect x) OPEN
    (sent x ++ [mkFrame (type f) (Some (ackId f w)) (data f) (error f)])
    ls (closeCalls x).

Lemma awaiting_socket (f : Frame) (a : addr) (x : WebSocket) (w : World) :
  sockets w !! a = Some x →
  sockets (awaiting f a x w) !! a
  = Some (asked f x w [mkAckListener (ackId f w) (length (timers w))
                         (length (promises w))]).
Proof.
  intros Hx. unfold awaiting, asked. cbn [sockets with_sockets].
  apply list_lookup_insert_eq. eapply lookup_lt_Some, Hx.
Qed.

Lemma listener_settles (f r : Frame) (a : addr) (x : WebSocket) (w : World) :
  socket (sock w) = Some a → sockets w !! a = Some x →
  eventId r = Some (ackId f w) →
  handle (Socket.onMessage
            (mkAckListener (ackId f w) (length (timers w)) (length (promises w))) r)
    (awaiting f a x w)
  = answered f r a x w.
Proof.
  intros Hs Hx Hid.
  apply (handle_returns _ (λ w', w' = answered f r a x w)).
  unfold Socket.onMessage. cbn [ack_eventId ack_timeout ack_promise].
  rewrite Hid. rewrite bool_decide_eq_true_2 by reflexivity. cbn [when].
  unfold awaiting, answered, answer.
  destruct (data r) as [d|] eqn:Hd;
    wp_run ack_norm;
    apply world_eq; ack_norm; reflexivity.
Qed.

Lemma response_settles (f r : Frame) (a : addr) (x : WebSocket) (w : World) :
  socket (sock w) = Some a → sockets w !! a = Some x →
  eventId r = Some (ackId f w) → handled (type r) = false →
  step (WsMessage a r) (awaiting f a x w) = Some (answered f r a x w).
Proof.
  intros Hs Hx Hid Hty.
  pose proof (ackId_truthy f w) as Htr.
  cbn [step]. unfold ws. rewrite (awaiting_socket f a x w Hx).
  unfold asked at 1. cbn [readyState].
  rewrite bool_decide_eq_true_2 by reflexivity.
  f_equal. unfold dispatchMessage, asked. cbn [listeners foldl].
  assert (H0 : handle (Socket.onmessage r) (awaiting f a x w) = awaiting f a x w).
  { unfold handle. rewrite (unhandled_frame r _ Hty) by (rewrite Hid; exact Htr).
    reflexivity. }
  rewrite H0, (awaiting_socket f a x w Hx).
  unfold asked. cbn [fmap option_fmap option_map listeners default].
  rewrite bool_decide_eq_true_2 by (apply list_elem_of_singleton; reflexivity).
  apply listener_settles; assumption.
Qed.

(** X18. A request sent with [sendWithAck] on the open socket of the
    session, with no other acknowledgment awaited, and then a frame that
    carries the event id of the request (and is not a pong, typing or
    end frame): the promise is fulfilled with the [data] of the frame,
    or rejected with its error message ('Unknown error' without one)
    when it has no data; the listener is removed from the socket and the
    timeout of the request is cancelled. *)
Theorem acknowledged_request_settles (f r : Frame) (a : addr) (x : WebSocket)
    (w : World) :
  socket (sock w) = Some a → sockets w !! a = Some x →
  readyState x = OPEN → listeners x = [] →
  eventId r = Some (ackId f w) → handled (type r) = false →
  ∃ w',
    run [Call (SendWithAck f); WsMessage a r] w = Some w' ∧
    promises w' = promises w ++ [answer r] ∧
    timers w'
    = timers w ++
      [mkTimer (clock w + 5000) None (AutoRejectTimeout (length (promises w)))
         false] ∧
    ∃ x', sockets w' !! a = Some x' ∧ listeners x' = [] ∧
          sent x'
          = sent x ++ [mkFrame (type f) (Some (ackId f w)) (data f) (error f)].
Proof.
  intros Hs Hx Hr Hl Hid Hty. exists (answered f r a x w). split.
  - assert (H1 : step (Call (SendWithAck f)) w = Some (awaiting f a x w)).
    { cbn [step api]. unfold handle.
      rewrite (sendWithAck_registers f a x w Hs Hx Hr Hl). reflexivity. }
    cbn [run]. rewrite H1, (response_settles f r a x w Hs Hx Hid Hty).
    reflexivity.
  - unfold answered. cbn [promises timers sockets with_sockets with_draws
                          with_timers with_promises].
    split; [reflexivity|]. split; [reflexivity|].
    eexists. split; [apply list_lookup_insert_eq; eapply lookup_lt_Some, Hx|].
    split; reflexivity.
Qed.

Definition ackResponse : Frame :=
  mkFrame "ack" (Some "e1") (Some (set_text (Some "ok") emptyMessage)) None.

Lemma acknowledged_request_settles_witness :
  ∃ w',
    run [Call (SendWithAck SocketFacts.ackFrame); WsMessage 0%nat ackResponse]
      SocketFacts.openedWorld = Some w' ∧
    promises w'
    = promises SocketFacts.openedWorld ++
      [Fulfilled (VObject (set_text (Some "ok") emptyMessage))] ∧
    ∃ x', sockets w' !! 0%nat = Some x' ∧ listeners x' = [].
Proof.
  destruct (acknowledged_request_settles SocketFacts.ackFrame ackResponse 0%nat
              (default (mkWebSocket (mkSocketUrl "" "" "" None None None)
                          0%nat CLOSED [] [] [])
                 (sockets SocketFacts.openedWorld !! 0%nat))
              SocketFacts.openedWorld)
    as (w' & Hrun & Hp & _ & x' & Hx' & Hl & _).
  - vm_compute. reflexivity.
  - vm_compute. reflexivity.
  - vm_compute. reflexivity.
  - vm_compute. reflexivity.
  - vm_compute. reflexivity.
  - vm_compute. reflexivity.
  - exists w'. split; [exact Hrun|]. split; [exact Hp|].
    exists x'. split; [exact Hx' | exact Hl].
Defined.

End AckFacts.

(** ** The heartbeat deadline over runs (socket.js) *)

Module DeadlineFacts.

Import Js Runtime EventLoop ChatSession SocketSession.
Import Logic LogicFacts EventLoopFacts SocketFacts HeartbeatFacts RunFacts.

Local Open Scope Z_scope.
Local Open Scope list_scope.

#[local] Arguments Utils.uuidv7 : simpl never.
#[local] Arguments list_filter : simpl never.
#[local] Arguments filter : simpl never.

(** No listener of an acknowledgment on a socket of [ss] holds timer [d]
    as its timeout. *)
Definition unlistened (d : addr) (ss : list WebSocket) : Prop :=
  Forall (λ x, Forall (λ l, ack_timeout l ≠ d) (listeners x)) ss.

(** Timer [d] is neither the ping interval of the session nor the timeout
    of an acknowledgment. *)
Definition apart (d : addr) (w : World) : Prop :=
  pingInterval (sock w) ≠ Some d ∧ unlistened d (sockets w).

(** As long as no timer has the id [d], nobody holds it. *)
Definition fresh (d : addr) (w : World) : Prop :=
  (length (timers w) ≤ d)%nat → apart d w.


(** The channel is declared degraded and the transport is back to
    streaming. *)
Definition degraded (w : World) : Prop :=
  socketDisconnected (sock w) = true ∧ transport (chat w) = sse.


(** *** The listeners of the sockets *)



Lemma unlistened_more (d a : addr) (x y : WebSocket) (ss : list WebSocket)
    (l : AckListener) :
  ss !! a = Some x → ack_timeout l ≠ d →
  listeners y = (if decide (l ∈ listeners x) then listeners x
                 else listeners x ++ [l]) →
  unlistened d ss → unlistened d (<[a := y]> ss).
Proof.
  intros Ha Hne Hl Hu. apply Forall_insert; [exact Hu|].
  pose proof (Forall_lookup_1 _ _ _ _ Hu Ha) as Hx. cbn in Hx.
  rewrite Hl. destruct (decide _); [exact Hx|].
  apply Forall_app. split; [exact Hx | repeat constructor; exact Hne].
Qed.




(** *** An id that no timer has yet *)



Ltac ack_facts :=
  repeat match goal with
  | H : ?l !! ?i = Some _ |- context [<[?i := _]> ?l !! ?i] =>
      rewrite (TimerFacts.lookup_insert_same l i _ _ H)
  | H : _ !! _ = _ |- _ => rewrite H
  | H : _ (sock _) = _ |- _ => rewrite H
  | H : readyState _ = _ |- _ => rewrite H
  | H : truthy_str _ = _ |- _ => rewrite H
  | |- context [(?l ++ [_]) !! length ?l] => rewrite ConnectFacts.snoc_lookup
  | |- context [<[length ?l := _]> (?l ++ [_])] => rewrite ConnectFacts.snoc_insert
  end.

Ltac ack_norm := repeat (progress (unfold readyStateOf; cbn; ack_facts)).










(** *** The deadline, pending *)










(** *** The channel, degraded *)

Ltac degraded_upd :=
  intros; unfold degraded in *; cbn in *; repeat case_match; cbn in *;
  repeat lazymatch goal with
    | H : _ ∧ _ |- _ => destruct H
    | |- _ ∧ _ => split
    end;
  first [assumption | reflexivity].

Ltac degraded_rule :=
  lazymatch goal with
  | H : String.eqb (type ?f) "pong" = false
    |- keeps _ (Socket.handleSocketEvent ?f) =>
      unfold Socket.handleSocketEvent; rewrite H
  | |- _ => keeps_step degraded_upd
  end.








End DeadlineFacts.

(** ** The controls of a call (call.js) *)

Module CallControlFacts.

Import Js CallSession Call CallLoop Logic LogicFacts CallFacts.
Local Open Scope list_scope.

(** The first audio track of the microphone stream: the stream, its
    tracks, the index of the track and the track. *)
Definition firstAudio (w : World) : option (addr * list Track * nat * Track) :=
  match localStream (call w) with
  | Some s =>
      match streams w !! s with
      | Some ts =>
          match list_find (λ t, kind t = "audio") ts with
          | Some (i, t) => Some (s, ts, i, t)
          | None => None
          end
      | None => None
      end
  | None => None
  end.

Definition flip (t : Track) : Track := mkTrack (kind t) (negb (enabled t)) (stopped t).

Lemma flip_flip (t : Track) : flip (flip t) = t.
Proof. destruct t. unfold flip. cbn. rewrite negb_involutive. reflexivity. Qed.

(** The track that was flipped is still the first audio track. *)
Lemma list_find_flip (ts : list Track) (i : nat) (t : Track) :
  list_find (λ t, kind t = "audio") ts = Some (i, t) →
  list_find (λ t, kind t = "audio") (<[i := flip t]> ts) = Some (i, flip t).
Proof.
  intros H. apply list_find_Some in H as (Hi & Hk & Hbefore).
  apply list_find_Some. split; [|split].
  - apply list_lookup_insert_eq. eapply lookup_lt_Some, Hi.
  - exact Hk.
  - intros j y Hj Hlt. rewrite list_lookup_insert_ne in Hj by lia. eauto.
Qed.

(** What one [toggleMute] does when there is an audio track. *)
Lemma toggleMute_flip (w : World) (s : addr) (ts : list Track) (i : nat)
    (t : Track) :
  firstAudio w = Some (s, ts, i, t) →
  toggleMute w
  = Return (enabled t)
      (with_call (set_isMuted (enabled t) (call w))
         (with_streams (<[s := <[i := flip t]> ts]> (streams w)) w)).
Proof.
  intros Hf. unfold firstAudio in Hf.
  destruct (localStream (call w)) as [s'|] eqn:Hls; [|discriminate].
  destruct (streams w !! s') as [ts'|] eqn:Hts; [|discriminate].
  destruct (list_find _ ts') as [[i' t']|] eqn:Hfind; [|discriminate].
  injection Hf as -> -> -> ->.
  unfold toggleMute, field, assign, bind, gets, modify.
  cbn. rewrite Hls. cbn. rewrite Hts. cbn. rewrite Hfind. cbn.
  rewrite negb_involutive. reflexivity.
Qed.

(** X19. [toggleMute] flips the [enabled] flag of the first audio track
    of the microphone stream, of no other track, and returns whether the
    microphone is now muted, which is also what [isMuted] holds; a second
    call flips it back, so that the streams are as before. Without a
    stream or without an audio track it returns false and changes
    nothing. *)
Theorem toggleMute_flips_first_audio_track (w : World) :
  match firstAudio w with
  | Some (s, ts, i, t) =>
      ∃ w1 w2,
        toggleMute w = Return (enabled t) w1 ∧
        streams w1 = <[s := <[i := flip t]> ts]> (streams w) ∧
        isMuted (call w1) = enabled t ∧
        toggleMute w1 = Return (negb (enabled t)) w2 ∧
        streams w2 = streams w ∧
        isMuted (call w2) = negb (enabled t)
  | None => toggleMute w = Return false w
  end.
Proof.
  destruct (firstAudio w) as [[[[s ts] i] t]|] eqn:Hf.
  - pose proof Hf as Hf0. unfold firstAudio in Hf0.
    destruct (localStream (call w)) as [s'|] eqn:Hls; [|discriminate].
    destruct (streams w !! s') as [ts'|] eqn:Hts; [|discriminate].
    destruct (list_find _ ts') as [[i' t']|] eqn:Hfind; [|discriminate].
    injection Hf0 as -> -> -> ->.
    pose proof Hfind as Hfind0. apply list_find_Some in Hfind0 as (Hi & _ & _).
    set (w1 := with_call (set_isMuted (enabled t) (call w))
                 (with_streams (<[s := <[i := flip t]> ts]> (streams w)) w)).
    assert (Hf1 : firstAudio w1 = Some (s, <[i := flip t]> ts, i, flip t)).
    { unfold firstAudio, w1. cbn. rewrite Hls.
      rewrite list_lookup_insert_eq by (eapply lookup_lt_Some, Hts).
      rewrite (list_find_flip ts i t Hfind). reflexivity. }
    eexists w1, _. split; [exact (toggleMute_flip w s ts i t Hf)|].
    split; [reflexivity|]. split; [reflexivity|].
    split; [exact (toggleMute_flip w1 _ _ _ _ Hf1)|].
    cbn. rewrite flip_flip, !list_insert_insert_eq.
    rewrite (list_insert_id ts i t Hi), (list_insert_id _ s ts Hts).
    split; reflexivity.
  - unfold firstAudio in Hf.
    unfold toggleMute, field, assign, bind, gets, modify. cbn.
    destruct (localStream (call w)) as [s'|] eqn:Hls; [|reflexivity]. cbn.
    destruct (streams w !! s') as [ts'|] eqn:Hts; [|reflexivity]. cbn.
    destruct (list_find _ ts') as [[i' t']|] eqn:Hfind; [discriminate | reflexivity].
Qed.

(** [startCall] while a call is connecting or connected. *)
Lemma startCall_guard (sid : option string) (w : World) :
  callStatus (call w) = "connecting" ∨ callStatus (call w) = "connected" →
  startCall sid w = Return () w.
Proof.
  intros H. unfold startCall, try_catch, bind, field, gets.
  destruct H as [-> | ->]; reflexivity.
Qed.

(** X20. [startCall] never runs twice at a time: whatever the session,
    once a [startCall] has returned to its first [await] the call is
    connecting or connected, and a second [startCall] changes nothing --
    it asks for no second microphone stream and tells no callback. *)
Theorem startCall_is_not_reentrant (sid sid' : option string) (w : World) :
  ∃ w1,
    startCall sid w = Return () w1 ∧
    (callStatus (call w1) = "connecting" ∨ callStatus (call w1) = "connected") ∧
    startCall sid' w1 = Return () w1.
Proof.
  enough (H : ∃ w1, startCall sid w = Return () w1 ∧
                    (callStatus (call w1) = "connecting" ∨
                     callStatus (call w1) = "connected")).
  { destruct H as (w1 & H1 & H2). exists w1.
    split; [exact H1|]. split; [exact H2 | exact (startCall_guard sid' w1 H2)]. }
  destruct (String.eqb (callStatus (call w)) "connecting"
            || String.eqb (callStatus (call w)) "connected") eqn:Hg.
  - assert (H : callStatus (call w) = "connecting" ∨ callStatus (call w) = "connected").
    { apply orb_true_iff in Hg as [Hg|Hg]; apply String.eqb_eq in Hg; auto. }
    exists w. split; [exact (startCall_guard sid w H) | exact H].
  - enough (Hwp : wp (startCall sid)
                    (λ _ w1, callStatus (call w1) = "connecting") (λ _ _, False) w).
    { destruct (wp_returns _ _ _ Hwp) as ([] & w1 & H1 & H2).
      exists w1. split; [exact H1 | left; exact H2]. }
    unfold startCall. apply wp_close, wp_try_catch.
    unfold field at 1. apply wp_assoc. eapply wp_gets; [reflexivity|].
    cbn beta. rewrite Hg.
    destruct (callbacks (call w)) as [[f|] [g|]] eqn:Hcb;
      repeat wp_step norm; norm; reflexivity.
Qed.

Ltac control_facts :=
  repeat match goal with
  | H : ?l !! ?i = Some _ |- context [<[?i := _]> ?l !! ?i] =>
      rewrite (TimerFacts.lookup_insert_same l i _ _ H)
  | H : _ !! _ = _ |- _ => rewrite H
  | H : _ (call _) = _ |- _ => rewrite H
  | H : readyState _ = _ |- _ => rewrite H
  end.

Ltac control_norm :=
  repeat (progress (unfold isOpen, readyStateOf; cbn; control_facts;
                    ConnectFacts.decide_closed)).

(** The socket once [disconnectCall] is done with it: the end frame is
    out if the socket was open, [close()] was called once. *)
Definition closedBy (y : Socket) : Socket :=
  mkSocket (url y) (connect y)
    (match readyState y with
     | Runtime.CLOSED => Runtime.CLOSED
     | _ => Runtime.CLOSING
     end)
    (sent y ++ match readyState y with
               | Runtime.OPEN => [EndFrame]
               | _ => []
               end)
    (S (closeCalls y)).

(** X21. [disconnectCall] on a session that holds its microphone stream,
    its peer connection and its signalling socket, whatever the status of
    the call (connecting, connected or any other), whether remote audio
    plays or not and whichever callbacks are registered: it does not
    throw; it sends the end frame when the socket is open and calls
    [close()] on the socket once; it tells the status callback, if there
    is one, 'disconnected' once and the error callback nothing; it closes
    the peer connection, stops every track of the stream, detaches the
    remote audio element and stops the keep-alive interval. The session it
    leaves has every field at its initial value (status 'disconnected',
    not muted, no socket, peer connection, stream or session id) except
    the callbacks, which are those registered before. *)
Theorem disconnectCall_tears_down (w : World) (ls pc s : addr)
    (ts : list Track) (x : PeerConnection) (y : Socket) :
  localStream (call w) = Some ls → peerConnection (call w) = Some pc →
  socket (call w) = Some s →
  streams w !! ls = Some ts → peers w !! pc = Some x → sockets w !! s = Some y →
  ∃ w',
    disconnectCall w = Return () w' ∧
    call w'
    = {| sessionId := None; socket := None; peerConnection := None;
         localStream := None; remoteStream := None; remoteAudio := None;
         isMuted := false; callStatus := "disconnected"; pingInterval := None;
         pingCount := 0; lastPongTime := None;
         callbacks := callbacks (call w) |} ∧
    trace w'
    = trace w ++ [SocketCloseCalled s]
      ++ match onCallStatus (callbacks (call w)) with
         | Some f => [CallStatus f "disconnected"]
         | None => []
         end
      ++ [PeerConnectionClosed pc] ++ imap (λ i _, TrackStopped ls i) ts ∧
    streams w' = <[ls := stopTrack <$> ts]> (streams w) ∧
    peers w'
    = <[pc := mkPeer true "closed" (senders x) (localDescription x)
                (remoteDescription x) (candidates x)]> (peers w) ∧
    sockets w' = <[s := closedBy y]> (sockets w) ∧
    audios w'
    = match remoteAudio (call w) with
      | Some a => <[a := mkAudio None false]> (audios w)
      | None => audios w
      end ∧
    intervals w'
    = match pingInterval (call w) with
      | Some t => <[t := mkInterval false]> (intervals w)
      | None => intervals w
      end.
Proof.
  intros Hls Hpc Hs Hts Hx Hy.
  enough (Hwp : wp disconnectCall (λ _ w',
    call w'
    = {| sessionId := None; socket := None; peerConnection := None;
         localStream := None; remoteStream := None; remoteAudio := None;
         isMuted := false; callStatus := "disconnected"; pingInterval := None;
         pingCount := 0; lastPongTime := None;
         callbacks := callbacks (call w) |} ∧
    trace w'
    = trace w ++ [SocketCloseCalled s]
      ++ match onCallStatus (callbacks (call w)) with
         | Some f => [CallStatus f "disconnected"]
         | None => []
         end
      ++ [PeerConnectionClosed pc] ++ imap (λ i _, TrackStopped ls i) ts ∧
    streams w' = <[ls := stopTrack <$> ts]> (streams w) ∧
    peers w'
    = <[pc := mkPeer true "closed" (senders x) (localDescription x)
                (remoteDescription x) (candidates x)]> (peers w) ∧
    sockets w' = <[s := closedBy y]> (sockets w) ∧
    audios w'
    = match remoteAudio (call w) with
      | Some a => <[a := mkAudio None false]> (audios w)
      | None => audios w
      end ∧
    intervals w'
    = match pingInterval (call w) with
      | Some t => <[t := mkInterval false]> (intervals w)
      | None => intervals w
      end) (λ _ _, False) w).
  { destruct (wp_returns _ _ _ Hwp) as ([] & w' & Hret & HQ).
    exists w'. split; [exact Hret | exact HQ]. }
  pose proof (lookup_lt_Some _ _ _ Hts).
  pose proof (lookup_lt_Some _ _ _ Hx).
  pose proof (lookup_lt_Some _ _ _ Hy).
  unfold closedBy.
  destruct (callbacks (call w)) as [[f|] g] eqn:Hcb;
    destruct (remoteStream (call w)) as [rs|] eqn:Hrs;
    destruct (remoteAudio (call w)) as [ra|] eqn:Hra;
    destruct (pingInterval (call w)) as [i|] eqn:Hi;
    destruct (readyState y) eqn:Hr;
    wp_run control_norm; control_norm;
    rewrite <- ?app_assoc, ?list_insert_insert_eq;
    cbn; rewrite ?Hr, ?app_nil_r; repeat split; reflexivity.
Qed.

(** The call of scenario D once the peer connection is connected and the
    remote audio plays. *)
Definition inCall : World :=
  default callPage
    (run (scenarioD ++ [ ConnectionStateChange 0%nat "connected";
                         TrackEvent 0%nat 1%nat ]) callPage).

Lemma disconnectCall_tears_down_witness :
  callStatus (call inCall) = "connected" ∧
  ∃ w', disconnectCall inCall = Return () w' ∧
        callStatus (call w') = "disconnected" ∧
        callbacks (call w') = mkCallbacks (Some "onCallStatus") (Some "onCallError") ∧
        trace w'
        = trace inCall ++
          [SocketCloseCalled 0%nat; CallStatus "onCallStatus" "disconnected";
           PeerConnectionClosed 0%nat; TrackStopped 0%nat 0%nat] ∧
        audios w' = [mkAudio None false].
Proof.
  split; [vm_compute; reflexivity|].
  destruct (disconnectCall_tears_down inCall 0%nat 0%nat 0%nat
              [mkTrack "audio" true false]
              (mkPeer false "connected" [(0%nat, 0%nat)] (Some ("offer", "v=0"))
                 None [])
              (mkSocket
                 (Runtime.mkSocketUrl "h.example" "/api/chat/audio" "device-1"
                    None None None)
                 0%nat Runtime.OPEN [OfferFrame "v=0"] 0%nat)
              ltac:(vm_compute; reflexivity) ltac:(vm_compute; reflexivity)
              ltac:(vm_compute; reflexivity) ltac:(vm_compute; reflexivity)
              ltac:(vm_compute; reflexivity) ltac:(vm_compute; reflexivity))
    as (w' & Hret & Hc & Ht & _ & _ & _ & Ha & _).
  exists w'. split; [exact Hret|]. rewrite Hc.
  split; [reflexivity|]. split; [vm_compute; reflexivity|].
  split; [exact Ht | exact Ha].
Defined.

(** The socket once [cleanup] is done with it: [close()] was called
    once, nothing was sent. *)
Definition closedQuietly (y : Socket) : Socket :=
  mkSocket (url y) (connect y)
    (match readyState y with
     | Runtime.CLOSED => Runtime.CLOSED
     | _ => Runtime.CLOSING
     end)
    (sent y) (S (closeCalls y)).

(** The text the error callback gets for the error [e]. *)
Definition surfaced (e : Error) : string :=
  match message e with
  | Some m => if String.eqb m "" then "Unable to connect voice" else m
  | None => "Unable to connect voice"
  end.

(** X27. A failure inside [startCall] once the session holds its
    microphone stream, its peer connection and its signalling socket --
    the connection promise is rejected, or [createOffer] or
    [setLocalDescription] fails with the error [e] -- runs the [catch]
    block, which does not throw. The status callback, if there is one, is
    told 'error' and the error callback the message of the error (or
    'Unable to connect voice' when it has none); only then the peer
    connection is closed, every track of the stream stopped and [close()]
    called on the socket, on which nothing is sent. The status
    'disconnected' is told to no callback. The session left has every
    field at its initial value except the callbacks, which are kept, and
    the [startCall] is over. *)
Theorem startCall_failure_tears_down (k : addr) (e : Error) (w : World)
    (ls pc s : addr) (ts : list Track) (x : PeerConnection) (y : Socket) :
  localStream (call w) = Some ls → peerConnection (call w) = Some pc →
  socket (call w) = Some s →
  streams w !! ls = Some ts → peers w !! pc = Some x → sockets w !! s = Some y →
  ∃ w',
    afterOffer k (ChatStream.Failed e) w = Return () w' ∧
    (∀ pc' sdp,
       afterLocalDescription k pc' sdp (ChatStream.Failed e) w = Return () w') ∧
    afterConnect k (Runtime.Rejected e) w = Return () w' ∧
    pending w' = <[k := Completed]> (pending w) ∧
    call w'
    = {| sessionId := None; socket := None; peerConnection := None;
         localStream := None; remoteStream := None; remoteAudio := None;
         isMuted := false; callStatus := "disconnected"; pingInterval := None;
         pingCount := 0; lastPongTime := None;
         callbacks := callbacks (call w) |} ∧
    trace w'
    = trace w
      ++ match onCallStatus (callbacks (call w)) with
         | Some f => [CallStatus f "error"]
         | None => []
         end
      ++ match onCallError (callbacks (call w)) with
         | Some g => [CallError g (Some (surfaced e))]
         | None => []
         end
      ++ [PeerConnectionClosed pc] ++ imap (λ i _, TrackStopped ls i) ts
      ++ [SocketCloseCalled s] ∧
    streams w' = <[ls := stopTrack <$> ts]> (streams w) ∧
    peers w'
    = <[pc := mkPeer true "closed" (senders x) (localDescription x)
                (remoteDescription x) (candidates x)]> (peers w) ∧
    sockets w' = <[s := closedQuietly y]> (sockets w).
Proof.
  intros Hls Hpc Hs Hts Hx Hy.
  destruct (startCall_failure_runs_catchBlock k e w) as (_ & Hc & Ho & Hl).
  cbv zeta in Hc, Ho, Hl.
  set (v := with_pending (<[k := Completed]> (pending w)) w) in *.
  enough (Hwp : wp (catchBlock e) (λ _ w',
    pending w' = <[k := Completed]> (pending w) ∧
    call w'
    = {| sessionId := None; socket := None; peerConnection := None;
         localStream := None; remoteStream := None; remoteAudio := None;
         isMuted := false; callStatus := "disconnected"; pingInterval := None;
         pingCount := 0; lastPongTime := None;
         callbacks := callbacks (call w) |} ∧
    trace w'
    = trace w
      ++ match onCallStatus (callbacks (call w)) with
         | Some f => [CallStatus f "error"]
         | None => []
         end
      ++ match onCallError (callbacks (call w)) with
         | Some g => [CallError g (Some (surfaced e))]
         | None => []
         end
      ++ [PeerConnectionClosed pc] ++ imap (λ i _, TrackStopped ls i) ts
      ++ [SocketCloseCalled s] ∧
    streams w' = <[ls := stopTrack <$> ts]> (streams w) ∧
    peers w'
    = <[pc := mkPeer true "closed" (senders x) (localDescription x)
                (remoteDescription x) (candidates x)]> (peers w) ∧
    sockets w' = <[s := closedQuietly y]> (sockets w)) (λ _ _, False) v).
  { destruct (wp_returns _ _ _ Hwp) as ([] & w' & Hret & HQ).
    exists w'. rewrite Ho, Hc. split; [exact Hret|]. split.
    { intros pc' sdp. rewrite Hl. exact Hret. }
    split; [exact Hret | exact HQ]. }
  assert (Hls' : localStream (call v) = Some ls) by exact Hls.
  assert (Hpc' : peerConnection (call v) = Some pc) by exact Hpc.
  assert (Hs' : socket (call v) = Some s) by exact Hs.
  assert (Hts' : streams v !! ls = Some ts) by exact Hts.
  assert (Hx' : peers v !! pc = Some x) by exact Hx.
  assert (Hy' : sockets v !! s = Some y) by exact Hy.
  change (callbacks (call w)) with (callbacks (call v)).
  change (trace w) with (trace v).
  change (streams w) with (streams v).
  change (peers w) with (peers v).
  change (sockets w) with (sockets v).
  change (<[k := Completed]> (pending w)) with (pending v).
  clearbody v. clear Hls Hpc Hs Hts Hx Hy Hc Ho Hl.
  unfold closedQuietly, surfaced, or_str.
  destruct (callbacks (call v)) as [[f|] [g|]] eqn:Hcb;
    destruct (remoteStream (call v)) as [rs|] eqn:Hrs;
    destruct (remoteAudio (call v)) as [ra|] eqn:Hra;
    destruct (pingInterval (call v)) as [i|] eqn:Hi;
    wp_run control_norm; control_norm;
    rewrite <- ?app_assoc, ?list_insert_insert_eq;
    cbn; rewrite ?app_nil_r; repeat split; reflexivity.
Qed.

Lemma startCall_failure_tears_down_witness :
  ∃ v', afterOffer 0%nat (ChatStream.Failed (Err "no offer")) offering
        = Return () v' ∧
        callStatus (call v') = "disconnected" ∧
        trace v'
        = trace offering ++
          [CallStatus "onCallStatus" "error";
           CallError "onCallError" (Some "no offer");
           PeerConnectionClosed 0%nat;
           TrackStopped 0%nat 0%nat;
           SocketCloseCalled 0%nat].
Proof.
  destruct (startCall_failure_tears_down 0%nat (Err "no offer") offering
              0%nat 0%nat 0%nat
              [mkTrack "audio" true false]
              (mkPeer false "new" [(0%nat, 0%nat)] None None [])
              (mkSocket
                 (Runtime.mkSocketUrl "h.example" "/api/chat/audio" "device-1"
                    None None None)
                 0%nat Runtime.OPEN [] 0%nat)
              ltac:(vm_compute; reflexivity) ltac:(vm_compute; reflexivity)
              ltac:(vm_compute; reflexivity) ltac:(vm_compute; reflexivity)
              ltac:(vm_compute; reflexivity) ltac:(vm_compute; reflexivity))
    as (v' & Hret & _ & _ & _ & Hc & Ht & _).
  exists v'. split; [exact Hret|]. rewrite Hc.
  split; [reflexivity | exact Ht].
Defined.

(** What [updateSessionId] of chat.js makes of the session id. *)
Definition adopted (sid : option string) (b : Runtime.World) : option string :=
  if truthy_str sid then sid else ChatSession.sessionId (Runtime.chat b).

(** The session is told of a session id that is not empty and not the
    one it has. *)
Definition announced (sid : option string) (b : Runtime.World)
    : list Runtime.Notification :=
  match sid, ChatSession.onSessionUpdate (ChatSession.callbacks (Runtime.chat b)) with
  | Some s, Some f =>
      if truthy_str sid
         && negb (bool_decide (sid = ChatSession.sessionId (Runtime.chat b)))
      then [Runtime.SessionUpdate f s]
      else []
  | _, _ => []
  end.

Lemma updateSessionId_outcome (sid : option string) (b : Runtime.World) :
  ∃ b', Chat.updateSessionId sid b = Return () b' ∧
        ChatSession.sessionId (Runtime.chat b') = adopted sid b ∧
        Runtime.log b' = Runtime.log b ++ announced sid b.
Proof.
  unfold Chat.updateSessionId, Chat.assign, Chat.callback, Runtime.notify,
    adopted, announced, bind, gets, modify, when.
  destruct sid as [s|]; [|eexists; rewrite app_nil_r; repeat split; reflexivity].
  destruct (truthy_str (Some s)) eqn:Ht; cbn [andb].
  - destruct (bool_decide (Some s = ChatSession.sessionId (Runtime.chat b))) eqn:Hd;
      cbn [negb].
    + apply bool_decide_eq_true in Hd.
      destruct (ChatSession.onSessionUpdate _);
        eexists; rewrite app_nil_r; repeat split; (reflexivity || exact (eq_sym Hd)).
    + cbn. destruct (ChatSession.onSessionUpdate _);
        eexists; rewrite ?app_nil_r; repeat split; reflexivity.
  - destruct (ChatSession.onSessionUpdate _);
      eexists; rewrite app_nil_r; repeat split; reflexivity.
Qed.

(** X22. An answer frame of the call server never makes
    [handleAnswer] throw, whatever its content and whatever the peer
    connection does with it. When the frame has a [data] member, the call
    session takes its session id as it is, even when there is none; the
    chat session takes it only when it is not empty, and its
    [onSessionUpdate] callback is told only when the id is new. When the
    frame has no [data] member, reading the session id fails inside the
    [try] block and nothing changes at all. *)
Theorem handleAnswer_adopts_session_id (data : option ActionData) (rtc : Rtc)
    (w : World) :
  ∃ w',
    handleAnswer data rtc w = Return () w' ∧
    match data with
    | Some d =>
        sessionId (call w') = ad_sessionId d ∧
        ChatSession.sessionId (Runtime.chat (base w'))
        = adopted (ad_sessionId d) (base w) ∧
        Runtime.log (base w')
        = Runtime.log (base w) ++ announced (ad_sessionId d) (base w)
    | None => w' = w
    end.
Proof.
  destruct data as [d|]; [|exists w; split; reflexivity].
  destruct (updateSessionId_outcome (ad_sessionId d) (base w))
    as (b' & Hb & Hs & Hl).
  pose (J := λ v : World,
          sessionId (call v) = ad_sessionId d ∧
          ChatSession.sessionId (Runtime.chat (base v))
          = adopted (ad_sessionId d) (base w) ∧
          Runtime.log (base v)
          = Runtime.log (base w) ++ announced (ad_sessionId d) (base w)).
  enough (Hwp : wp (handleAnswer (Some d) rtc) (λ _, J) (λ _ _, False) w).
  { destruct (wp_returns _ _ _ Hwp) as ([] & w' & Hret & HQ).
    exists w'. split; [exact Hret | exact HQ]. }
  unfold handleAnswer. apply wp_close, wp_try_catch.
  apply wp_assoc. unfold assign at 1. eapply wp_modify; [reflexivity|].
  apply wp_assoc. eapply wp_return.
  { unfold chatjs. cbn [base with_call]. rewrite Hb. reflexivity. }
  cbn beta.
  apply (wp_of_keeps J).
  - keeps_walk ltac:(intros; unfold J in *; cbn in *; repeat case_match;
                     cbn in *; assumption).
  - unfold J. cbn. auto.
Qed.

(** A read whose value the precondition fixes. *)
Lemma triple_read_const {A B} (P : World → Prop) (f : World → A) (a : A)
    (k : A → M B) (Q : B → World → Prop) (E : Error → World → Prop) :
  (∀ s, P s → f s = a) → triple P (k a) Q E → triple P (bind (gets f) k) Q E.
Proof.
  intros Hf Hk s Hs. unfold bind, gets. rewrite (Hf s Hs). apply Hk, Hs.
Qed.

(** The session holds no microphone stream, the streams are [ss], and the
    callbacks are [cbs]. *)
Definition unheld (ss : list (list Track)) (cbs : CallCallbacks) (w : World)
    : Prop :=
  localStream (call w) = None ∧ streams w = ss ∧ callbacks (call w) = cbs.

Ltac unheld_upd :=
  intros; unfold unheld in *; cbn in *; repeat case_match; cbn in *;
  repeat lazymatch goal with
    | H : _ ∧ _ |- _ => destruct H
    | |- _ ∧ _ => split
    end;
  first [assumption | reflexivity | congruence].

Ltac unheld_step ss cbs :=
  first
    [ apply (triple_read_const (unheld ss cbs) (λ w, localStream (call w)) None);
      [intros ? (? & _); assumption | cbn iota]
    | apply triple_bind with (R := λ _, unheld ss cbs);
      [apply triple_invariant; [keeps_walk unheld_upd | total_walk] | intros ?] ].

(** The [catch] block of [startCall] on a session that holds no stream
    stops no track. *)
Lemma catchBlock_unheld (ss : list (list Track)) (cbs : CallCallbacks)
    (e : Error) :
  triple (unheld ss cbs) (catchBlock e)
    (λ _ w', streams w' = ss ∧ call w' = createSession cbs) (λ _ _, False).
Proof.
  unfold catchBlock, cleanup, field.
  repeat unheld_step ss cbs.
  apply triple_modify. intros s (_ & Hs & Hc). cbn. rewrite Hc. auto.
Qed.

(** X23. A microphone stream that arrives once the session it was
    requested for has been replaced (the call was torn down while the
    permission was pending) is attached to no session: [startCall]
    fails on the missing stream and its [catch] block cleans up without
    stopping any track, so that the new stream stays as the browser
    handed it over, running, with no reference left to stop it. The
    session that comes out is a fresh one. *)
Theorem late_microphone_stream_is_never_stopped (k : addr) (e : nat)
    (sid : option string) (tracks : list Track) (w : World) :
  epoch w ≠ e → localStream (call w) = None →
  ∃ w',
    afterMedia k e sid (ChatStream.Responded tracks) w = Return () w' ∧
    streams w' = streams w ++ [tracks] ∧
    call w' = createSession (callbacks (call w)).
Proof.
  intros He Hls.
  enough (Hwp : wp (afterMedia k e sid (ChatStream.Responded tracks))
                  (λ _ w', streams w' = streams w ++ [tracks] ∧
                           call w' = createSession (callbacks (call w)))
                  (λ _ _, False) w).
  { destruct (wp_returns _ _ _ Hwp) as ([] & w' & Hret & HQ).
    exists w'. split; [exact Hret | exact HQ]. }
  unfold afterMedia. apply wp_close.
  repeat (lazymatch goal with
          | |- wp (bind (catchBlock _) _) _ _ _ => fail
          | |- wp (bind (when (bool_decide (_ = e)) _) _) _ _ _ =>
              rewrite bool_decide_eq_false_2 by exact He; cbn [when]
          | |- _ => wp_step norm
          end).
  lazymatch goal with
  | |- wp (bind (catchBlock ?err) _) _ _ ?s =>
      pose proof (catchBlock_unheld (streams w ++ [tracks]) (callbacks (call w))
                    err s) as H
  end.
  unfold wp, bind. destruct (catchBlock _ _) as [a v|a v].
  - apply H. unfold unheld. norm. auto.
  - apply H. unfold unheld. norm. auto.
Qed.

(** The call was started and hung up while the permission was pending. *)
Definition hungUp : World :=
  default callPage
    (run [ SetCallCallbacks
      (mkCallbacksArg (Some (Some "onCallStatus")) (Some (Some "onCallError")));
           StartCall None; DisconnectCall ] callPage).

Lemma late_microphone_stream_is_never_stopped_witness :
  ∃ w', afterMedia 0%nat 0%nat None
          (ChatStream.Responded [mkTrack "audio" true false]) hungUp
        = Return () w' ∧
        streams w' = [[mkTrack "audio" true false]] ∧
        localStream (call w') = None.
Proof.
  destruct (late_microphone_stream_is_never_stopped 0%nat 0%nat None
              [mkTrack "audio" true false] hungUp)
    as (w' & Hret & Hs & Hc).
  - vm_compute. discriminate.
  - vm_compute. reflexivity.
  - exists w'. split; [exact Hret|]. split; [exact Hs|]. rewrite Hc. reflexivity.
Defined.

End CallControlFacts.

(** ** call.js: the audio energy of a call *)

Module CallStats.

Import Js CallSession Call.
Local Open Scope list_scope.

Section Energy.

(** The numbers of a statistics report. *)
Variable Number : Type.

(** A report of [peerConnection.getStats()]; a report without
    [totalAudioEnergy] has [None]. *)
Record Report := mkReport {
  r_type : string;
  totalAudioEnergy : option Number
}.

(** The promise the executor settles: the first [resolve] or [reject]
    counts, the later ones do nothing. *)
Inductive Settlement :=
| Unsettled
| Resolved (v : option Number)
| Rejected (e : Error).

Definition settle (new s : Settlement) : Settlement :=
  match s with
  | Unsettled => new
  | _ => s
  end.

(** [stats.forEach((report) => { if (report.type == t) resolve(...) })] *)
Definition forEachReport (t : string) (stats : list Report) (s : Settlement)
    : Settlement :=
  foldl
    (λ s report,
       if String.eqb (r_type report) t
       then settle (Resolved (totalAudioEnergy report)) s
       else s)
    s stats.

(** The executor of both functions, on what [getStats()] comes back
    with. *)
Definition audioEnergy (t notFound : string)
    (stats : ChatStream.Fetched (list Report)) : M Settlement :=
  pc ← field peerConnection;
  match pc with
  | None => ret (settle (Rejected (Err "no peer connection")) Unsettled)
  | Some _ =>
      match stats with
      | ChatStream.Responded reports =>
          ret (settle (Rejected (Err notFound))
                 (forEachReport t reports Unsettled))
      | ChatStream.Failed err => ret (settle (Rejected err) Unsettled)
      end
  end.

(** Get inbound audio energy. *)
Definition getInboundAudioEnergy : ChatStream.Fetched (list Report) → M Settlement :=
  audioEnergy "inbound-rtp" "no inbound-rtp stats found".

(** Get outbound audio energy. *)
Definition getOutboundAudioEnergy : ChatStream.Fetched (list Report) → M Settlement :=
  audioEnergy "outbound-rtp" "no outbound-rtp stats found".

End Energy.

Arguments mkReport {Number} _ _.
Arguments r_type {Number} _.
Arguments totalAudioEnergy {Number} _.
Arguments Unsettled {Number}.
Arguments Resolved {Number} _.
Arguments Rejected {Number} _.

End CallStats.

Module CallStatsFacts.

Import Js CallSession Call CallStats.
Local Open Scope list_scope.

Section Energy.

Variable Number : Type.

(** Once the promise is settled the remaining reports change nothing. *)
Lemma forEachReport_settled (t : string) (stats : list (Report Number))
    (s : Settlement Number) :
  s ≠ Unsettled → forEachReport Number t stats s = s.
Proof.
  revert s. induction stats as [|r stats IH]; intros s Hs; [reflexivity|].
  cbn. unfold forEachReport in IH. destruct (String.eqb (r_type r) t).
  - rewrite IH by (destruct s; [contradiction | discriminate ..]).
    destruct s; [contradiction | reflexivity ..].
  - apply IH, Hs.
Qed.

(** The first report of the type settles the promise. *)
Lemma forEachReport_first (t : string) (stats : list (Report Number)) :
  forEachReport Number t stats Unsettled
  = match list_find (λ r, r_type r = t) stats with
    | Some (_, r) => Resolved (totalAudioEnergy r)
    | None => Unsettled
    end.
Proof.
  induction stats as [|r stats IH]; [reflexivity|].
  cbn [list_find]. change (forEachReport Number t (r :: stats) Unsettled)
    with (forEachReport Number t stats
            (if String.eqb (r_type r) t
             then Resolved (totalAudioEnergy r) else Unsettled)).
  destruct (String.eqb (r_type r) t) eqn:Hr.
  - apply String.eqb_eq in Hr. rewrite decide_True by exact Hr.
    apply forEachReport_settled. discriminate.
  - apply String.eqb_neq in Hr. rewrite decide_False by exact Hr.
    rewrite IH. destruct (list_find _ stats) as [[i r']|]; reflexivity.
Qed.

(** What the promise of [audioEnergy] is settled with. *)
Definition energy (t notFound : string) (hasPeer : bool)
    (stats : ChatStream.Fetched (list (Report Number))) : Settlement Number :=
  if hasPeer then
    match stats with
    | ChatStream.Responded reports =>
        match list_find (λ r, r_type r = t) reports with
        | Some (_, r) => Resolved (totalAudioEnergy r)
        | None => Rejected (Err notFound)
        end
    | ChatStream.Failed err => Rejected err
    end
  else Rejected (Err "no peer connection").

Lemma audioEnergy_first (t notFound : string)
    (stats : ChatStream.Fetched (list (Report Number))) (w : World) :
  audioEnergy Number t notFound stats w
  = Return (energy t notFound (is_some (peerConnection (call w))) stats) w.
Proof.
  unfold audioEnergy, energy, field, bind, gets.
  destruct (peerConnection (call w)) as [pc|]; [|reflexivity].
  destruct stats as [reports|err]; [|reflexivity]. cbn.
  rewrite forEachReport_first.
  destruct (list_find _ reports) as [[i r]|]; reflexivity.
Qed.

End Energy.

(** X24. [getInboundAudioEnergy] and [getOutboundAudioEnergy] settle
    their promise with the [totalAudioEnergy] of the first report of
    type 'inbound-rtp' (resp. 'outbound-rtp') in the statistics, whatever
    reports follow it; they reject with 'no inbound-rtp stats found'
    (resp. outbound) when there is none, with the error of [getStats]
    when it fails, and with 'no peer connection', without looking at any
    statistics, when the session has no peer connection. They change
    nothing in the session. *)
Theorem audio_energy_is_first_matching_report (Number : Type)
    (stats : ChatStream.Fetched (list (Report Number))) (w : World) :
  getInboundAudioEnergy Number stats w
  = Return (energy Number "inbound-rtp" "no inbound-rtp stats found"
              (is_some (peerConnection (call w))) stats) w ∧
  getOutboundAudioEnergy Number stats w
  = Return (energy Number "outbound-rtp" "no outbound-rtp stats found"
              (is_some (peerConnection (call w))) stats) w.
Proof. split; apply audioEnergy_first. Qed.

End CallStatsFacts.

(** ** The close event of a socket the session has let go (socket.js) *)

Module StaleFacts.

Import Js Runtime EventLoop ChatSession SocketSession.
Import Logic LogicFacts EventLoopFacts.

Local Open Scope Z_scope.
Local Open Scope list_scope.

(** X25. The close event of a socket that is not the socket of the
    session -- one that [disconnect] has let go, or that a later
    [connectSocket] has replaced -- changes nothing but the state of that
    socket, whatever its code: no fallback, no error message, no timer
    cleared, and the socket the session holds now stays. *)
Theorem stale_close_is_ignored (s : addr) (code : Z) (w w' : World) :
  socket (sock w) ≠ Some s →
  step (WsClose s code) w = Some w' →
  ∃ x, sockets w !! s = Some x ∧
       w' = with_sockets (<[s := with_readyState CLOSED x]> (sockets w)) w.
Proof.
  intros Hs Hstep. cbn [step] in Hstep. unfold ws in Hstep.
  destruct (sockets w !! s) as [x|] eqn:Hx; [|discriminate].
  destruct (negb _); [|discriminate]. injection Hstep as <-.
  exists x. split; [reflexivity|].
  apply (handle_returns _
           (λ v, v = with_sockets (<[s := with_readyState CLOSED x]> (sockets w)) w)).
  apply wp_close.
  repeat lazymatch goal with
         | |- wp (bind (when (bool_decide ?P) _) _) _ _ _ =>
             let Hb := fresh "Hb" in
             destruct (bool_decide P) eqn:Hb;
             [apply bool_decide_eq_true in Hb; exfalso; exact (Hs Hb) | cbn [when]]
         | |- _ => wp_step ltac:(cbn; rewrite ?Hx)
         end.
  reflexivity.
Qed.

(** The socket that opened was let go by [disconnect]. *)
Definition letGo : World :=
  default SocketFacts.openedWorld
    (run [Call Disconnect] SocketFacts.openedWorld).

Lemma stale_close_is_ignored_witness :
  ∃ w', step (WsClose 0%nat 1006) letGo = Some w' ∧
        messages (chat w') = messages (chat letGo) ∧
        transport (chat w') = transport (chat letGo) ∧
        timers w' = timers letGo.
Proof.
  destruct (stale_close_is_ignored 0%nat 1006 letGo
              (default letGo (step (WsClose 0%nat 1006) letGo)))
    as (x & _ & Hw).
  - vm_compute. discriminate.
  - vm_compute. reflexivity.
  - exists (default letGo (step (WsClose 0%nat 1006) letGo)).
    split; [vm_compute; reflexivity|].
    split; [|split]; vm_compute; reflexivity.
Defined.

End StaleFacts.
